(** * Captioning and sentiment hooks of the zoom-clone repository

    A shallow embedding of

    - [hooks/useCaptions.ts]: the speech-recognition handlers that
      smooth interim results and merge short final fragments, the
      initialisation effect, [startListening], [clearTranscript],
      [loadSession] and [deleteSession];
    - [hooks/useNimCaptions.ts]: [enhanceCaption], the auto-enhancement
      effect, [generateSummary] and [extractActionItems];
    - [lib/nvidia-nim/sentiment.ts]: [createFallbackSentiment],
      [parseSentimentResponse], [analyzeSentiment] and
      [detectEmotionalShifts];
    - [hooks/useSentimentAnalysis.ts]: the history kept by [analyzeText],
      its alerts, [queueAnalysis], [processAnalysisQueue] and
      [clearSentimentData];
    - the rest of [hooks/useCaptions.ts]: [stopListening],
      [pauseListening] and [downloadTranscript]; the session effect of
      [hooks/useNimCaptions.ts] and [callNimApi] with the summarize and
      enhance-captions routes behind it; the result handler of
      [hooks/useSpeechRecognition.ts].

    Conventions of the embedding.

    - A JavaScript string is a [string]: a sequence of code units below
      256.  On these [length], the white space class of [\s] and of
      [trim], and [toLowerCase] are the functions of module [Js].
    - A [Date] is its [getTime()], a [Z] of milliseconds.  Every call of
      [new Date()] or [Date.now()] is an explicit clock reading passed
      to the function that makes it.
    - A JavaScript number is a binary64 float ([PrimFloat.float]).
    - React state and refs are fields of one record that the handlers
      thread.  A state updater that a handler queues runs when the
      handler has returned, before the next event, in the order of the
      queue.  A variable that a handler reads from its closure, and
      not through a ref or an updater, is an explicit argument of the
      handler.
    - A remote call is split at its [await]: the part before it returns
      the request, the part after it takes the outcome of the call. *)

From Stdlib Require Import ZArith Ascii String Uint63 Floats.PrimFloat.
From Stdlib Require SpecFloat FloatOps FloatAxioms.
From stdpp Require Import gmap strings list pretty.

Set Warnings "-inexact-float".
Set Default Proof Using "Type".

Local Open Scope string_scope.
Local Open Scope list_scope.
Local Open Scope Z_scope.

(** ** JavaScript string operations *)

Module Js.

(** White space of [\s] and [String.prototype.trim] among the code
    units below 256: TAB, LF, VT, FF, CR, SP and NBSP. *)
Definition isWhiteSpace (c : ascii) : bool :=
  let n := N_of_ascii c in
  ((9 <=? n) && (n <=? 13) || (n =? 32) || (n =? 160))%N.

Definition isEmpty (s : string) : bool :=
  match s with EmptyString => true | String _ _ => false end.

Fixpoint trimStart (s : string) : string :=
  match s with
  | EmptyString => EmptyString
  | String c r => if isWhiteSpace c then trimStart r else s
  end.

Fixpoint trimEnd (s : string) : string :=
  match s with
  | EmptyString => EmptyString
  | String c r =>
      let r' := trimEnd r in
      if isWhiteSpace c && isEmpty r' then EmptyString else String c r'
  end.

(** [s.trim()] *)
Definition trim (s : string) : string := trimEnd (trimStart s).

(** [s.replace(/\s+/g, ' ')]: every maximal run of white space becomes
    one space.  [inRun] tells that the previous code unit was white
    space. *)
Fixpoint collapseFrom (inRun : bool) (s : string) : string :=
  match s with
  | EmptyString => EmptyString
  | String c r =>
      if isWhiteSpace c
      then if inRun then collapseFrom true r
           else String " " (collapseFrom true r)
      else String c (collapseFrom false r)
  end.

Definition collapseWhiteSpace (s : string) : string := collapseFrom false s.

(** [s.split(/\s+/)]: the pieces between the maximal runs of white
    space; the empty string gives one empty piece, and a run at either
    end gives an empty piece there. *)
Fixpoint splitFrom (cur : string) (inRun : bool) (s : string) : list string :=
  match s with
  | EmptyString => [cur]
  | String c r =>
      if isWhiteSpace c
      then if inRun then splitFrom cur true r
           else cur :: splitFrom EmptyString true r
      else splitFrom (cur +:+ String c EmptyString) false r
  end.

Definition splitWhiteSpace (s : string) : list string :=
  splitFrom EmptyString false s.

(** [s.toLowerCase()] on code units below 256: A-Z, and the capital
    letters of Latin-1 (0xC0-0xDE without the multiplication sign). *)
Definition lowerChar (c : ascii) : ascii :=
  let n := N_of_ascii c in
  if ((65 <=? n) && (n <=? 90)
      || (192 <=? n) && (n <=? 222) && negb (n =? 215))%N
  then ascii_of_N (n + 32) else c.

Fixpoint toLowerCase (s : string) : string :=
  match s with
  | EmptyString => EmptyString
  | String c r => String (lowerChar c) (toLowerCase r)
  end.

Fixpoint startsWith (s w : string) : bool :=
  match w, s with
  | EmptyString, _ => true
  | String _ _, EmptyString => false
  | String a w', String b s' => Ascii.eqb a b && startsWith s' w'
  end.

(** [s.includes(w)] *)
Fixpoint includes (s w : string) : bool :=
  startsWith s w ||
  match s with
  | EmptyString => false
  | String _ r => includes r w
  end.

(** [s.substring(0, n)] *)
Fixpoint substring0 (n : nat) (s : string) : string :=
  match n, s with
  | S n', String c r => String c (substring0 n' r)
  | _, _ => EmptyString
  end.

(** [a.join(sep)] *)
Fixpoint join (sep : string) (l : list string) : string :=
  match l with
  | [] => EmptyString
  | [x] => x
  | x :: rest => x +:+ sep +:+ join sep rest
  end.

(** [a.slice(-n)]: the last [n] elements, all of them when there are
    fewer. *)
Definition sliceLast {A} (n : nat) (l : list A) : list A :=
  drop (length l - n) l.

(** [a.findIndex(p)], [None] for -1. *)
Fixpoint findIndex {A} (p : A -> bool) (l : list A) : option nat :=
  match l with
  | [] => None
  | x :: r => if p x then Some O else S <$> findIndex p r
  end.

(** The line feed of ['\n']. *)
Definition newline : string := String (ascii_of_N 10) EmptyString.

End Js.


(** ** hooks/useCaptions.ts *)

Module Captions.

(** [TranscriptEntry] of [lib/captions/types]; [confidence] may be
    absent. *)
Record TranscriptEntry := {
  text : string;
  timestamp : Z;
  startTime : Z;
  endTime : Z;
  confidence : option float;
  isFinal : bool;
  speaker : string;
}.

(** [CaptionSession] of [lib/captions/types]. *)
Record CaptionSession := {
  s_id : string;
  s_name : string;
  s_startTime : Z;
  s_endTime : Z;
  s_transcript : list TranscriptEntry;
  s_language : string;
}.

(** The state cells and refs of one [useCaptions] instance.
    [recognitionRef] tells whether the ref holds a recogniser;
    [interimTimerRef] holds the deadline of the pending timeout;
    [storage] is the session store behind [CaptionStorage]. *)
Record State := {
  isListening : bool;
  transcript : list TranscriptEntry;
  currentSession : option CaptionSession;
  error : option string;
  recognitionRef : bool;
  storage : gmap string CaptionSession;
  beginTimeRef : option Z;
  interimTimerRef : option Z;
  pendingInterimRef : option TranscriptEntry;
  lastFinalRef : option TranscriptEntry;
}.

Definition initialState : State := {|
  isListening := false;
  transcript := [];
  currentSession := None;
  error := None;
  recognitionRef := false;
  storage := ∅;
  beginTimeRef := None;
  interimTimerRef := None;
  pendingInterimRef := None;
  lastFinalRef := None;
|}.

Definition setIsListening (b : bool) (st : State) : State :=
  {| isListening := b; transcript := transcript st;
     currentSession := currentSession st; error := error st;
     recognitionRef := recognitionRef st; storage := storage st;
     beginTimeRef := beginTimeRef st; interimTimerRef := interimTimerRef st;
     pendingInterimRef := pendingInterimRef st; lastFinalRef := lastFinalRef st |}.

Definition setTranscript (t : list TranscriptEntry) (st : State) : State :=
  {| isListening := isListening st; transcript := t;
     currentSession := currentSession st; error := error st;
     recognitionRef := recognitionRef st; storage := storage st;
     beginTimeRef := beginTimeRef st; interimTimerRef := interimTimerRef st;
     pendingInterimRef := pendingInterimRef st; lastFinalRef := lastFinalRef st |}.

Definition setCurrentSession (s : option CaptionSession) (st : State) : State :=
  {| isListening := isListening st; transcript := transcript st;
     currentSession := s; error := error st;
     recognitionRef := recognitionRef st; storage := storage st;
     beginTimeRef := beginTimeRef st; interimTimerRef := interimTimerRef st;
     pendingInterimRef := pendingInterimRef st; lastFinalRef := lastFinalRef st |}.

Definition setError (e : option string) (st : State) : State :=
  {| isListening := isListening st; transcript := transcript st;
     currentSession := currentSession st; error := e;
     recognitionRef := recognitionRef st; storage := storage st;
     beginTimeRef := beginTimeRef st; interimTimerRef := interimTimerRef st;
     pendingInterimRef := pendingInterimRef st; lastFinalRef := lastFinalRef st |}.

Definition setRecognitionRef (b : bool) (st : State) : State :=
  {| isListening := isListening st; transcript := transcript st;
     currentSession := currentSession st; error := error st;
     recognitionRef := b; storage := storage st;
     beginTimeRef := beginTimeRef st; interimTimerRef := interimTimerRef st;
     pendingInterimRef := pendingInterimRef st; lastFinalRef := lastFinalRef st |}.

Definition setStorage (m : gmap string CaptionSession) (st : State) : State :=
  {| isListening := isListening st; transcript := transcript st;
     currentSession := currentSession st; error := error st;
     recognitionRef := recognitionRef st; storage := m;
     beginTimeRef := beginTimeRef st; interimTimerRef := interimTimerRef st;
     pendingInterimRef := pendingInterimRef st; lastFinalRef := lastFinalRef st |}.

Definition setBeginTimeRef (b : option Z) (st : State) : State :=
  {| isListening := isListening st; transcript := transcript st;
     currentSession := currentSession st; error := error st;
     recognitionRef := recognitionRef st; storage := storage st;
     beginTimeRef := b; interimTimerRef := interimTimerRef st;
     pendingInterimRef := pendingInterimRef st; lastFinalRef := lastFinalRef st |}.

Definition setInterimTimerRef (d : option Z) (st : State) : State :=
  {| isListening := isListening st; transcript := transcript st;
     currentSession := currentSession st; error := error st;
     recognitionRef := recognitionRef st; storage := storage st;
     beginTimeRef := beginTimeRef st; interimTimerRef := d;
     pendingInterimRef := pendingInterimRef st; lastFinalRef := lastFinalRef st |}.

Definition setPendingInterimRef (p : option TranscriptEntry) (st : State) : State :=
  {| isListening := isListening st; transcript := transcript st;
     currentSession := currentSession st; error := error st;
     recognitionRef := recognitionRef st; storage := storage st;
     beginTimeRef := beginTimeRef st; interimTimerRef := interimTimerRef st;
     pendingInterimRef := p; lastFinalRef := lastFinalRef st |}.

Definition setLastFinalRef (l : option TranscriptEntry) (st : State) : State :=
  {| isListening := isListening st; transcript := transcript st;
     currentSession := currentSession st; error := error st;
     recognitionRef := recognitionRef st; storage := storage st;
     beginTimeRef := beginTimeRef st; interimTimerRef := interimTimerRef st;
     pendingInterimRef := pendingInterimRef st; lastFinalRef := l |}.

(** Modelled from the spec: [CaptionStorage.saveSession] of
    [lib/captions/storage], which is not among the sources.  The
    store has key-value semantics and [saveSession] is an upsert by
    session id. *)
Definition saveSession (s : CaptionSession) (st : State) : State :=
  setStorage (<[s_id s := s]> (storage st)) st.

(** One slot of [event.results]: [result[0].transcript],
    [result[0].confidence] and [result.isFinal]. *)
Record SpeechResult := {
  r_transcript : string;
  r_confidence : option float;
  r_isFinal : bool;
}.

Record SpeechEvent := {
  resultIndex : nat;
  results : list SpeechResult;
}.

(** [baseEntry] of [onresult]; [now] is the clock when the entry is
    built. *)
Definition baseEntry (now : Z) (st : State) (r : SpeechResult) : TranscriptEntry := {|
  text := Js.trim (r_transcript r);
  timestamp := now;
  startTime := default now (beginTimeRef st);
  endTime := now;
  confidence := r_confidence r;
  isFinal := r_isFinal r;
  speaker := "User";
|}.

(** The callback of the 120 ms timeout. *)
Definition interimTimerCallback (st : State) : State :=
  let interim := pendingInterimRef st in
  let st := setInterimTimerRef None st in
  match interim with
  | None => st
  | Some interim =>
      setTranscript (List.filter isFinal (transcript st) ++ [interim]) st
  end.

(** The branch of a result that is not final. *)
Definition onInterim (now : Z) (entry : TranscriptEntry) (st : State) : State :=
  let st := setPendingInterimRef (Some entry) st in
  match interimTimerRef st with
  | None => setInterimTimerRef (Some (now + 120)) st
  | Some _ => st
  end.

Definition shouldMerge (st : State) (finalEntry : TranscriptEntry) : bool :=
  match lastFinalRef st with
  | None => false
  | Some last =>
      let shortByChars := (String.length (text finalEntry) <=? 8)%nat in
      let shortByWords :=
        (length (Js.splitWhiteSpace (text finalEntry)) <=? 2)%nat in
      let closeInTime := startTime finalEntry - endTime last <=? 1500 in
      (shortByChars || shortByWords) && closeInTime
  end.

Definition mergedText (last finalEntry : TranscriptEntry) : string :=
  Js.trim (Js.collapseWhiteSpace (text last +:+ " " +:+ text finalEntry)).

(** The entry [merged] of the merging updater; [nowU] is the clock
    inside the updater. *)
Definition mergeEntry (nowU : Z) (last finalEntry : TranscriptEntry) : TranscriptEntry := {|
  text := mergedText last finalEntry;
  timestamp := nowU;
  startTime := startTime last;
  endTime := endTime finalEntry;
  confidence := confidence last;
  isFinal := true;
  speaker := speaker last;
|}.

(** The updater passed to [setTranscript] when [shouldMerge] holds. *)
Definition mergeIntoTranscript (nowU : Z) (finalEntry : TranscriptEntry) (st : State) : State :=
  let prev := transcript st in
  match Js.findIndex isFinal (reverse prev) with
  | None =>
      let st := setBeginTimeRef (Some nowU) st in
      let st := setLastFinalRef (Some finalEntry) st in
      setTranscript (List.filter isFinal prev ++ [finalEntry]) st
  | Some _ =>
      let updated := List.filter isFinal prev in
      match updated !! (length updated - 1)%nat with
      | Some last =>
          let merged := mergeEntry nowU last finalEntry in
          let updated := <[(length updated - 1)%nat := merged]> updated in
          let st := setBeginTimeRef (Some nowU) st in
          let st := setLastFinalRef (Some merged) st in
          setTranscript updated st
      | None => st (* not reached: a final entry was found in [prev] *)
      end
  end.

(** The updater passed to [setCurrentSession] when [shouldMerge]
    holds. *)
Definition mergeIntoSession (nowU : Z) (finalEntry : TranscriptEntry) (st : State) : State :=
  match currentSession st with
  | None => st
  | Some prevSession =>
      let t := s_transcript prevSession in
      let t :=
        match t !! (length t - 1)%nat with
        | Some last =>
            <[(length t - 1)%nat :=
               {| text := mergedText last finalEntry;
                  timestamp := timestamp last;
                  startTime := startTime last;
                  endTime := endTime finalEntry;
                  confidence := confidence last;
                  isFinal := isFinal last;
                  speaker := speaker last |}]> t
        | None => t ++ [finalEntry]
        end in
      let updatedSession :=
        {| s_id := s_id prevSession; s_name := s_name prevSession;
           s_startTime := s_startTime prevSession; s_endTime := nowU;
           s_transcript := t; s_language := s_language prevSession |} in
      setCurrentSession (Some updatedSession) (saveSession updatedSession st)
  end.

(** The updater passed to [setTranscript] when the entry is appended. *)
Definition appendToTranscript (nowU : Z) (finalEntry : TranscriptEntry) (st : State) : State :=
  let finals := List.filter isFinal (transcript st) in
  let st := setBeginTimeRef (Some nowU) st in
  let st := setLastFinalRef (Some finalEntry) st in
  setTranscript (finals ++ [finalEntry]) st.

(** An update that [recognition.onresult] queues for the [transcript]
    cell, and one that it queues for the [currentSession] cell.  React
    does not run an updater where it is queued: it runs the queued
    updates of a cell, in their order, when it next renders, after the
    handler has returned. *)
Inductive TranscriptUpdate :=
| QueuedMerge (nowU : Z) (finalEntry : TranscriptEntry)
| QueuedAppend (nowU : Z) (finalEntry : TranscriptEntry).

Inductive SessionUpdate :=
| QueuedSessionMerge (nowU : Z) (finalEntry : TranscriptEntry)
| QueuedSessionValue (updatedSession : CaptionSession).

Definition runTranscriptUpdate (u : TranscriptUpdate) (st : State) : State :=
  match u with
  | QueuedMerge nowU finalEntry => mergeIntoTranscript nowU finalEntry st
  | QueuedAppend nowU finalEntry => appendToTranscript nowU finalEntry st
  end.

Definition runSessionUpdate (u : SessionUpdate) (st : State) : State :=
  match u with
  | QueuedSessionMerge nowU finalEntry => mergeIntoSession nowU finalEntry st
  | QueuedSessionValue updatedSession => setCurrentSession (Some updatedSession) st
  end.

(** The hook while [recognition.onresult] runs: the state with what the
    handler has written at once (the refs of the interim buffer and of
    the timer, and the store), and the updates queued so far. *)
Record Handling := {
  h_state : State;
  h_transcriptQueue : list TranscriptUpdate;
  h_sessionQueue : list SessionUpdate;
}.

Definition handling (st : State) : Handling :=
  {| h_state := st; h_transcriptQueue := []; h_sessionQueue := [] |}.

(** The branch of a final result.  [closure] is the [currentSession]
    that the handler closed over when the effect installed it.  The
    decision to merge reads [lastFinalRef] as it is while the handler
    runs; the updaters, which write [lastFinalRef] and [beginTimeRef],
    are queued. *)
Definition onFinal (closure : option CaptionSession) (now nowU : Z)
    (finalEntry : TranscriptEntry) (h : Handling) : Handling :=
  let st := setPendingInterimRef None (h_state h) in
  let st := setInterimTimerRef None st in
  if shouldMerge st finalEntry then
    {| h_state := st;
       h_transcriptQueue := h_transcriptQueue h ++ [QueuedMerge nowU finalEntry];
       h_sessionQueue :=
         match closure with
         | Some _ => h_sessionQueue h ++ [QueuedSessionMerge nowU finalEntry]
         | None => h_sessionQueue h
         end |}
  else
    match closure with
    | Some currentSession =>
        let updatedSession :=
          {| s_id := s_id currentSession; s_name := s_name currentSession;
             s_startTime := s_startTime currentSession; s_endTime := now;
             s_transcript := s_transcript currentSession ++ [finalEntry];
             s_language := s_language currentSession |} in
        {| h_state := saveSession updatedSession st;
           h_transcriptQueue := h_transcriptQueue h ++ [QueuedAppend nowU finalEntry];
           h_sessionQueue := h_sessionQueue h ++ [QueuedSessionValue updatedSession] |}
    | None =>
        {| h_state := st;
           h_transcriptQueue := h_transcriptQueue h ++ [QueuedAppend nowU finalEntry];
           h_sessionQueue := h_sessionQueue h |}
    end.

(** The body of the loop of [recognition.onresult] for one slot. *)
Definition handleResult (closure : option CaptionSession) (now nowU : Z)
    (r : SpeechResult) (h : Handling) : Handling :=
  let entry := baseEntry now (h_state h) r in
  if r_isFinal r then onFinal closure now nowU entry h
  else {| h_state := onInterim now entry (h_state h);
          h_transcriptQueue := h_transcriptQueue h;
          h_sessionQueue := h_sessionQueue h |}.

(** The render that follows the handler: the queued updates of the
    [transcript] cell, and then those of the [currentSession] cell,
    which the hook declares after it. *)
Definition applyQueued (h : Handling) : State :=
  let st := foldl (fun st u => runTranscriptUpdate u st) (h_state h)
                  (h_transcriptQueue h) in
  foldl (fun st u => runSessionUpdate u st) st (h_sessionQueue h).

(** [recognition.onresult]: the slots from [event.resultIndex] on, in
    order, and the render that follows. *)
Definition onresult (closure : option CaptionSession) (now nowU : Z)
    (event : SpeechEvent) (st : State) : State :=
  applyQueued
    (foldl (fun h r => handleResult closure now nowU r h) (handling st)
           (drop (resultIndex event) (results event))).

(** A result event that brings the one slot [r]. *)
Definition onResultSlot (closure : option CaptionSession) (now nowU : Z)
    (r : SpeechResult) (st : State) : State :=
  onresult closure now nowU {| resultIndex := 0; results := [r] |} st.

(** [recognition.onstart] *)
Definition onstart (now : Z) (st : State) : State :=
  setBeginTimeRef (Some now) (setError None (setIsListening true st)).

(** [recognition.onend] *)
Definition onend (closure : option CaptionSession) (st : State) : State :=
  let st := setIsListening false st in
  match closure with
  | Some currentSession => saveSession currentSession st
  | None => st
  end.

(** [recognition.onerror]; [code] is [event.error]. *)
Definition onerror (code : string) (st : State) : State :=
  let st := setIsListening false st in
  if String.eqb code "not-allowed" then
    setError (Some "Microphone access denied. Please allow microphone permissions and ensure you are using HTTPS.") st
  else if String.eqb code "service-not-allowed" then
    setError (Some "Speech recognition service not allowed. Please ensure you are using HTTPS and have proper permissions.") st
  else if String.eqb code "no-speech" then
    setError (Some "No speech detected. Please try again.") st
  else if String.eqb code "audio-capture" then
    setError (Some "No microphone found. Please check your audio device.") st
  else if String.eqb code "network" then
    setError (Some "Network error. Please check your internet connection.") st
  else if String.eqb code "aborted" then
    setError None st
  else setError (Some ("Speech recognition error: " +:+ code)) st.

(** [window.location] *)
Record Location := {
  protocol : string;
  hostname : string;
}.

Definition isSecureContext (l : Location) : bool :=
  String.eqb (protocol l) "https:"
  || String.eqb (hostname l) "localhost"
  || String.eqb (hostname l) "127.0.0.1".

(** What the initialisation effect finds in the browser: the
    location, whether [window] has a [SpeechRecognition] constructor,
    and whether constructing the recogniser throws. *)
Record Browser := {
  b_location : Location;
  b_hasSpeechRecognition : bool;
  b_constructorThrows : bool;
}.

(** The initialisation effect, up to the installation of the
    handlers. *)
Definition initEffect (b : Browser) (st : State) : State :=
  if negb (isSecureContext (b_location b)) then
    setError (Some "Speech recognition requires HTTPS. Please use a secure connection.") st
  else if b_hasSpeechRecognition b then
    let st := setRecognitionRef false st in
    if b_constructorThrows b then
      setError (Some "Failed to initialize speech recognition service.") st
    else setRecognitionRef true st
  else
    setError (Some "Speech recognition not supported in this browser. Please use Chrome, Edge, or Safari.") st.

(** Whether the effect installed new handlers, which close over the
    [currentSession] of that render. *)
Definition installsHandlers (b : Browser) : bool :=
  isSecureContext (b_location b) && b_hasSpeechRecognition b
  && negb (b_constructorThrows b).

(** The outcome of the permission check of [startListening]. *)
Inductive PermissionCheck :=
| NoPermissionsApi
| PermissionQueryThrows
| PermissionState (state : string).

Definition permissionDenied (p : PermissionCheck) : bool :=
  match p with
  | PermissionState state => String.eqb state "denied"
  | _ => false
  end.

(** The outcome of [recognitionRef.current.start()]. *)
Inductive StartOutcome :=
| Started
| ThrowsInvalidStateError
| ThrowsOther.

(** What [startListening] reads from outside the hook: the location,
    the permission check, the outcome of [start()], the clock, the
    locale rendering of a date, and the [language] option. *)
Record StartEnv := {
  env_location : Location;
  env_permission : PermissionCheck;
  env_start : StartOutcome;
  env_now : Z;
  env_toLocaleString : Z -> string;
  env_language : string;
}.

Definition newSession (env : StartEnv) : CaptionSession := {|
  s_id := "session_" +:+ pretty (env_now env);
  s_name := "Meeting " +:+ env_toLocaleString env (env_now env);
  s_startTime := env_now env;
  s_endTime := env_now env;
  s_transcript := [];
  s_language := env_language env;
|}.

Definition startListening (env : StartEnv) (st : State) : State :=
  if negb (recognitionRef st) then
    setError (Some "Speech recognition not initialized") st
  else if isListening st then st
  else if negb (isSecureContext (env_location env)) then
    setError (Some "Speech recognition requires HTTPS. Please use a secure connection.") st
  else if permissionDenied (env_permission env) then
    setError (Some "Microphone permission denied. Please allow microphone access.") st
  else
    let st := setCurrentSession (Some (newSession env)) st in
    let st := setTranscript [] st in
    let st := setError None st in
    match env_start env with
    | Started => st
    | ThrowsInvalidStateError => setIsListening true st
    | ThrowsOther =>
        setError (Some "Failed to start speech recognition. Please check your browser settings and permissions.") st
    end.

Definition clearTranscript (st : State) : State :=
  let st := setTranscript [] st in
  match currentSession st with
  | Some currentSession =>
      let updatedSession :=
        {| s_id := s_id currentSession; s_name := s_name currentSession;
           s_startTime := s_startTime currentSession;
           s_endTime := s_endTime currentSession;
           s_transcript := []; s_language := s_language currentSession |} in
      saveSession updatedSession (setCurrentSession (Some updatedSession) st)
  | None => st
  end.

(** Modelled from the spec: [CaptionStorage.getSession] and
    [CaptionStorage.deleteSession] of [lib/captions/storage], which is
    not among the sources: the lookup and the removal of a session by
    its id. *)
Definition getSession (sessionId : string) (st : State) : option CaptionSession :=
  storage st !! sessionId.

Definition loadSession (sessionId : string) (st : State) : State :=
  match getSession sessionId st with
  | Some session =>
      setTranscript (s_transcript session) (setCurrentSession (Some session) st)
  | None => st
  end.

Definition deleteSession (sessionId : string) (st : State) : State :=
  let st' := setStorage (delete sessionId (storage st)) st in
  match currentSession st with
  | Some currentSession =>
      if String.eqb (s_id currentSession) sessionId
      then setTranscript [] (setCurrentSession None st')
      else st'
  | None => st'
  end.

(** *** The hook as a transition system

    A hook instance is its state together with the [currentSession]
    that the installed recognition handlers closed over. *)
Record Hook := {
  state : State;
  closure : option CaptionSession;
}.

Definition initialHook : Hook :=
  {| state := initialState; closure := None |}.

Inductive Event :=
| EffectRuns (b : Browser)
| StartListening (env : StartEnv)
| ClearTranscript
| OnStart (now : Z)
| OnResult (now nowU : Z) (event : SpeechEvent)
| TimerFires
| OnEnd
| OnError (code : string)
| LoadSession (sessionId : string)
| DeleteSession (sessionId : string).

Definition step (h : Hook) (ev : Event) : Hook :=
  let st := state h in
  match ev with
  | EffectRuns b =>
      {| state := initEffect b st;
         closure := if installsHandlers b then currentSession st else closure h |}
  | StartListening env =>
      {| state := startListening env st; closure := closure h |}
  | ClearTranscript => {| state := clearTranscript st; closure := closure h |}
  | OnStart now => {| state := onstart now st; closure := closure h |}
  | OnResult now nowU event =>
      {| state := onresult (closure h) now nowU event st; closure := closure h |}
  | TimerFires =>
      {| state := match interimTimerRef st with
                  | Some _ => interimTimerCallback st
                  | None => st
                  end;
         closure := closure h |}
  | OnEnd => {| state := onend (closure h) st; closure := closure h |}
  | OnError code => {| state := onerror code st; closure := closure h |}
  | LoadSession sessionId =>
      {| state := loadSession sessionId st; closure := closure h |}
  | DeleteSession sessionId =>
      {| state := deleteSession sessionId st; closure := closure h |}
  end.

Definition run (h : Hook) (evs : list Event) : Hook := foldl step h evs.

(** An event that carries interim results only: a result event whose
    processed slots are all not final, or the firing of the timer. *)
Definition interimOnly (ev : Event) : bool :=
  match ev with
  | OnResult _ _ event =>
      forallb (fun r => negb (r_isFinal r))
              (drop (resultIndex event) (results event))
  | TimerFires => true
  | _ => false
  end.

(** An event that puts a stored session on display. *)
Definition loadsSession (ev : Event) : bool :=
  match ev with
  | LoadSession _ => true
  | _ => false
  end.

(** *** Interim results on a time line

    A run of result slots, each with its arrival time.  Before a slot
    is handled the pending timeout fires if its deadline has passed;
    [published] collects the interim entries that the firings put on
    display. *)
Definition advanceTo (t : Z) (st : State) : State * list TranscriptEntry :=
  match interimTimerRef st with
  | Some deadline =>
      if deadline <=? t
      then (interimTimerCallback st,
            match pendingInterimRef st with
            | Some interim => [interim]
            | None => []
            end)
      else (st, [])
  | None => (st, [])
  end.

Fixpoint runTimed (closure : option CaptionSession)
    (slots : list (Z * SpeechResult)) (st : State) : State * list TranscriptEntry :=
  match slots with
  | [] => (st, [])
  | (t, r) :: rest =>
      let '(st, p) := advanceTo t st in
      let st := onResultSlot closure t t r st in
      let '(st, ps) := runTimed closure rest st in
      (st, p ++ ps)
  end.

(** The run, and then the time line up to [tEnd]. *)
Definition runTimedUntil (closure : option CaptionSession) (tEnd : Z)
    (slots : list (Z * SpeechResult)) (st : State) : State * list TranscriptEntry :=
  let '(st, ps) := runTimed closure slots st in
  let '(st, p) := advanceTo tEnd st in
  (st, ps ++ p).

(** The most recent final entry of a sequence. *)
Definition lastFinal (l : list TranscriptEntry) : option TranscriptEntry :=
  last (List.filter isFinal l).

(** At most one entry that is not final, and only at the tail. *)
Definition interimOnlyAtTail (l : list TranscriptEntry) : bool :=
  forallb isFinal (removelast l).

End Captions.

(** ** hooks/useNimCaptions.ts *)

Module NimCaptions.

Import Captions.

Inductive ProcessingStatus := pending | processing | enhanced | error.

(** [EnhancedTranscriptEntry] of [lib/captions/nvidia-types.ts]: the
    fields of the [TranscriptEntry] it extends are those of [entry]. *)
Record EnhancedTranscriptEntry := {
  entry : TranscriptEntry;
  enhancedText : option string;
  nimConfidence : option float;
  processingStatus : ProcessingStatus;
  originalText : string;
}.

Record NimCaptionSettings := {
  enableNvidiaEnhancement : bool;
  enhanceOnlyFinalCaptions : bool;
  useContextAwareness : bool;
  autoGenerateSummary : bool;
  extractActionItemsSetting : bool;
  confidenceThreshold : float;
}.

Definition defaultNimSettings : NimCaptionSettings := {|
  enableNvidiaEnhancement := true;
  enhanceOnlyFinalCaptions := true;
  useContextAwareness := true;
  autoGenerateSummary := false;
  extractActionItemsSetting := false;
  confidenceThreshold := 0.7;
|}.

(** [NimCaptionSession]: the [CaptionSession] it extends is [session],
    whose transcript is replaced by [ns_transcript]; the copy of the
    enhancement settings that it also carries is left out. *)
Record NimCaptionSession := {
  session : CaptionSession;
  ns_transcript : list EnhancedTranscriptEntry;
  summary : option string;
  actionItems : option (list string);
  nimProcessed : bool;
}.

(** The state cells ([nimSettings] to [nimProcessingQueue]) and the
    refs ([processedEntries], [contextCache]) of one [useNimCaptions]
    instance. *)
Record State := {
  nimSettings : NimCaptionSettings;
  enhancedTranscript : list EnhancedTranscriptEntry;
  currentNimSession : option NimCaptionSession;
  isProcessingNim : bool;
  nimProcessingQueue : list string;
  processedEntries : gset string;
  contextCache : list string;
}.

Definition setEnhancedTranscript (t : list EnhancedTranscriptEntry) (st : State) : State :=
  {| nimSettings := nimSettings st; enhancedTranscript := t;
     currentNimSession := currentNimSession st;
     isProcessingNim := isProcessingNim st;
     nimProcessingQueue := nimProcessingQueue st;
     processedEntries := processedEntries st; contextCache := contextCache st |}.

Definition setCurrentNimSession (s : option NimCaptionSession) (st : State) : State :=
  {| nimSettings := nimSettings st; enhancedTranscript := enhancedTranscript st;
     currentNimSession := s;
     isProcessingNim := isProcessingNim st;
     nimProcessingQueue := nimProcessingQueue st;
     processedEntries := processedEntries st; contextCache := contextCache st |}.

Definition setIsProcessingNim (b : bool) (st : State) : State :=
  {| nimSettings := nimSettings st; enhancedTranscript := enhancedTranscript st;
     currentNimSession := currentNimSession st;
     isProcessingNim := b;
     nimProcessingQueue := nimProcessingQueue st;
     processedEntries := processedEntries st; contextCache := contextCache st |}.

Definition setNimProcessingQueue (q : list string) (st : State) : State :=
  {| nimSettings := nimSettings st; enhancedTranscript := enhancedTranscript st;
     currentNimSession := currentNimSession st;
     isProcessingNim := isProcessingNim st;
     nimProcessingQueue := q;
     processedEntries := processedEntries st; contextCache := contextCache st |}.

Definition setProcessedEntries (p : gset string) (st : State) : State :=
  {| nimSettings := nimSettings st; enhancedTranscript := enhancedTranscript st;
     currentNimSession := currentNimSession st;
     isProcessingNim := isProcessingNim st;
     nimProcessingQueue := nimProcessingQueue st;
     processedEntries := p; contextCache := contextCache st |}.

Definition setContextCache (c : list string) (st : State) : State :=
  {| nimSettings := nimSettings st; enhancedTranscript := enhancedTranscript st;
     currentNimSession := currentNimSession st;
     isProcessingNim := isProcessingNim st;
     nimProcessingQueue := nimProcessingQueue st;
     processedEntries := processedEntries st; contextCache := c |}.

(** The state cells as one render saw them: what a callback made
    during that render reads from its closure. *)
Record Render := {
  r_enhancedTranscript : list EnhancedTranscriptEntry;
  r_nimSettings : NimCaptionSettings;
  r_currentNimSession : option NimCaptionSession;
  r_nimProcessingQueue : list string;
}.

Definition render (st : State) : Render := {|
  r_enhancedTranscript := enhancedTranscript st;
  r_nimSettings := nimSettings st;
  r_currentNimSession := currentNimSession st;
  r_nimProcessingQueue := nimProcessingQueue st;
|}.

(** The composite id: the timestamp in decimal, an underscore and the
    first 20 code units of the original text. *)
Definition entryIdOf (e : EnhancedTranscriptEntry) : string :=
  pretty (timestamp (entry e)) +:+ "_" +:+ Js.substring0 20 (originalText e).

Definition convertToEnhanced (e : TranscriptEntry) : EnhancedTranscriptEntry := {|
  entry := e;
  originalText := text e;
  processingStatus := pending;
  enhancedText := None;
  nimConfidence := None;
|}.

(** The outcome of [callNimApi]: the [result] of the response, or the
    error it throws (a rejected fetch, a status that is not ok, an
    [error] field in the body). *)
Inductive ApiOutcome (T : Type) :=
| Resolves (result : T)
| Rejects (message : string).
Arguments Resolves {T} result.
Arguments Rejects {T} message.

(** The body posted to [enhance-captions]. *)
Record EnhanceRequest := {
  rawText : string;
  context : string;
  previousCaptions : list string;
}.

(** The body posted to [summarize]. *)
Record SummarizeRequest := {
  transcriptText : string;
  type : string;
}.

Definition withStatus (s : ProcessingStatus) (e : EnhancedTranscriptEntry) : EnhancedTranscriptEntry :=
  {| entry := entry e; enhancedText := enhancedText e;
     nimConfidence := nimConfidence e; processingStatus := s;
     originalText := originalText e |}.

Definition setStatus (entryId : string) (s : ProcessingStatus)
    (l : list EnhancedTranscriptEntry) : list EnhancedTranscriptEntry :=
  map (fun e => if String.eqb (entryIdOf e) entryId then withStatus s e else e) l.

(** The [finally] block of [enhanceCaption]. *)
Definition enhanceCaption_finally (r : Render) (entryId : string) (st : State) : State :=
  let st :=
    setNimProcessingQueue
      (List.filter (fun id => negb (String.eqb id entryId)) (nimProcessingQueue st)) st in
  setIsProcessingNim (1 <? length (r_nimProcessingQueue r))%nat st.

(** The [catch] block of [enhanceCaption], followed by [finally]. *)
Definition enhanceCaption_catch (r : Render) (entryId : string) (st : State) : State :=
  let st := setEnhancedTranscript (setStatus entryId error (enhancedTranscript st)) st in
  enhanceCaption_finally r entryId st.

(** [enhanceCaption] up to its [await]: it has finished, or it has
    issued a request and waits for the outcome. *)
Inductive Begun :=
| Finished (st : State)
| Awaiting (req : EnhanceRequest) (st : State).

Definition meetingName (r : Render) : string :=
  match r_currentNimSession r with
  | Some s => if Js.isEmpty (s_name (session s)) then "Video meeting"
              else s_name (session s)
  | None => "Video meeting"
  end.

Definition enhanceCaption_begin (r : Render) (entryId : string) (st : State) : Begun :=
  if existsb (String.eqb entryId) (r_nimProcessingQueue r) then Finished st
  else
    let st := setNimProcessingQueue (nimProcessingQueue st ++ [entryId]) st in
    let st := setIsProcessingNim true st in
    match List.find (fun e => String.eqb (entryIdOf e) entryId) (r_enhancedTranscript r) with
    | None => Finished (enhanceCaption_catch r entryId st)
    | Some found =>
        let st := setEnhancedTranscript
                    (setStatus entryId processing (enhancedTranscript st)) st in
        let context :=
          if useContextAwareness (r_nimSettings r)
          then "Meeting context: " +:+ meetingName r else "" in
        let previousCaptions :=
          if useContextAwareness (r_nimSettings r)
          then Js.sliceLast 3 (contextCache st) else [] in
        Awaiting {| rawText := originalText found; context := context;
                    previousCaptions := previousCaptions |} st
    end.

(** [enhanceCaption] from the outcome of its request on. *)
Definition enhanceCaption_resume (r : Render) (entryId : string)
    (outcome : ApiOutcome string) (st : State) : State :=
  match outcome with
  | Resolves text =>
      let st :=
        setEnhancedTranscript
          (map (fun e =>
                  if String.eqb (entryIdOf e) entryId
                  then {| entry := entry e; enhancedText := Some text;
                          nimConfidence := Some 0.95%float;
                          processingStatus := enhanced;
                          originalText := originalText e |}
                  else e) (enhancedTranscript st)) st in
      let st :=
        if useContextAwareness (r_nimSettings r)
        then setContextCache (Js.sliceLast 10 (contextCache st ++ [text])) st
        else st in
      let st := setProcessedEntries ({[entryId]} ∪ processedEntries st) st in
      enhanceCaption_finally r entryId st
  | Rejects _ => enhanceCaption_catch r entryId st
  end.

(** The filter of the auto-enhancement effect. *)
Definition eligible (r : Render) (st : State) (e : EnhancedTranscriptEntry) : bool :=
  isFinal (entry e)
  && negb (bool_decide (entryIdOf e ∈ processedEntries st))
  && match confidence (entry e) with
     | Some c => (confidenceThreshold (r_nimSettings r) <=? c)%float
     | None => false
     end.

(** The effect that follows the original transcript: it replaces the
    enhanced transcript and starts [enhanceCaption] for the eligible
    entries.  It returns the requests that were issued, each with its
    entry id. *)
Definition autoEnhanceEffect (r : Render) (original : list TranscriptEntry)
    (st : State) : State * list (string * EnhanceRequest) :=
  let newEnhanced := map convertToEnhanced original in
  let st := setEnhancedTranscript newEnhanced st in
  if enableNvidiaEnhancement (r_nimSettings r) then
    let newFinalEntries := List.filter (eligible r st) newEnhanced in
    foldl (fun acc e =>
             let entryId := entryIdOf e in
             if enhanceOnlyFinalCaptions (r_nimSettings r) then
               match enhanceCaption_begin r entryId (fst acc) with
               | Finished st' => (st', snd acc)
               | Awaiting req st' => (st', snd acc ++ [(entryId, req)])
               end
             else acc)
          (st, []) newFinalEntries
  else (st, []).

(** [entry.enhancedText || entry.originalText] *)
Definition bestText (e : EnhancedTranscriptEntry) : string :=
  match enhancedText e with
  | Some t => if Js.isEmpty t then originalText e else t
  | None => originalText e
  end.

Definition joinedTranscript (l : list EnhancedTranscriptEntry) : string :=
  Js.join Js.newline (map bestText (List.filter (fun e => isFinal (entry e)) l)).

(** A session-level call up to its [await]: it throws, or it has
    issued a request. *)
Inductive SummaryBegun :=
| Throws (message : string)
| AwaitingSummary (req : SummarizeRequest) (st : State).

Definition generateSummary_begin (r : Render) (st : State) : SummaryBegun :=
  match r_currentNimSession r with
  | None => Throws "No transcript available for summary"
  | Some _ =>
      if (length (r_enhancedTranscript r) =? 0)%nat
      then Throws "No transcript available for summary"
      else AwaitingSummary
             {| transcriptText := joinedTranscript (r_enhancedTranscript r);
                type := "summary" |}
             (setIsProcessingNim true st)
  end.

(** [generateSummary] from the outcome on: the error it rethrows, if
    any, and the state. *)
Definition generateSummary_resume (outcome : ApiOutcome string) (st : State) : option string * State :=
  match outcome with
  | Resolves text =>
      (None,
       setIsProcessingNim false
         (setCurrentNimSession
            ((fun prev =>
                {| session := session prev; ns_transcript := ns_transcript prev;
                   summary := Some text; actionItems := actionItems prev;
                   nimProcessed := true |}) <$> currentNimSession st) st))
  | Rejects message => (Some message, setIsProcessingNim false st)
  end.

Definition extractActionItems_begin (r : Render) (st : State) : SummaryBegun :=
  match r_currentNimSession r with
  | None => Throws "No transcript available for action item extraction"
  | Some _ =>
      if (length (r_enhancedTranscript r) =? 0)%nat
      then Throws "No transcript available for action item extraction"
      else AwaitingSummary
             {| transcriptText := joinedTranscript (r_enhancedTranscript r);
                type := "action-items" |}
             (setIsProcessingNim true st)
  end.

Definition extractActionItems_resume (outcome : ApiOutcome (list string)) (st : State) : option string * State :=
  match outcome with
  | Resolves items =>
      (None,
       setIsProcessingNim false
         (setCurrentNimSession
            ((fun prev =>
                {| session := session prev; ns_transcript := ns_transcript prev;
                   summary := summary prev; actionItems := Some items;
                   nimProcessed := true |}) <$> currentNimSession st) st))
  | Rejects message => (Some message, setIsProcessingNim false st)
  end.

End NimCaptions.

(** ** lib/nvidia-nim/sentiment.ts *)

Module Sentiment.

Inductive Overall := positive | negative | neutral.

Inductive Intensity := low | medium | high.

Record Emotions := {
  joy : float;
  sadness : float;
  anger : float;
  fear : float;
  surprise : float;
  disgust : float;
}.

Record SentimentAnalysis := {
  overall : Overall;
  confidence : float;
  emotions : Emotions;
  intensity : Intensity;
  keywords : list string;
  reasoning : string;
}.

Definition overall_eqb (a b : Overall) : bool :=
  match a, b with
  | positive, positive | negative, negative | neutral, neutral => true
  | _, _ => false
  end.

Definition overallName (o : Overall) : string :=
  match o with
  | positive => "positive"
  | negative => "negative"
  | neutral => "neutral"
  end.

(** *** createFallbackSentiment *)

Definition positiveWords : list string :=
  ["good"; "great"; "excellent"; "amazing"; "perfect"; "love"; "like"; "happy"].

Definition negativeWords : list string :=
  ["bad"; "terrible"; "awful"; "hate"; "dislike"; "angry"; "frustrated"; "sad"].

Definition positiveCount (text : string) : nat :=
  let lowerText := Js.toLowerCase text in
  length (List.filter (fun word => Js.includes lowerText word) positiveWords).

Definition negativeCount (text : string) : nat :=
  let lowerText := Js.toLowerCase text in
  length (List.filter (fun word => Js.includes lowerText word) negativeWords).

Definition createFallbackSentiment (text : string) : SentimentAnalysis :=
  let overall :=
    if (negativeCount text <? positiveCount text)%nat then positive
    else if (positiveCount text <? negativeCount text)%nat then negative
    else neutral in
  {| overall := overall;
     confidence := 0.6;
     emotions :=
       {| joy := if overall_eqb overall positive then 0.7 else 0.3;
          sadness := if overall_eqb overall negative then 0.6 else 0.2;
          anger := if overall_eqb overall negative then 0.4 else 0.1;
          fear := 0.1;
          surprise := 0.2;
          disgust := if overall_eqb overall negative then 0.3 else 0.1 |};
     intensity := medium;
     keywords := [];
     reasoning := "Fallback analysis based on keyword detection" |}%float.

(** *** Values read from the parsed response

    A value found in a numeric field of the parsed JSON.  An array or
    an object is kept as the outcome of [ToNumber] on it, [None] when
    the conversion throws. *)
Inductive JsValue :=
| JsUndefined
| JsNull
| JsBoolean (b : bool)
| JsNumber (x : float)
| JsString (s : string)
| JsObjectLike (toNumber : option float).

(** [ToBoolean] *)
Definition truthy (v : JsValue) : bool :=
  match v with
  | JsUndefined | JsNull => false
  | JsBoolean b => b
  | JsNumber x => negb (is_zero x || is_nan x)
  | JsString s => negb (Js.isEmpty s)
  | JsObjectLike _ => true
  end.

(** Whether a code unit can begin a [StrNumericLiteral]: a sign, a dot,
    a digit, or the [I] of [Infinity]. *)
Definition beginsNumeral (c : ascii) : bool :=
  let n := N_of_ascii c in
  ((n =? 43) || (n =? 45) || (n =? 46) || (48 <=? n) && (n <=? 57) || (n =? 73))%N.

(** [StringToNumber]: white space is trimmed; the empty string is 0; a
    string that cannot begin a numeral is NaN; the value of any other
    string is given by [numeral]. *)
Definition stringToNumber (numeral : string -> float) (s : string) : float :=
  match Js.trim s with
  | EmptyString => 0%float
  | String c _ as t => if beginsNumeral c then numeral t else nan
  end.

(** [ToNumber], [None] when it throws. *)
Definition toNumber (numeral : string -> float) (v : JsValue) : option float :=
  match v with
  | JsUndefined => Some nan
  | JsNull => Some 0%float
  | JsBoolean b => Some (if b then 1 else 0)%float
  | JsNumber x => Some x
  | JsString s => Some (stringToNumber numeral s)
  | JsObjectLike n => n
  end.

Definition isNegZero (x : float) : bool := is_zero x && get_sign x.
Definition isPosZero (x : float) : bool := is_zero x && negb (get_sign x).

(** [Math.min] and [Math.max] of two numbers. *)
Definition mathMin (a b : float) : float :=
  if is_nan a || is_nan b then nan
  else if isNegZero b && isPosZero a then b
  else if (b <? a)%float then b else a.

Definition mathMax (a b : float) : float :=
  if is_nan a || is_nan b then nan
  else if isPosZero b && isNegZero a then b
  else if (a <? b)%float then b else a.

(** [Math.max(0, Math.min(1, v || d))], [None] when [ToNumber] throws. *)
Definition clampOr (numeral : string -> float) (d : float) (v : JsValue) : option float :=
  let v := if truthy v then v else JsNumber d in
  (fun n => mathMax 0 (mathMin 1 n)) <$> toNumber numeral v.

(** The six values read through [parsed.emotions?.x]: all undefined when
    [parsed.emotions] is missing, null, or not an object. *)
Record EmotionFields := {
  f_joy : JsValue;
  f_sadness : JsValue;
  f_anger : JsValue;
  f_fear : JsValue;
  f_surprise : JsValue;
  f_disgust : JsValue;
}.

Definition noEmotionFields : EmotionFields := {|
  f_joy := JsUndefined; f_sadness := JsUndefined; f_anger := JsUndefined;
  f_fear := JsUndefined; f_surprise := JsUndefined; f_disgust := JsUndefined;
|}.

(** The object that [JSON.parse] returns.  The numeric fields are
    arbitrary values; the other fields are taken at their declared
    types, [None] when missing. *)
Record Parsed := {
  p_overall : option Overall;
  p_confidence : JsValue;
  p_emotions : EmotionFields;
  p_intensity : option Intensity;
  p_keywords : option (list string);
  p_reasoning : option string;
}.

(** What becomes of the response text in [parseSentimentResponse]. *)
Inductive ContentOutcome :=
| NoJsonMatch
| JsonSyntaxError
| JsonParsed (parsed : Parsed).

(** The body of the [try] block of [parseSentimentResponse], [None] when
    it throws. *)
Definition parseSentimentResponse_try (numeral : string -> float)
    (content : ContentOutcome) : option SentimentAnalysis :=
  match content with
  | NoJsonMatch => None
  | JsonSyntaxError => None
  | JsonParsed parsed =>
      c ← clampOr numeral 0.5 (p_confidence parsed);
      j ← clampOr numeral 0 (f_joy (p_emotions parsed));
      s ← clampOr numeral 0 (f_sadness (p_emotions parsed));
      a ← clampOr numeral 0 (f_anger (p_emotions parsed));
      f ← clampOr numeral 0 (f_fear (p_emotions parsed));
      u ← clampOr numeral 0 (f_surprise (p_emotions parsed));
      d ← clampOr numeral 0 (f_disgust (p_emotions parsed));
      Some {| overall := default neutral (p_overall parsed);
              confidence := c;
              emotions := {| joy := j; sadness := s; anger := a; fear := f;
                             surprise := u; disgust := d |};
              intensity := default low (p_intensity parsed);
              keywords := default [] (p_keywords parsed);
              reasoning :=
                match p_reasoning parsed with
                | Some r => if Js.isEmpty r then "Analysis completed" else r
                | None => "Analysis completed"
                end |}
  end.

Definition parseSentimentResponse (numeral : string -> float)
    (content : ContentOutcome) (originalText : string) : SentimentAnalysis :=
  match parseSentimentResponse_try numeral content with
  | Some analysis => analysis
  | None => createFallbackSentiment originalText
  end.

(** What becomes of the request of [analyzeSentiment]. *)
Inductive RemoteOutcome :=
| FetchRejects
| StatusNotOk (status : Z)
| BodyUnreadable
| NoContent
| Content (content : ContentOutcome).

Definition analyzeSentiment (numeral : string -> float) (text : string)
    (outcome : RemoteOutcome) : SentimentAnalysis :=
  match outcome with
  | Content content => parseSentimentResponse numeral content text
  | _ => createFallbackSentiment text
  end.

(** *** detectEmotionalShifts *)

Inductive ShiftIntensity := subtle | moderate | dramatic.

Definition shiftIntensityName (i : ShiftIntensity) : string :=
  match i with
  | subtle => "subtle"
  | moderate => "moderate"
  | dramatic => "dramatic"
  end.

Record Shift := {
  hasShift : bool;
  shiftType : Overall;
  shiftIntensity : ShiftIntensity;
  description : string;
}.

(** A length as a number. *)
Definition numberOfNat (n : nat) : float := of_uint63 (Uint63.of_Z (Z.of_nat n)).

Definition detectEmotionalShifts (currentSentiment : SentimentAnalysis)
    (previousSentiments : list SentimentAnalysis) : Shift :=
  if (length previousSentiments =? 0)%nat then
    {| hasShift := false; shiftType := neutral; shiftIntensity := subtle;
       description := "Initial sentiment baseline established" |}
  else
    let recentSentiments := Js.sliceLast 3 previousSentiments in
    let avgPreviousConfidence :=
      (foldl (fun sum s => sum + confidence s) 0 recentSentiments
       / numberOfNat (length recentSentiments))%float in
    let confidenceDiff := (confidence currentSentiment - avgPreviousConfidence)%float in
    match overall <$> recentSentiments !! (length recentSentiments - 1)%nat with
    | Some prevOverall =>
        if overall_eqb prevOverall (overall currentSentiment) then
          {| hasShift := false; shiftType := neutral; shiftIntensity := subtle;
             description := "Sentiment remains consistent" |}
        else
          let shiftType :=
            if overall_eqb (overall currentSentiment) positive
               && negb (overall_eqb prevOverall positive) then positive
            else if overall_eqb (overall currentSentiment) negative
                    && negb (overall_eqb prevOverall negative) then negative
            else neutral in
          let intensity :=
            if (0.3 <? abs confidenceDiff)%float then dramatic
            else if (0.15 <? abs confidenceDiff)%float then moderate
            else subtle in
          {| hasShift := true; shiftType := shiftType; shiftIntensity := intensity;
             description :=
               "Sentiment shifted from " +:+ overallName prevOverall +:+ " to "
               +:+ overallName (overall currentSentiment) +:+ " with "
               +:+ shiftIntensityName intensity +:+ " intensity" |}
    | None =>
        {| hasShift := false; shiftType := neutral; shiftIntensity := subtle;
           description := "Sentiment remains consistent" |}
    end.

End Sentiment.

(** ** hooks/useSentimentAnalysis.ts *)

Module SentimentHook.

Import Sentiment.

Record SentimentSettings := {
  enableRealTimeAnalysis : bool;
  analysisFrequency : float;
  emotionalShiftAlerts : bool;
  confidenceThreshold : float;
  analyzeOnlyFinalTranscripts : bool;
  trackParticipantMoods : bool;
}.

Inductive ContextualMood :=
| collaborative | tense | excited | calm | confused | focused.

Record ConversationSentiment := {
  participantId : string;
  participantName : option string;
  cs_timestamp : Z;
  cs_text : string;
  sentiment : SentimentAnalysis;
  contextualMood : ContextualMood;
}.

Inductive AlertType := positive_shift | negative_shift | high_tension | mood_drop.

Inductive Severity := severity_low | severity_medium | severity_high.

Record EmotionalAlert := {
  alert_id : string;
  alert_type : AlertType;
  message : string;
  alert_timestamp : Z;
  severity : Severity;
}.

(** The state cell of the hook (without the meeting summary) and its
    refs: whether a client was made, and the sentiment history. *)
Record State := {
  currentSentiment : option SentimentAnalysis;
  conversationHistory : list ConversationSentiment;
  isAnalyzing : bool;
  error : option string;
  emotionalAlerts : list EmotionalAlert;
  sentimentClient : bool;
  sentimentHistory : list SentimentAnalysis;
}.

Definition initialState (client : bool) : State := {|
  currentSentiment := None;
  conversationHistory := [];
  isAnalyzing := false;
  error := None;
  emotionalAlerts := [];
  sentimentClient := client;
  sentimentHistory := [];
|}.

Definition intensity_is_high (i : Intensity) : bool :=
  match i with high => true | _ => false end.

Definition intensity_is_low (i : Intensity) : bool :=
  match i with low => true | _ => false end.

Definition determineContextualMood (s : SentimentAnalysis) : ContextualMood :=
  let e := emotions s in
  if (0.6 <? anger e)%float || (0.5 <? disgust e)%float then tense
  else if (0.7 <? joy e)%float && intensity_is_high (intensity s) then excited
  else if (0.5 <? fear e)%float || (0.6 <? surprise e)%float then confused
  else if overall_eqb (overall s) positive && (0.5 <? joy e)%float then collaborative
  else if overall_eqb (overall s) neutral && intensity_is_low (intensity s) then calm
  else focused.

(** [analyzeText], with the outcome of the request that
    [analyzeSentiment] makes; [now] is the clock when an alert is made.
    The optional callbacks of the hook are left out. *)
Definition analyzeText (numeral : string -> float) (settings : SentimentSettings)
    (text : string) (speaker : option string) (timestamp now : Z)
    (outcome : RemoteOutcome) (st : State) : option SentimentAnalysis * State :=
  if negb (sentimentClient st) || negb (enableRealTimeAnalysis settings) then (None, st)
  else
    let s := analyzeSentiment numeral text outcome in
    let alerts :=
      if emotionalShiftAlerts settings && (0 <? length (sentimentHistory st))%nat then
        let shiftAnalysis := detectEmotionalShifts s (sentimentHistory st) in
        if hasShift shiftAnalysis
           && negb (match shiftIntensity shiftAnalysis with subtle => true | _ => false end)
        then
          Js.sliceLast 4 (emotionalAlerts st)
          ++ [{| alert_id := "alert_" +:+ pretty now;
                 alert_type := match shiftType shiftAnalysis with
                               | positive => positive_shift
                               | _ => negative_shift
                               end;
                 message := description shiftAnalysis;
                 alert_timestamp := now;
                 severity := match shiftIntensity shiftAnalysis with
                             | dramatic => severity_high
                             | _ => severity_medium
                             end |}]
        else emotionalAlerts st
      else emotionalAlerts st in
    let conversationSentiment :=
      {| participantId := default "unknown"
                            (match speaker with
                             | Some n => if Js.isEmpty n then None else Some n
                             | None => None
                             end);
         participantName := speaker;
         cs_timestamp := timestamp;
         cs_text := text;
         sentiment := s;
         contextualMood := determineContextualMood s |} in
    (Some s,
     {| currentSentiment := Some s;
        conversationHistory :=
          Js.sliceLast 50 (conversationHistory st) ++ [conversationSentiment];
        isAnalyzing := false;
        error := None;
        emotionalAlerts := alerts;
        sentimentClient := sentimentClient st;
        sentimentHistory := Js.sliceLast 10 (sentimentHistory st) ++ [s] |}).

End SentimentHook.


(** ** Notions of the specification

    Definitions that follow the words of the specification, against
    which the code is compared, and the sample data of the examples. *)

Module Spec.

Import Sentiment.

(** The average of the last three history confidences, or of all of
    them when the history holds fewer: read from the end of the
    history, the confidences are summed in the order of the history,
    from zero, and divided by their number. *)
Definition averageRecentConfidence (history : list SentimentAnalysis) : float :=
  match List.rev history with
  | [] => (0 / 0)%float
  | [c] => ((0 + confidence c) / 1)%float
  | [c; b] => ((0 + confidence b + confidence c) / 2)%float
  | c :: b :: a :: _ =>
      ((0 + confidence a + confidence b + confidence c) / 3)%float
  end.

(** The classification of an absolute confidence difference. *)
Definition classifyDifference (d : float) : ShiftIntensity :=
  if (0.3 <? d)%float then dramatic
  else if (0.15 <? d)%float then moderate
  else subtle.

(** A sentiment result with the given overall value and confidence. *)
Definition sentimentOf (o : Overall) (c : float) : SentimentAnalysis := {|
  overall := o; confidence := c;
  emotions := {| joy := 0; sadness := 0; anger := 0; fear := 0;
                 surprise := 0; disgust := 0 |}%float;
  intensity := low; keywords := []; reasoning := "";
|}.

(** Whether a number lies in the closed unit interval. *)
Definition inUnitInterval (x : float) : bool := ((0 <=? x) && (x <=? 1))%float.

(** A parsed response whose confidence is the given value and whose
    other fields are missing. *)
Definition parsedWithConfidence (v : JsValue) : Parsed := {|
  p_overall := None;
  p_confidence := v;
  p_emotions := noEmotionFields;
  p_intensity := None;
  p_keywords := None;
  p_reasoning := None;
|}.


(** A transcript entry with the given text, time and finality, as the
    recogniser of [useCaptions] produces it with confidence 0.9. *)
Definition sampleEntry (t : string) (time : Z) (final : bool) : Captions.TranscriptEntry := {|
  Captions.text := t;
  Captions.timestamp := time;
  Captions.startTime := time;
  Captions.endTime := time;
  Captions.confidence := Some 0.9%float;
  Captions.isFinal := final;
  Captions.speaker := "User";
|}.

Definition sampleNimSession : NimCaptions.NimCaptionSession := {|
  NimCaptions.session :=
    {| Captions.s_id := "session_1"; Captions.s_name := "Meeting 1";
       Captions.s_startTime := 1; Captions.s_endTime := 1;
       Captions.s_transcript := []; Captions.s_language := "en-US" |};
  NimCaptions.ns_transcript := [];
  NimCaptions.summary := None;
  NimCaptions.actionItems := None;
  NimCaptions.nimProcessed := false;
|}.

(** A [useNimCaptions] instance with the default settings, an active
    session, the given enhanced transcript and nothing in flight. *)
Definition sampleNimState (t : list NimCaptions.EnhancedTranscriptEntry) : NimCaptions.State := {|
  NimCaptions.nimSettings := NimCaptions.defaultNimSettings;
  NimCaptions.enhancedTranscript := t;
  NimCaptions.currentNimSession := Some sampleNimSession;
  NimCaptions.isProcessingNim := false;
  NimCaptions.nimProcessingQueue := [];
  NimCaptions.processedEntries := ∅;
  NimCaptions.contextCache := [];
|}.

(** An entry that was enhanced to the given text. *)
Definition enhancedTo (t : string) (e : Captions.TranscriptEntry) : NimCaptions.EnhancedTranscriptEntry := {|
  NimCaptions.entry := e;
  NimCaptions.enhancedText := Some t;
  NimCaptions.nimConfidence := Some 0.95%float;
  NimCaptions.processingStatus := NimCaptions.enhanced;
  NimCaptions.originalText := Captions.text e;
|}.

(** A result slot with the given transcript and confidence 0.9. *)
Definition interimResult (t : string) : Captions.SpeechResult := {|
  Captions.r_transcript := t;
  Captions.r_confidence := Some 0.9%float;
  Captions.r_isFinal := false;
|}.

Definition finalResult (t : string) : Captions.SpeechResult := {|
  Captions.r_transcript := t;
  Captions.r_confidence := Some 0.9%float;
  Captions.r_isFinal := true;
|}.

(** An event that delivers one new slot. *)
Definition oneSlot (r : Captions.SpeechResult) : Captions.SpeechEvent := {|
  Captions.resultIndex := 0;
  Captions.results := [r];
|}.

(** A browser on https with a recogniser. *)
Definition secureBrowser : Captions.Browser := {|
  Captions.b_location :=
    {| Captions.protocol := "https:"; Captions.hostname := "meet.example.org" |};
  Captions.b_hasSpeechRecognition := true;
  Captions.b_constructorThrows := false;
|}.

(** What [startListening] finds at time [now] when the microphone is
    granted, with the given outcome of [start()]. *)
Definition startEnvAt (now : Z) (outcome : Captions.StartOutcome) : Captions.StartEnv := {|
  Captions.env_location := Captions.b_location secureBrowser;
  Captions.env_permission := Captions.PermissionState "granted";
  Captions.env_start := outcome;
  Captions.env_now := now;
  Captions.env_toLocaleString := fun t => pretty t;
  Captions.env_language := "en-US";
|}.

(** The entry that the last slot of a timed run buffers against the
    state [st], or [p] when the run has no slot. *)
Definition lastBuffered (st : Captions.State) (p : Captions.TranscriptEntry)
    (slots : list (Z * Captions.SpeechResult)) : Captions.TranscriptEntry :=
  foldl (fun _ slot => Captions.baseEntry (fst slot) st (snd slot)) p slots.

(** Every entry of the sequence is final. *)
Definition allFinal (l : list Captions.TranscriptEntry) : Prop :=
  Forall (fun e => Captions.isFinal e = true) l.

(** The number of words of a text: its maximal runs of code units that
    are not white space.  [inWord] tells that the previous code unit
    belongs to a word. *)
Fixpoint countWords (inWord : bool) (s : string) : nat :=
  match s with
  | EmptyString => 0
  | String c r =>
      if Js.isWhiteSpace c then countWords false r
      else ((if inWord then 0 else 1) + countWords true r)%nat
  end.

Definition wordCount (s : string) : nat := countWords false s.

(** Whether a text ends in white space; [prev] answers for the empty
    text. *)
Fixpoint endsInWhiteSpace (prev : bool) (s : string) : bool :=
  match s with
  | EmptyString => prev
  | String c r => endsInWhiteSpace (Js.isWhiteSpace c) r
  end.

(** A code unit of a text stands for the letter [k] of a keyword when
    it is [k] or the capital of [k], 32 below it. *)
Definition sameLetter (c k : ascii) : Prop :=
  c = k \/ (N_of_ascii c + 32 = N_of_ascii k)%N.

(** A piece of text spells a keyword, whatever the case of its
    letters. *)
Fixpoint spells (piece keyword : string) : Prop :=
  match piece, keyword with
  | EmptyString, EmptyString => True
  | String c piece', String k keyword' => sameLetter c k /\ spells piece' keyword'
  | _, _ => False
  end.

(** The keyword is present in the text: some piece of the text spells
    it. *)
Definition presentIn (keyword text : string) : Prop :=
  exists before piece after,
    text = before +:+ piece +:+ after /\ spells piece keyword.

(** [n] of the keywords of the list are present in the text. *)
Inductive PresentCount (text : string) : list string -> nat -> Prop :=
| present_none : PresentCount text [] 0
| present_hit (w : string) (l : list string) (n : nat) :
    presentIn w text -> PresentCount text l n -> PresentCount text (w :: l) (S n)
| present_miss (w : string) (l : list string) (n : nat) :
    ~ presentIn w text -> PresentCount text l n -> PresentCount text (w :: l) n.

(** Whether a keyword consists of the small letters a to z. *)
Definition smallLetter (k : ascii) : bool :=
  ((97 <=? N_of_ascii k) && (N_of_ascii k <=? 122))%N.

Fixpoint smallLetters (w : string) : bool :=
  match w with
  | EmptyString => true
  | String k r => smallLetter k && smallLetters r
  end.

(** Whether a text begins with a code unit that is not white space. *)
Definition startsWord (s : string) : bool :=
  match s with
  | EmptyString => false
  | String c _ => negb (Js.isWhiteSpace c)
  end.

(** The words of a text, in order: its maximal runs of code units that
    are not white space. *)
Fixpoint words (s : string) : list string :=
  match s with
  | EmptyString => []
  | String c r =>
      if Js.isWhiteSpace c then words r
      else if startsWord r then
             match words r with
             | w :: ws => String c w :: ws
             | [] => [String c EmptyString]
             end
           else String c EmptyString :: words r
  end.

(** Words put together with one space between neighbours. *)
Fixpoint unwords (l : list string) : string :=
  match l with
  | [] => EmptyString
  | [w] => w
  | w :: rest => w +:+ " " +:+ unwords rest
  end.

(** The merge condition in the words of the specification, for a new
    final entry [e] against a sequence [l]: a previous final entry
    exists, the new text has at most 8 characters or at most 2 words,
    and the new entry starts at most 1500 ms after the previous final
    entry ended. *)
Definition mergeCondition (l : list Captions.TranscriptEntry)
    (e : Captions.TranscriptEntry) : Prop :=
  exists last,
    Captions.lastFinal l = Some last /\
    ((String.length (Captions.text e) <= 8)%nat \/ (wordCount (Captions.text e) <= 2)%nat) /\
    Captions.startTime e - Captions.endTime last <= 1500.

(** What the operations of [useCaptions] keep true of a hook instance:
    the display has entries that are not final only at its tail, the
    buffered entry is not final, and the session, the session that the
    handlers closed over and the stored sessions hold final entries
    only. *)
Record Stable (h : Captions.Hook) : Prop := {
  stable_display :
    Captions.interimOnlyAtTail (Captions.transcript (Captions.state h)) = true;
  stable_buffer :
    forall p, Captions.pendingInterimRef (Captions.state h) = Some p ->
              Captions.isFinal p = false;
  stable_session :
    forall s, Captions.currentSession (Captions.state h) = Some s ->
              allFinal (Captions.s_transcript s);
  stable_closure :
    forall s, Captions.closure h = Some s -> allFinal (Captions.s_transcript s);
  stable_storage :
    map_Forall (fun _ s => allFinal (Captions.s_transcript s))
               (Captions.storage (Captions.state h));
}.

(** The entry that a queued update of the display brings. *)
Definition queuedEntry (u : Captions.TranscriptUpdate) : Captions.TranscriptEntry :=
  match u with
  | Captions.QueuedMerge _ e | Captions.QueuedAppend _ e => e
  end.

(** A queued update of the session brings final entries only. *)
Definition finalUpdate (u : Captions.SessionUpdate) : Prop :=
  match u with
  | Captions.QueuedSessionMerge _ e => Captions.isFinal e = true
  | Captions.QueuedSessionValue s => allFinal (Captions.s_transcript s)
  end.

(** The session and the stored sessions hold final entries only. *)
Definition Persisted (st : Captions.State) : Prop :=
  (forall s, Captions.currentSession st = Some s -> allFinal (Captions.s_transcript s)) /\
  map_Forall (fun _ s => allFinal (Captions.s_transcript s)) (Captions.storage st).

(** The last-final ref follows the display: it is the most recent
    final entry of the display whenever the display has one. *)
Definition Tracked (st : Captions.State) : Prop :=
  Captions.lastFinal (Captions.transcript st) = None \/
  Captions.lastFinalRef st = Captions.lastFinal (Captions.transcript st).

End Spec.

(** ** More string operations *)

Module JsText.

(** [s.replace(/\s+/g, rep)] for a replacement [rep] of one code
    unit. *)
Fixpoint replaceRunsFrom (rep : ascii) (inRun : bool) (s : string) : string :=
  match s with
  | EmptyString => EmptyString
  | String c r =>
      if Js.isWhiteSpace c
      then if inRun then replaceRunsFrom rep true r
           else String rep (replaceRunsFrom rep true r)
      else String c (replaceRunsFrom rep false r)
  end.

Definition replaceWhiteSpaceRuns (rep : ascii) (s : string) : string :=
  replaceRunsFrom rep false s.

(** Whether some code unit of the text is white space. *)
Fixpoint hasWhiteSpace (s : string) : bool :=
  match s with
  | EmptyString => false
  | String c r => Js.isWhiteSpace c || hasWhiteSpace r
  end.

(** Whether two neighbouring code units of the text are both white
    space. *)
Fixpoint hasWhiteSpacePair (s : string) : bool :=
  match s with
  | EmptyString => false
  | String c r =>
      match r with
      | EmptyString => false
      | String c' _ => Js.isWhiteSpace c && Js.isWhiteSpace c' || hasWhiteSpacePair r
      end
  end.

(** Whether every white space code unit of the text is a space. *)
Fixpoint onlySpaces (s : string) : bool :=
  match s with
  | EmptyString => true
  | String c r => (negb (Js.isWhiteSpace c) || Ascii.eqb c " ") && onlySpaces r
  end.

Definition startsWithWhiteSpace (s : string) : bool :=
  match s with
  | EmptyString => false
  | String c _ => Js.isWhiteSpace c
  end.

End JsText.

(** ** hooks/useCaptions.ts: stopping, pausing and downloading *)

Module CaptionControls.

Import Captions.

(** [stopListening]; [stopThrows] tells whether
    [recognitionRef.current.stop()] throws.  The refresh of the list of
    sessions is left out. *)
Definition stopListening (stopThrows : bool) (st : State) : State :=
  let st :=
    if recognitionRef st && isListening st
    then if stopThrows then setIsListening false st else st
    else st in
  match currentSession st with
  | Some currentSession => saveSession currentSession st
  | None => st
  end.

(** [pauseListening], for a [stop()] that returns. *)
Definition pauseListening (st : State) : State :=
  if recognitionRef st && isListening st then setIsListening false st else st.

Inductive Format := format_text | format_srt | format_webvtt.

Definition formatName (f : Format) : string :=
  match f with
  | format_text => "text"
  | format_srt => "srt"
  | format_webvtt => "webvtt"
  end.

Definition mimeOf (f : Format) : string :=
  match f with
  | format_srt => "application/x-subrip;charset=utf-8"
  | format_webvtt => "text/vtt;charset=utf-8"
  | format_text => "text/plain;charset=utf-8"
  end.

Definition extensionOf (f : Format) : string :=
  match f with
  | format_webvtt => "vtt"
  | _ => formatName f
  end.

(** The file that [downloadTranscript] hands to the browser: its name,
    the type of the blob, and the two parts of the blob, the byte order
    mark and the formatted transcript. *)
Record Download := {
  filename : string;
  mime : string;
  bom : list Z;
  content : string;
}.

(** The transcript that is exported: that of the session when it has
    entries, the display otherwise. *)
Definition effectiveTranscript (st : State) : list TranscriptEntry :=
  match currentSession st with
  | Some s => if (0 <? length (s_transcript s))%nat then s_transcript s
              else transcript st
  | None => transcript st
  end.

Definition fileStem (st : State) : string :=
  match currentSession st with
  | Some s =>
      let replaced := JsText.replaceWhiteSpaceRuns "_" (s_name s) in
      if Js.isEmpty replaced then "transcript" else replaced
  | None => "transcript"
  end.

(** [downloadTranscript], up to the blob and the file name, however the
    browser is then made to save them.  [formatTranscript] is the
    formatter of [lib/captions/formatters], which is not among the
    sources, and [toISOString] the rendering of the clock reading
    [now]. *)
Definition downloadTranscript
    (formatTranscript : list TranscriptEntry -> Format -> Z -> string)
    (toISOString : Z -> string) (now : Z) (format : Format) (st : State)
    : State * option Download :=
  let effective := effectiveTranscript st in
  match effective with
  | [] =>
      (setError (Some "Nothing to download yet. Say something or wait for a final caption.") st,
       None)
  | first :: _ =>
      let sessionStart :=
        match currentSession st with
        | Some s => s_startTime s
        | None => startTime first
        end in
      (st,
       Some {| filename := fileStem st +:+ "_" +:+ toISOString now +:+ "."
                           +:+ extensionOf format;
               mime := mimeOf format;
               bom := [239; 187; 191];
               content := formatTranscript effective format sessionStart |})
  end.

End CaptionControls.

(** ** hooks/useSpeechRecognition.ts *)

Module SpeechRecognition.

(** One slot of [event.results]. *)
Record Result := {
  r_transcript : string;
  r_isFinal : bool;
}.

Record State := {
  isListening : bool;
  isSupported : bool;
  transcript : string;
  error : option string;
}.

(** The loop of [recognition.onresult]: the final and the interim
    transcript that it accumulates. *)
Definition accumulate (slots : list Result) : string * string :=
  foldl (fun acc result =>
           if r_isFinal result
           then (fst acc +:+ r_transcript result, snd acc)
           else (fst acc, snd acc +:+ r_transcript result))
        (EmptyString, EmptyString) slots.

(** [recognition.onresult]: the new state, and the arguments of the
    [onResult] callback. *)
Definition onresult (resultIndex : nat) (results : list Result) (st : State)
    : State * (string * bool) :=
  let '(finalTranscript, interimTranscript) := accumulate (drop resultIndex results) in
  let currentTranscript :=
    if Js.isEmpty finalTranscript then interimTranscript else finalTranscript in
  ({| isListening := isListening st; isSupported := isSupported st;
      transcript := currentTranscript; error := error st |},
   (currentTranscript, negb (Js.isEmpty finalTranscript))).

End SpeechRecognition.

(** ** hooks/useNimCaptions.ts: the session effect *)

Module NimEffects.

Import Captions NimCaptions.

(** The effect that follows the session of [useCaptions]: [original] is
    that session, and the enhanced transcript is the one of the
    render. *)
Definition syncSessionEffect (original : option CaptionSession) (r : Render)
    (st : State) : State :=
  match original with
  | Some s =>
      setCurrentNimSession
        (Some {| session := s; ns_transcript := r_enhancedTranscript r;
                 summary := None; actionItems := None; nimProcessed := false |}) st
  | None => setCurrentNimSession None st
  end.

(** Successive completions of [enhanceCaption], each with the id of its
    entry and its outcome, all started from the render [r]. *)
Definition completeAll (r : Render) (done : list (string * ApiOutcome string))
    (st : State) : State :=
  foldl (fun st d => enhanceCaption_resume r (fst d) (snd d) st) st done.

(** The texts of the completions that succeeded, in order. *)
Definition resolvedTexts (done : list (string * ApiOutcome string)) : list string :=
  omap (fun d => match snd d with
                 | Resolves t => Some t
                 | Rejects _ => None
                 end) done.

End NimEffects.

(** ** The routes behind [callNimApi] *)

Module Api.

Import NimCaptions.

(** The JSON body of a response of a route: a [result], an [error], or
    a text that does not parse. *)
Inductive Body (T : Type) :=
| ResultBody (result : T)
| ErrorBody (error : string)
| Unparseable.
Arguments ResultBody {T} result.
Arguments ErrorBody {T} error.
Arguments Unparseable {T}.

Record Response (T : Type) := {
  status : Z;
  body : Body T;
}.
Arguments status {T} _.
Arguments body {T} _.

(** What [fetch] gives to [callNimApi]. *)
Inductive Fetched (T : Type) :=
| FetchFails (message : string)
| Delivered (response : Response T).
Arguments FetchFails {T} message.
Arguments Delivered {T} response.

(** [response.ok] *)
Definition ok {T} (r : Response T) : bool := (200 <=? status r) && (status r <=? 299).

(** [callNimApi] of [useNimCaptions] from the answer of [fetch] on;
    [missing] is what a body with neither field yields as
    [result.result], and [syntaxError] the message of the error of a
    body that does not parse. *)
Definition callNimApi {T} (missing : T) (syntaxError : string) (f : Fetched T) : ApiOutcome T :=
  match f with
  | FetchFails message => Rejects message
  | Delivered r =>
      if ok r then
        match body r with
        | ResultBody result => Resolves result
        | ErrorBody e => if Js.isEmpty e then Resolves missing else Rejects e
        | Unparseable => Rejects syntaxError
        end
      else
        match body r with
        | ErrorBody e =>
            if Js.isEmpty e then Rejects ("API call failed: " +:+ pretty (status r))
            else Rejects e
        | _ => Rejects ("API call failed: " +:+ pretty (status r))
        end
  end.

(** What a route finds on the server: whether the API key is
    configured, so that [createNimClient] does not throw, and the
    outcomes of the calls of the client. *)
Record Server := {
  apiKeyConfigured : bool;
  generateMeetingSummary : string -> ApiOutcome string;
  extractActionItems : string -> ApiOutcome (list string);
  enhanceCaptions : string -> string -> list string -> ApiOutcome string;
}.

(** The result of the summarize route: a summary or a list of action
    items. *)
Inductive Summarized :=
| Summary (text : string)
| ActionItems (items : list string).

(** The message about an invalid type, which names the two types in
    double quotes. *)
Definition invalidTypeMessage : string :=
  let q := String (ascii_of_N 34) EmptyString in
  "Invalid type. Use " +:+ q +:+ "summary" +:+ q +:+ " or " +:+ q
  +:+ "action-items" +:+ q.

(** [POST] of [app/api/nvidia-nim/summarize/route.ts] for a request
    that names its type; [None] is a request whose body does not
    parse. *)
Definition summarizeRoute (server : Server) (request : option SummarizeRequest)
    : Response Summarized :=
  match request with
  | None => {| status := 500;
               body := ErrorBody "Failed to process summarization request" |}
  | Some req =>
      if Js.isEmpty (transcriptText req) then
        {| status := 400; body := ErrorBody "Transcript is required" |}
      else if negb (apiKeyConfigured server) then
        {| status := 500; body := ErrorBody "Failed to process summarization request" |}
      else if String.eqb (type req) "summary" then
        match generateMeetingSummary server (transcriptText req) with
        | Resolves text => {| status := 200; body := ResultBody (Summary text) |}
        | Rejects _ =>
            {| status := 500; body := ErrorBody "Failed to process summarization request" |}
        end
      else if String.eqb (type req) "action-items" then
        match extractActionItems server (transcriptText req) with
        | Resolves items => {| status := 200; body := ResultBody (ActionItems items) |}
        | Rejects _ =>
            {| status := 500; body := ErrorBody "Failed to process summarization request" |}
        end
      else
        {| status := 400; body := ErrorBody invalidTypeMessage |}
  end.

(** [POST] of [app/api/nvidia-nim/enhance-captions/route.ts]. *)
Definition enhanceCaptionsRoute (server : Server) (request : option EnhanceRequest)
    : Response string :=
  match request with
  | None => {| status := 500; body := ErrorBody "Failed to enhance captions" |}
  | Some req =>
      if Js.isEmpty (rawText req) then
        {| status := 400; body := ErrorBody "Raw text is required" |}
      else if negb (apiKeyConfigured server) then
        {| status := 500; body := ErrorBody "Failed to enhance captions" |}
      else
        match enhanceCaptions server (rawText req) (context req) (previousCaptions req) with
        | Resolves text => {| status := 200; body := ResultBody text |}
        | Rejects _ => {| status := 500; body := ErrorBody "Failed to enhance captions" |}
        end
  end.

(** [enhanceCaption] of the hook with its request served by the route:
    the part before the [await], the route, [callNimApi], and the part
    after the [await]. *)
Definition enhanceThroughRoute (server : Server) (r : Render) (entryId : string)
    (st : State) : State :=
  match enhanceCaption_begin r entryId st with
  | Finished st' => st'
  | Awaiting req st' =>
      enhanceCaption_resume r entryId
        (callNimApi EmptyString "Unexpected token"
           (Delivered (enhanceCaptionsRoute server (Some req)))) st'
  end.

End Api.

(** ** hooks/useSentimentAnalysis.ts: the analysis queue *)

Module SentimentControls.

Import Sentiment SentimentHook.

(** One queued item. *)
Record Queued := {
  q_text : string;
  q_speaker : option string;
  q_timestamp : Z;
}.

(** The hook with the refs of its queue. *)
Record Queue := {
  hook : State;
  analysisQueue : list Queued;
  lastAnalysisTime : Z;
}.

Definition clearSentimentData (q : Queue) : Queue :=
  {| hook := {| currentSentiment := None; conversationHistory := [];
                isAnalyzing := false; error := None; emotionalAlerts := [];
                sentimentClient := sentimentClient (hook q);
                sentimentHistory := [] |};
     analysisQueue := [];
     lastAnalysisTime := lastAnalysisTime q |}.

(** What the analysis of a queued item meets: the outcome of its
    request, and the clock when it is analysed. *)
Record Meets := {
  outcomeOf : Queued -> RemoteOutcome;
  clockOf : Queued -> Z;
}.

(** The analyses of a batch, one after the other. *)
Definition analyzeBatch (numeral : string -> float) (settings : SentimentSettings)
    (meets : Meets) (batch : list Queued) (st : State) : State :=
  foldl (fun st item =>
           snd (analyzeText numeral settings (q_text item) (q_speaker item)
                            (q_timestamp item) (clockOf meets item)
                            (outcomeOf meets item) st))
        st batch.

(** [processAnalysisQueue], run to its end; [now] is the clock when it
    starts. *)
Definition processAnalysisQueue (numeral : string -> float) (settings : SentimentSettings)
    (meets : Meets) (now : Z) (q : Queue) : Queue :=
  match analysisQueue q with
  | [] => q
  | _ =>
      let batch := take 5 (analysisQueue q) in
      {| hook := analyzeBatch numeral settings meets batch (hook q);
         analysisQueue := drop 5 (analysisQueue q);
         lastAnalysisTime := now |}
  end.

(** A difference of clock readings as a number. *)
Definition numberOfZ (z : Z) : float :=
  if z <? 0 then (- of_uint63 (Uint63.of_Z (- z)))%float
  else of_uint63 (Uint63.of_Z z).

(** [queueAnalysis], with the processing it starts run to its end;
    [now] is the clock when the item is queued and [nowP] the clock
    when the processing starts. *)
Definition queueAnalysis (numeral : string -> float) (settings : SentimentSettings)
    (meets : Meets) (now nowP : Z)
    (text : string) (speaker : option string) (q : Queue) : Queue :=
  if negb (enableRealTimeAnalysis settings) then q
  else
    let timeSinceLastAnalysis :=
      (numberOfZ (now - lastAnalysisTime q) / 1000)%float in
    let q := {| hook := hook q;
                analysisQueue := analysisQueue q
                                 ++ [{| q_text := text; q_speaker := speaker;
                                        q_timestamp := now |}];
                lastAnalysisTime := lastAnalysisTime q |} in
    if (analysisFrequency settings <=? timeSinceLastAnalysis)%float
    then processAnalysisQueue numeral settings meets nowP q
    else q.

End SentimentControls.


(** ** Notions used in the further properties *)

Module Notions.

Import Captions.

(** An event that the recogniser raises, or the firing of the timeout
    that a result scheduled. *)
Definition recognitionEvent (ev : Event) : bool :=
  match ev with
  | OnStart _ | OnResult _ _ _ | TimerFires | OnEnd | OnError _ => true
  | _ => false
  end.

(** The transcripts of the slots that are final, or of those that are
    not, put together in order. *)
Definition transcriptsOf (final : bool) (slots : list SpeechRecognition.Result) : string :=
  foldr (fun r acc => SpeechRecognition.r_transcript r +:+ acc) EmptyString
        (List.filter (fun r => Bool.eqb (SpeechRecognition.r_isFinal r) final) slots).

(** A value of a numeric field that is a number, or is missing or
    null. *)
Definition numberOrMissing (v : Sentiment.JsValue) : bool :=
  match v with
  | Sentiment.JsUndefined | Sentiment.JsNull | Sentiment.JsNumber _ => true
  | _ => false
  end.

(** Whether the numeric fields of a parsed response are all numbers,
    missing or null. *)
Definition numericFields (p : Sentiment.Parsed) : bool :=
  numberOrMissing (Sentiment.p_confidence p)
  && forallb numberOrMissing
       [Sentiment.f_joy (Sentiment.p_emotions p);
        Sentiment.f_sadness (Sentiment.p_emotions p);
        Sentiment.f_anger (Sentiment.p_emotions p);
        Sentiment.f_fear (Sentiment.p_emotions p);
        Sentiment.f_surprise (Sentiment.p_emotions p);
        Sentiment.f_disgust (Sentiment.p_emotions p)].

(** The numbers of an analysed sentiment: its confidence and its six
    emotions. *)
Definition numbersOf (s : Sentiment.SentimentAnalysis) : list float :=
  [Sentiment.confidence s;
   Sentiment.joy (Sentiment.emotions s); Sentiment.sadness (Sentiment.emotions s);
   Sentiment.anger (Sentiment.emotions s); Sentiment.fear (Sentiment.emotions s);
   Sentiment.surprise (Sentiment.emotions s); Sentiment.disgust (Sentiment.emotions s)].

(** Whether a shift is reported with an intensity that is not
    subtle. *)
Definition notable (shift : Sentiment.Shift) : bool :=
  Sentiment.hasShift shift
  && negb (match Sentiment.shiftIntensity shift with
           | Sentiment.subtle => true
           | _ => false
           end).

End Notions.

(** ** Sample servers and states *)

Module Samples.

Import NimCaptions.

(** A server with an API key whose model answers every summary and
    every caption, and fails on action items. *)
Definition answeringServer : Api.Server := {|
  Api.apiKeyConfigured := true;
  Api.generateMeetingSummary := fun t => Resolves ("Summary: " +:+ t);
  Api.extractActionItems := fun _ => Rejects "NVIDIA NIM API error: 503";
  Api.enhanceCaptions := fun raw _ _ => Resolves (Js.trim raw +:+ ".");
|}.

(** A server without an API key. *)
Definition keylessServer : Api.Server := {|
  Api.apiKeyConfigured := false;
  Api.generateMeetingSummary := Api.generateMeetingSummary answeringServer;
  Api.extractActionItems := Api.extractActionItems answeringServer;
  Api.enhanceCaptions := Api.enhanceCaptions answeringServer;
|}.

(** Settings with real-time analysis and alerts switched on. *)
Definition alertingSettings : SentimentHook.SentimentSettings := {|
  SentimentHook.enableRealTimeAnalysis := true;
  SentimentHook.analysisFrequency := 5;
  SentimentHook.emotionalShiftAlerts := true;
  SentimentHook.confidenceThreshold := 0.5;
  SentimentHook.analyzeOnlyFinalTranscripts := true;
  SentimentHook.trackParticipantMoods := false;
|}.

(** Every request is rejected, so that every analysis falls back on
    the keywords; an item is analysed at the time it was queued. *)
Definition offline : SentimentControls.Meets := {|
  SentimentControls.outcomeOf := fun _ => Sentiment.FetchRejects;
  SentimentControls.clockOf := SentimentControls.q_timestamp;
|}.

(** A queued item without a speaker. *)
Definition said (t : string) (time : Z) : SentimentControls.Queued := {|
  SentimentControls.q_text := t;
  SentimentControls.q_speaker := None;
  SentimentControls.q_timestamp := time;
|}.

(** A hook with a client, nothing analysed, and the given items in
    its queue; the last analysis was at time 0. *)
Definition waiting (items : list SentimentControls.Queued) : SentimentControls.Queue := {|
  SentimentControls.hook := SentimentHook.initialState true;
  SentimentControls.analysisQueue := items;
  SentimentControls.lastAnalysisTime := 0;
|}.

End Samples.

(** * Properties *)

(** ** JavaScript helpers *)

Section JsFacts.

Context {A : Type}.

Lemma sliceLast_length (n : nat) (l : list A) :
  length (Js.sliceLast n l) = Nat.min n (length l).
Proof. unfold Js.sliceLast. rewrite length_drop. lia. Qed.

Lemma sliceLast_snoc (n : nat) (l : list A) (x : A) :
  Js.sliceLast (S n) (l ++ [x]) = Js.sliceLast n l ++ [x].
Proof.
  unfold Js.sliceLast. rewrite length_app. simpl.
  replace (length l + 1 - S n)%nat with (length l - n)%nat by lia.
  rewrite drop_app_le by lia. reflexivity.
Qed.

Lemma lookup_last_snoc (l : list A) (x : A) :
  (l ++ [x]) !! (length (l ++ [x]) - 1)%nat = Some x.
Proof.
  rewrite length_app. simpl.
  replace (length l + 1 - 1)%nat with (length l) by lia.
  apply list_lookup_middle. reflexivity.
Qed.

Lemma findIndex_None (p : A -> bool) (l : list A) :
  Js.findIndex p l = None <-> List.filter p l = [].
Proof.
  induction l as [|x l IH]; simpl; [tauto|].
  destruct (p x); [split; discriminate|].
  destruct (Js.findIndex p l); simpl; split; intros H; try discriminate.
  - apply IH in H. discriminate.
  - apply IH. reflexivity.
  - reflexivity.
Qed.

End JsFacts.

Example trim_example : Js.trim "  yes  no " = "yes  no".
Proof. reflexivity. Qed.

Example collapse_example :
  Js.trim (Js.collapseWhiteSpace ("hello " +:+ " " +:+ " big   world")) = "hello big world".
Proof. reflexivity. Qed.

Example split_examples :
  Js.splitWhiteSpace "" = [""] /\
  Js.splitWhiteSpace "one two  three" = ["one"; "two"; "three"] /\
  Js.splitWhiteSpace " a" = [""; "a"].
Proof. repeat split; reflexivity. Qed.

Example sliceLast_examples :
  Js.sliceLast 3 [1; 2; 3; 4; 5] = [3; 4; 5] /\ Js.sliceLast 3 [1; 2] = [1; 2].
Proof. split; reflexivity. Qed.

Example includes_examples :
  Js.includes (Js.toLowerCase "I LIKE it") "like" = true /\
  Js.includes "unlikely" "like" = true /\
  Js.includes "lik" "like" = false.
Proof. repeat split; reflexivity. Qed.

(** ** The fallback sentiment *)

Section FallbackSentiment.

Import Sentiment.

Lemma overall_eqb_eq (a b : Overall) : overall_eqb a b = true <-> a = b.
Proof. destruct a, b; simpl; split; congruence. Qed.

Lemma fallback_overall (text : string) :
  overall (createFallbackSentiment text) =
    if (negativeCount text <? positiveCount text)%nat then positive
    else if (positiveCount text <? negativeCount text)%nat then negative
    else neutral.
Proof. reflexivity. Qed.

Lemma string_app_assoc (a b c : string) : (a +:+ b) +:+ c = a +:+ (b +:+ c).
Proof.
  induction a as [|x r IH]; [reflexivity|].
  change ((String x r +:+ b) +:+ c) with (String x ((r +:+ b) +:+ c)).
  rewrite IH. reflexivity.
Qed.

Lemma startsWith_prefix (w : string) :
  forall s, Js.startsWith s w = true <-> exists after, s = w +:+ after.
Proof.
  induction w as [|a w IH]; intros s.
  - split; [intros _; exists s; reflexivity | intros _; destruct s; reflexivity].
  - destruct s as [|b s].
    + simpl. split; [discriminate | intros (after & H); discriminate].
    + simpl. rewrite andb_true_iff, Ascii.eqb_eq, IH. split.
      * intros (-> & after & ->). exists after. reflexivity.
      * intros (after & H).
        change (String a w +:+ after) with (String a (w +:+ after)) in H.
        injection H as -> ->. split; [reflexivity | exists after; reflexivity].
Qed.

Lemma includes_substring (s : string) :
  forall w, Js.includes s w = true <-> exists before after, s = before +:+ w +:+ after.
Proof.
  induction s as [|c s IH]; intros w.
  - change (Js.includes "" w) with (Js.startsWith "" w || false).
    rewrite orb_false_r, startsWith_prefix. split.
    + intros (after & H). exists "", after. exact H.
    + intros (before & after & H). destruct before; [|discriminate].
      exists after. exact H.
  - change (Js.includes (String c s) w)
      with (Js.startsWith (String c s) w || Js.includes s w).
    rewrite orb_true_iff, startsWith_prefix, IH. split.
    + intros [(after & H) | (before & after & H)].
      * exists "", after. exact H.
      * exists (String c before), after. rewrite H. reflexivity.
    + intros (before & after & H). destruct before as [|d before].
      * left. exists after. exact H.
      * right. exists before, after.
        change (String d before +:+ w +:+ after)
          with (String d (before +:+ w +:+ after)) in H.
        injection H as _ H. exact H.
Qed.

Lemma toLowerCase_app (a b : string) :
  Js.toLowerCase (a +:+ b) = Js.toLowerCase a +:+ Js.toLowerCase b.
Proof.
  induction a as [|c a IH]; [reflexivity|].
  change (String c a +:+ b) with (String c (a +:+ b)). simpl. rewrite IH. reflexivity.
Qed.

Lemma toLowerCase_split (x : string) :
  forall s y, Js.toLowerCase s = x +:+ y ->
  exists a b, s = a +:+ b /\ Js.toLowerCase a = x /\ Js.toLowerCase b = y.
Proof.
  induction x as [|k x IH]; intros s y H.
  - exists "", s. repeat split. exact H.
  - destruct s as [|c s]; [discriminate|].
    change (String k x +:+ y) with (String k (x +:+ y)) in H.
    simpl in H. injection H as Hk H.
    destruct (IH s y H) as (a & b & -> & Ha & Hb).
    exists (String c a), b. repeat split; [|exact Hb]. simpl. rewrite Hk, Ha. reflexivity.
Qed.

(** A code unit is lower-cased to a small letter exactly when it is
    that letter or its capital. *)
Lemma lowerChar_letter (c k : ascii) :
  Spec.smallLetter k = true -> (Js.lowerChar c = k <-> Spec.sameLetter c k).
Proof.
  unfold Spec.smallLetter, Spec.sameLetter, Js.lowerChar. intros Hk.
  apply andb_prop in Hk as [H1 H2]. apply N.leb_le in H1. apply N.leb_le in H2.
  pose proof (N_ascii_bounded c) as Hc.
  set (n := N_of_ascii c) in *.
  destruct ((65 <=? n) && (n <=? 90) || (192 <=? n) && (n <=? 222) && negb (n =? 215))%N
    eqn:E.
  - assert (Hn : (65 <= n <= 90 \/ 192 <= n <= 222)%N).
    { apply orb_prop in E as [E | E].
      - apply andb_prop in E as [E1 E2]. apply N.leb_le in E1. apply N.leb_le in E2. lia.
      - apply andb_prop in E as [E _]. apply andb_prop in E as [E1 E2].
        apply N.leb_le in E1. apply N.leb_le in E2. lia. }
    split.
    + intros H. right. rewrite <- H. rewrite N_ascii_embedding by lia. reflexivity.
    + intros [H | H].
      * subst n. rewrite H in Hn. lia.
      * rewrite H. apply ascii_N_embedding.
  - split; [intros H; left; exact H|].
    intros [H | H]; [exact H|]. exfalso.
    assert (E1 : (65 <=? n)%N = true) by (apply N.leb_le; lia).
    assert (E2 : (n <=? 90)%N = true) by (apply N.leb_le; lia).
    rewrite E1, E2 in E. discriminate.
Qed.

Lemma toLowerCase_spells (piece : string) :
  forall w, Spec.smallLetters w = true ->
  (Js.toLowerCase piece = w <-> Spec.spells piece w).
Proof.
  induction piece as [|c piece IH]; intros w Hw.
  - destruct w; simpl; split; try tauto; discriminate.
  - destruct w as [|k w]; [simpl; split; [discriminate | tauto]|].
    simpl in Hw. apply andb_prop in Hw as [Hk Hw]. simpl.
    rewrite <- (lowerChar_letter c k Hk), <- (IH w Hw). split.
    + intros [= H1 H2]. split; assumption.
    + intros [H1 H2]. rewrite H1, H2. reflexivity.
Qed.

(** The test of the code, on the lower-cased text, finds a keyword of
    small letters exactly when the keyword is present in the text. *)
Lemma includes_present (text w : string) :
  Spec.smallLetters w = true ->
  (Js.includes (Js.toLowerCase text) w = true <-> Spec.presentIn w text).
Proof.
  intros Hw. rewrite includes_substring. unfold Spec.presentIn. split.
  - intros (before & after & H).
    destruct (toLowerCase_split before text (w +:+ after) H) as (a & rest & -> & _ & Hr).
    destruct (toLowerCase_split w rest after Hr) as (piece & b & -> & Hp & _).
    exists a, piece, b. split; [reflexivity|].
    apply (toLowerCase_spells piece w Hw). exact Hp.
  - intros (before & piece & after & -> & Hs).
    apply (toLowerCase_spells piece w Hw) in Hs.
    exists (Js.toLowerCase before), (Js.toLowerCase after).
    rewrite !toLowerCase_app, Hs. reflexivity.
Qed.

Lemma presentCount_filter (text : string) (l : list string) :
  Forall (fun w => Spec.smallLetters w = true) l ->
  Spec.PresentCount text l
    (length (List.filter (fun w => Js.includes (Js.toLowerCase text) w) l)).
Proof.
  induction 1 as [|w l Hw _ IH]; [constructor|]. simpl.
  destruct (Js.includes (Js.toLowerCase text) w) eqn:E.
  - simpl. apply Spec.present_hit; [|exact IH].
    apply (includes_present text w Hw). exact E.
  - apply Spec.present_miss; [|exact IH].
    intros H. apply (includes_present text w Hw) in H. congruence.
Qed.

Lemma presentCount_unique (text : string) (l : list string) (n m : nat) :
  Spec.PresentCount text l n -> Spec.PresentCount text l m -> n = m.
Proof.
  intros Hn. revert m. induction Hn as [|w l n Hw _ IH|w l n Hw _ IH]; intros m Hm;
    inversion Hm; subst; try reflexivity; try contradiction.
  - f_equal. apply IH. assumption.
  - apply IH. assumption.
Qed.

(** C7.  The fallback sentiment is a function of the text alone.  With
    [p] the number of the eight positive-list words, and [n] the number
    of the eight negative-list words, that are present in the text,
    whatever the case of its letters, the overall value is positive
    exactly when [p] exceeds [n], negative exactly in the reverse
    case, and neutral otherwise; such numbers exist for every text.
    When exactly two positive-list words and no negative-list word are
    present, the result is positive with confidence 0.6 and emotions
    joy 0.7, sadness 0.2, anger 0.1, fear 0.1, surprise 0.2 and disgust
    0.1. *)
Theorem fallback_sentiment_by_counts (text : string) :
  let positiveList :=
    ["good"; "great"; "excellent"; "amazing"; "perfect"; "love"; "like"; "happy"] in
  let negativeList :=
    ["bad"; "terrible"; "awful"; "hate"; "dislike"; "angry"; "frustrated"; "sad"] in
  let r := createFallbackSentiment text in
  (exists p n, Spec.PresentCount text positiveList p /\
               Spec.PresentCount text negativeList n) /\
  (forall p n,
     Spec.PresentCount text positiveList p ->
     Spec.PresentCount text negativeList n ->
     (overall r = positive <-> (n < p)%nat) /\
     (overall r = negative <-> (p < n)%nat) /\
     (overall r = neutral <-> p = n) /\
     (p = 2%nat -> n = 0%nat ->
      r = {| overall := positive;
             confidence := 0.6;
             emotions := {| joy := 0.7; sadness := 0.2; anger := 0.1;
                            fear := 0.1; surprise := 0.2; disgust := 0.1 |};
             intensity := medium;
             keywords := [];
             reasoning := "Fallback analysis based on keyword detection" |}%float)).
Proof.
  intros positiveList negativeList r.
  assert (Hp : Spec.PresentCount text positiveList (positiveCount text)).
  { apply (presentCount_filter text positiveWords). repeat constructor. }
  assert (Hn : Spec.PresentCount text negativeList (negativeCount text)).
  { apply (presentCount_filter text negativeWords). repeat constructor. }
  split; [exists (positiveCount text), (negativeCount text); split; assumption|].
  intros p n Hp' Hn'.
  rewrite (presentCount_unique _ _ _ _ Hp' Hp), (presentCount_unique _ _ _ _ Hn' Hn).
  subst r. rewrite fallback_overall.
  unfold createFallbackSentiment.
  destruct (negativeCount text <? positiveCount text)%nat eqn:E1.
  - apply Nat.ltb_lt in E1. repeat split; try discriminate; try lia; try reflexivity.
  - apply Nat.ltb_ge in E1.
    destruct (positiveCount text <? negativeCount text)%nat eqn:E2.
    + apply Nat.ltb_lt in E2. repeat split; try discriminate; try lia; try reflexivity.
    + apply Nat.ltb_ge in E2. repeat split; try discriminate; try lia; try reflexivity.
Qed.

(** In "That is GOOD, the sound was Bad, really great!" the words
    good and great, and the word bad, are present. *)
Lemma fallback_sentiment_by_counts_witness :
  overall (createFallbackSentiment "That is GOOD, the sound was Bad, really great!")
    = positive /\
  createFallbackSentiment "That is GOOD, really great!" =
  {| overall := positive;
     confidence := 0.6;
     emotions := {| joy := 0.7; sadness := 0.2; anger := 0.1;
                    fear := 0.1; surprise := 0.2; disgust := 0.1 |};
     intensity := medium;
     keywords := [];
     reasoning := "Fallback analysis based on keyword detection" |}%float.
Proof.
  split.
  - destruct (fallback_sentiment_by_counts
                "That is GOOD, the sound was Bad, really great!") as (_ & H).
    destruct (H 2%nat 1%nat) as (H1 & _).
    + apply (presentCount_filter "That is GOOD, the sound was Bad, really great!"
               positiveWords). repeat constructor.
    + apply (presentCount_filter "That is GOOD, the sound was Bad, really great!"
               negativeWords). repeat constructor.
    + apply H1. lia.
  - destruct (fallback_sentiment_by_counts "That is GOOD, really great!") as (_ & H).
    destruct (H 2%nat 0%nat) as (_ & _ & _ & H4).
    + apply (presentCount_filter "That is GOOD, really great!" positiveWords).
      repeat constructor.
    + apply (presentCount_filter "That is GOOD, really great!" negativeWords).
      repeat constructor.
    + apply H4; reflexivity.
Defined.

End FallbackSentiment.

(** ** Emotional shifts *)

Section EmotionalShifts.

Import Sentiment Spec.

Lemma overall_eqb_neq (a b : Overall) : overall_eqb a b = false <-> a <> b.
Proof. destruct a, b; simpl; split; congruence. Qed.

(** The last three items of a history, as the code slices them, read
    from the reversed history. *)
Lemma recent_of_history (prev : SentimentAnalysis) (older : list SentimentAnalysis) :
  Js.sliceLast 3 (older ++ [prev]) =
  match List.rev older with
  | [] => [prev]
  | [b] => [b; prev]
  | b :: a :: _ => [a; b; prev]
  end.
Proof.
  rewrite (sliceLast_snoc 2 older prev).
  rewrite <- (rev_involutive older) at 1.
  destruct (List.rev older) as [|b [|a l]]; [reflexivity | reflexivity |].
  simpl List.rev.
  rewrite (sliceLast_snoc 1 (List.rev l ++ [a]) b), (sliceLast_snoc 0 (List.rev l) a).
  unfold Js.sliceLast at 1. rewrite Nat.sub_0_r, drop_all. reflexivity.
Qed.

(** C8.  With [prev] the most recent history item: when the current
    overall sentiment equals that of [prev], no shift is reported,
    whatever the confidences are; when they differ, a shift is reported
    and its intensity is the classification of the absolute difference
    between the current confidence and the average of the last three
    history confidences: dramatic above 0.30, moderate above 0.15,
    subtle otherwise. *)
Theorem shift_detection (cur prev : SentimentAnalysis) (older : list SentimentAnalysis) :
  let history := older ++ [prev] in
  let d := abs (confidence cur - averageRecentConfidence history)%float in
  let r := detectEmotionalShifts cur history in
  (overall cur = overall prev -> hasShift r = false) /\
  (overall cur <> overall prev ->
   hasShift r = true /\ shiftIntensity r = classifyDifference d).
Proof.
  intros history d r. subst r d. unfold detectEmotionalShifts, averageRecentConfidence.
  assert (Hlen : (length history =? 0)%nat = false).
  { apply Nat.eqb_neq. subst history. rewrite length_app. simpl. lia. }
  rewrite Hlen. subst history.
  rewrite (recent_of_history prev older), rev_app_distr. simpl List.rev. simpl app.
  destruct (List.rev older) as [|b [|a l]].
  - simpl. split.
    + intros Heq. symmetry in Heq. apply overall_eqb_eq in Heq. rewrite Heq. reflexivity.
    + intros Hne. assert (Hf : overall_eqb (overall prev) (overall cur) = false).
      { apply overall_eqb_neq. congruence. }
      rewrite Hf. simpl. split; [reflexivity|].
      unfold classifyDifference.
      destruct (0.3 <? _)%float; [reflexivity|].
      destruct (0.15 <? _)%float; reflexivity.
  - simpl. split.
    + intros Heq. symmetry in Heq. apply overall_eqb_eq in Heq. rewrite Heq. reflexivity.
    + intros Hne. assert (Hf : overall_eqb (overall prev) (overall cur) = false).
      { apply overall_eqb_neq. congruence. }
      rewrite Hf. simpl. split; [reflexivity|].
      unfold classifyDifference.
      destruct (0.3 <? _)%float; [reflexivity|].
      destruct (0.15 <? _)%float; reflexivity.
  - simpl. split.
    + intros Heq. symmetry in Heq. apply overall_eqb_eq in Heq. rewrite Heq. reflexivity.
    + intros Hne. assert (Hf : overall_eqb (overall prev) (overall cur) = false).
      { apply overall_eqb_neq. congruence. }
      rewrite Hf. simpl. split; [reflexivity|].
      unfold classifyDifference.
      destruct (0.3 <? _)%float; [reflexivity|].
      destruct (0.15 <? _)%float; reflexivity.
Qed.

(** The history has two older items of confidence 0.9 before three of
    confidence 0.5: against the last three, the confidences 0.81, 0.70
    and 0.55 differ by 0.31, 0.20 and 0.05; against the whole history,
    of average 0.66, none of them would differ by more than 0.15. *)
Lemma shift_detection_witness :
  let history := [sentimentOf neutral 0.9; sentimentOf neutral 0.9;
                  sentimentOf neutral 0.5; sentimentOf neutral 0.5;
                  sentimentOf neutral 0.5]%float in
  shiftIntensity (detectEmotionalShifts (sentimentOf positive 0.81) history) = dramatic /\
  shiftIntensity (detectEmotionalShifts (sentimentOf positive 0.70) history) = moderate /\
  shiftIntensity (detectEmotionalShifts (sentimentOf positive 0.55) history) = subtle /\
  hasShift (detectEmotionalShifts (sentimentOf neutral 0.95) history) = false.
Proof.
  pose proof (fun c o => shift_detection
    (sentimentOf o c) (sentimentOf neutral 0.5)
    [sentimentOf neutral 0.9; sentimentOf neutral 0.9;
     sentimentOf neutral 0.5; sentimentOf neutral 0.5]%float) as H.
  cbv zeta in H.
  split; [|split; [|split]].
  - apply (H 0.81%float positive). discriminate.
  - apply (H 0.70%float positive). discriminate.
  - apply (H 0.55%float positive). discriminate.
  - apply (H 0.95%float neutral). reflexivity.
Defined.

End EmotionalShifts.

(** ** The sentiment history of [analyzeText] *)

Section SentimentHistory.

Import Sentiment SentimentHook.

(** C9.  An analysis that runs keeps the last ten results of the
    history and appends the new one: the history then holds one more
    than the smaller of ten and its previous length, which is eleven
    once ten results are there. *)
Theorem history_after_analysis (numeral : string -> float)
    (settings : SentimentSettings) (text : string) (speaker : option string)
    (timestamp now : Z) (outcome : RemoteOutcome) (st : State) :
  sentimentClient st = true ->
  enableRealTimeAnalysis settings = true ->
  let st' := snd (analyzeText numeral settings text speaker timestamp now outcome st) in
  sentimentHistory st' =
    Js.sliceLast 10 (sentimentHistory st) ++ [analyzeSentiment numeral text outcome]
  /\ length (sentimentHistory st') = S (Nat.min 10 (length (sentimentHistory st))).
Proof.
  intros Hc He. unfold analyzeText. rewrite Hc, He. simpl.
  split; [reflexivity|].
  rewrite length_app, sliceLast_length. simpl. lia.
Qed.

Lemma history_after_analysis_witness :
  let settings :=
    {| enableRealTimeAnalysis := true; analysisFrequency := 5;
       emotionalShiftAlerts := true; confidenceThreshold := 0.5;
       analyzeOnlyFinalTranscripts := true; trackParticipantMoods := false |}%float in
  let full :=
    {| currentSentiment := None; conversationHistory := []; isAnalyzing := false;
       error := None; emotionalAlerts := []; sentimentClient := true;
       sentimentHistory := replicate 10 (createFallbackSentiment "fine") |} in
  length (sentimentHistory
            (snd (analyzeText (fun _ => nan) settings "good" None 0 0 FetchRejects full)))
  = 11%nat.
Proof.
  intros settings full.
  apply (history_after_analysis (fun _ => nan) settings "good" None 0 0 FetchRejects full);
    reflexivity.
Defined.

End SentimentHistory.

(** ** The range of an analysed sentiment *)

Section SentimentRange.

Import Sentiment Spec.

Lemma ltb_leb (x y : float) : (x <? y)%float = true -> (x <=? y)%float = true.
Proof.
  rewrite FloatAxioms.ltb_spec, FloatAxioms.leb_spec. unfold SpecFloat.SFltb, SpecFloat.SFleb.
  destruct (SpecFloat.SFcompare _ _) as [[]|]; congruence.
Qed.

(** The clamp of a number that is not NaN lies in the unit interval. *)
Lemma clamp_in_unit_interval (n : float) :
  is_nan n = false -> inUnitInterval (mathMax 0 (mathMin 1 n)) = true.
Proof.
  intros Hn. unfold mathMin. rewrite Hn.
  change (is_nan 1) with false. change (isPosZero 1) with false.
  rewrite andb_false_r. simpl.
  assert (Hm : forall m, is_nan m = false -> (m <=? 1)%float = true ->
                         inUnitInterval (mathMax 0 m) = true).
  { intros m Hnan Hle. unfold mathMax. rewrite Hnan.
    change (is_nan 0) with false. change (isNegZero 0) with false.
    rewrite andb_false_r. simpl.
    destruct (0 <? m)%float eqn:Hlt.
    - unfold inUnitInterval. rewrite (ltb_leb _ _ Hlt), Hle. reflexivity.
    - reflexivity. }
  destruct (n <? 1)%float eqn:Hlt.
  - apply Hm; [assumption | apply ltb_leb; assumption].
  - apply Hm; reflexivity.
Qed.

(** What the clamp yields is NaN or lies in the unit interval. *)
Lemma clampOr_nan_or_unit (numeral : string -> float) (d : float) (v : JsValue) (r : float) :
  clampOr numeral d v = Some r -> is_nan r = true \/ inUnitInterval r = true.
Proof.
  unfold clampOr. destruct (toNumber numeral _) as [n|]; simpl; [|discriminate].
  intros [= <-]. destruct (is_nan n) eqn:Hn.
  - left. unfold mathMin. rewrite Hn. rewrite orb_true_r. reflexivity.
  - right. apply clamp_in_unit_interval. assumption.
Qed.

(** A number, a missing value and null are clamped into the unit
    interval, whatever the number is. *)
Lemma clampOr_number_in_unit (numeral : string -> float) (d : float) (v : JsValue) :
  inUnitInterval d = true ->
  match v with JsUndefined | JsNull | JsNumber _ => True | _ => False end ->
  exists r, clampOr numeral d v = Some r /\ inUnitInterval r = true.
Proof.
  intros Hd Hv.
  assert (Hdn : is_nan d = false).
  { destruct (is_nan d) eqn:E; [|reflexivity].
    unfold inUnitInterval in Hd. apply andb_true_iff in Hd as [Hd _].
    rewrite FloatAxioms.leb_spec in Hd. unfold is_nan in E.
    rewrite FloatAxioms.eqb_spec in E.
    unfold SpecFloat.SFleb in Hd. unfold SpecFloat.SFeqb in E.
    change (FloatOps.Prim2SF 0) with (SpecFloat.S754_zero false) in Hd.
    destruct (FloatOps.Prim2SF d) as [s|s| |s m e]; simpl in *;
      try destruct s; simpl in *;
      rewrite ?Z.compare_refl, ?Pos.compare_refl, ?Pos.compare_cont_refl in E;
      simpl in *; discriminate. }
  destruct v as [| | |x| |]; try contradiction; unfold clampOr; simpl.
  - eexists; split; [reflexivity|]. apply clamp_in_unit_interval. assumption.
  - eexists; split; [reflexivity|]. apply clamp_in_unit_interval. assumption.
  - destruct (is_zero x || is_nan x) eqn:E; simpl.
    + eexists; split; [reflexivity|]. apply clamp_in_unit_interval. assumption.
    + eexists; split; [reflexivity|]. apply clamp_in_unit_interval.
      apply orb_false_iff in E. tauto.
Qed.

(** Every path on which the request or the parsing fails yields the
    fallback sentiment of the text. *)
Lemma analyzeSentiment_failure_is_fallback (numeral : string -> float) (text : string)
    (outcome : RemoteOutcome) :
  match outcome with
  | Content (JsonParsed _) => False
  | _ => True
  end ->
  analyzeSentiment numeral text outcome = createFallbackSentiment text.
Proof. destruct outcome as [| | | |[| |p]]; simpl; intros H; [..|contradiction]; reflexivity. Qed.

(** The confidence and the six emotions of the fallback sentiment lie
    in the unit interval. *)
Lemma fallback_in_unit_interval (text : string) :
  let r := createFallbackSentiment text in
  inUnitInterval (confidence r) = true /\
  Forall (fun x : float => inUnitInterval x = true)
         [joy (emotions r); sadness (emotions r); anger (emotions r);
          fear (emotions r); surprise (emotions r); disgust (emotions r)].
Proof.
  unfold createFallbackSentiment.
  destruct (_ <? _)%nat; [|destruct (_ <? _)%nat]; simpl;
    (split; [reflexivity | repeat constructor]).
Qed.

Lemma trimStart_nonempty (s : string) :
  Js.isEmpty (Js.trimStart s) = false -> Js.isEmpty s = false.
Proof. destruct s; [discriminate | reflexivity]. Qed.

(** A string that is not a numeral is clamped to NaN. *)
Lemma clampOr_not_a_numeral (numeral : string -> float) (d : float)
    (s : string) (c : ascii) (rest : string) :
  Js.trim s = String c rest ->
  beginsNumeral c = false ->
  clampOr numeral d (JsString s) = Some (mathMax 0 (mathMin 1 nan)).
Proof.
  intros Ht Hc.
  assert (Hs : Js.isEmpty s = false).
  { apply trimStart_nonempty. unfold Js.trim in Ht.
    destruct (Js.trimStart s); [discriminate | reflexivity]. }
  unfold clampOr. simpl truthy. rewrite Hs. simpl.
  unfold stringToNumber. rewrite Ht, Hc. reflexivity.
Qed.

(** C10.  A response whose JSON gives the confidence as a string that
    is not a numeral, such as "high", is analysed without an exception,
    but the confidence that comes back is NaN, which is not in the unit
    interval. *)
Theorem analyzeSentiment_confidence_outside_unit (numeral : string -> float)
    (text s : string) (c : ascii) (rest : string) :
  Js.trim s = String c rest ->
  beginsNumeral c = false ->
  let r := analyzeSentiment numeral text
             (Content (JsonParsed (parsedWithConfidence (JsString s)))) in
  is_nan (confidence r) = true /\ inUnitInterval (confidence r) = false.
Proof.
  intros Ht Hc.
  unfold analyzeSentiment, parseSentimentResponse, parseSentimentResponse_try.
  unfold parsedWithConfidence. cbn [p_confidence].
  rewrite (clampOr_not_a_numeral numeral _ s c rest Ht Hc).
  split; reflexivity.
Qed.

Lemma analyzeSentiment_confidence_outside_unit_witness :
  let r := analyzeSentiment (fun _ => 0%float) "good news"
             (Content (JsonParsed (parsedWithConfidence (JsString "high")))) in
  is_nan (confidence r) = true /\ inUnitInterval (confidence r) = false.
Proof.
  apply (analyzeSentiment_confidence_outside_unit _ _ "high" "h" "igh"); reflexivity.
Defined.

End SentimentRange.

(** ** Session-level requests of [useNimCaptions] *)

Section SummaryRequests.

Import Captions NimCaptions Spec.

Lemma bestText_enhanced (e : EnhancedTranscriptEntry) (t : string) :
  enhancedText e = Some t -> t <> "" -> bestText e = t.
Proof. unfold bestText. intros -> Ht. destruct t; [contradiction | reflexivity]. Qed.

Lemma bestText_original (e : EnhancedTranscriptEntry) :
  enhancedText e = None \/ enhancedText e = Some "" -> bestText e = originalText e.
Proof. unfold bestText. intros [-> | ->]; reflexivity. Qed.

(** C5, as stated, fails.  With an active session and a transcript
    that holds one interim entry and no final entry, neither call
    throws: each posts a request whose transcript is empty.  And an
    enhanced text that is present but empty is passed over for the
    original text. *)
Lemma summary_requested_without_final_entries :
  let t := [convertToEnhanced (sampleEntry "hel" 1000 false)] in
  let st := sampleNimState t in
  List.filter (fun e => isFinal (entry e)) t = [] /\
  generateSummary_begin (render st) st =
    AwaitingSummary {| transcriptText := ""; type := "summary" |}
                    (setIsProcessingNim true st) /\
  extractActionItems_begin (render st) st =
    AwaitingSummary {| transcriptText := ""; type := "action-items" |}
                    (setIsProcessingNim true st) /\
  bestText (enhancedTo "" (sampleEntry "helo" 1000 true)) = "helo".
Proof. repeat split. Qed.

(** C5, amended.  [generateSummary] and [extractActionItems] throw,
    without a request, exactly when there is no session or the enhanced
    transcript has no entry at all.  Otherwise each posts one request
    whose transcript is the best text of the final entries, in their
    order, joined by line feeds, where the best text is the enhanced
    text when it is present and not empty, and the original text
    otherwise. *)
Theorem summary_request (r : Render) (st : State) :
  let finals := List.filter (fun e => isFinal (entry e)) (r_enhancedTranscript r) in
  let payload := Js.join Js.newline (map bestText finals) in
  (r_currentNimSession r = None \/ r_enhancedTranscript r = [] ->
   generateSummary_begin r st = Throws "No transcript available for summary" /\
   extractActionItems_begin r st =
     Throws "No transcript available for action item extraction") /\
  (r_currentNimSession r <> None -> r_enhancedTranscript r <> [] ->
   generateSummary_begin r st =
     AwaitingSummary {| transcriptText := payload; type := "summary" |}
                     (setIsProcessingNim true st) /\
   extractActionItems_begin r st =
     AwaitingSummary {| transcriptText := payload; type := "action-items" |}
                     (setIsProcessingNim true st)) /\
  (forall e t, enhancedText e = Some t -> t <> "" -> bestText e = t) /\
  (forall e, enhancedText e = None \/ enhancedText e = Some "" ->
             bestText e = originalText e).
Proof.
  intros finals payload. subst payload finals.
  unfold generateSummary_begin, extractActionItems_begin, joinedTranscript.
  split; [|split; [|split]].
  - intros [H | H]; rewrite H; [split; reflexivity|].
    destruct (r_currentNimSession r); split; reflexivity.
  - intros Hs Ht. destruct (r_currentNimSession r); [|contradiction].
    destruct (r_enhancedTranscript r); [contradiction|]. split; reflexivity.
  - apply bestText_enhanced.
  - apply bestText_original.
Qed.

Lemma summary_request_witness :
  let t := [enhancedTo "Hello." (sampleEntry "hello" 1000 true);
            convertToEnhanced (sampleEntry "wor" 1500 false);
            convertToEnhanced (sampleEntry "world" 2000 true)] in
  let st := sampleNimState t in
  generateSummary_begin (render (sampleNimState [])) st =
    Throws "No transcript available for summary" /\
  generateSummary_begin (render st) st =
    AwaitingSummary
      {| transcriptText := "Hello." +:+ Js.newline +:+ "world"; type := "summary" |}
      (setIsProcessingNim true st) /\
  bestText (enhancedTo "Hello." (sampleEntry "hello" 1000 true)) = "Hello." /\
  bestText (convertToEnhanced (sampleEntry "world" 2000 true)) = "world".
Proof.
  intros t st.
  pose proof (summary_request (render (sampleNimState [])) st) as (H1 & _).
  pose proof (summary_request (render st) st) as (_ & H2 & H3 & H4).
  split; [|split; [|split]].
  - apply H1. right. reflexivity.
  - apply H2; discriminate.
  - apply H3; [reflexivity | discriminate].
  - apply H4. left. reflexivity.
Defined.

End SummaryRequests.

(** ** Failed enhancement calls *)

Section FailedEnhancement.

Import Captions NimCaptions Spec.

Lemma entryIdOf_withStatus (s : ProcessingStatus) (e : EnhancedTranscriptEntry) :
  entryIdOf (withStatus s e) = entryIdOf e.
Proof. reflexivity. Qed.

Lemma setStatus_matching (entryId : string) (s : ProcessingStatus)
    (l : list EnhancedTranscriptEntry) (e : EnhancedTranscriptEntry) :
  e ∈ setStatus entryId s l -> entryIdOf e = entryId -> processingStatus e = s.
Proof.
  unfold setStatus. intros Hin Hid.
  apply list_elem_of_fmap in Hin as (e0 & -> & _).
  destruct (String.eqb (entryIdOf e0) entryId) eqn:E; [reflexivity|].
  apply String.eqb_neq in E. contradiction.
Qed.

Lemma setStatus_other (entryId : string) (s : ProcessingStatus)
    (l : list EnhancedTranscriptEntry) (e : EnhancedTranscriptEntry) :
  e ∈ l -> entryIdOf e <> entryId -> e ∈ setStatus entryId s l.
Proof.
  unfold setStatus. intros Hin Hid.
  apply list_elem_of_fmap. exists e. split; [|assumption].
  apply String.eqb_neq in Hid. rewrite Hid. reflexivity.
Qed.

Lemma find_setStatus (entryId : string) (s : ProcessingStatus)
    (l : list EnhancedTranscriptEntry) :
  (exists e, e ∈ l /\ entryIdOf e = entryId) ->
  exists found,
    List.find (fun e => String.eqb (entryIdOf e) entryId) (setStatus entryId s l)
      = Some found.
Proof.
  intros (e & Hin & Hid).
  destruct (List.find _ (setStatus entryId s l)) as [found|] eqn:E; [eauto|].
  exfalso.
  assert (Hin' : In (withStatus s e) (setStatus entryId s l)).
  { apply list_elem_of_In. unfold setStatus. apply list_elem_of_fmap.
    exists e. split; [|assumption]. apply String.eqb_eq in Hid. rewrite Hid. reflexivity. }
  pose proof (List.find_none _ _ E _ Hin') as Hf. simpl in Hf.
  rewrite entryIdOf_withStatus in Hf. apply String.eqb_neq in Hf. contradiction.
Qed.

(** The loop of the effect only adds to the requests it has issued,
    and issues one for every entry that [enhanceCaption] finds and that
    is not in the queue of the render. *)
Lemma effect_loop_requests (r : Render) (entries : list EnhancedTranscriptEntry) :
  enhanceOnlyFinalCaptions (r_nimSettings r) = true ->
  forall acc : State * list (string * EnhanceRequest),
  let loop :=
    foldl (fun acc e =>
             let entryId := entryIdOf e in
             if enhanceOnlyFinalCaptions (r_nimSettings r) then
               match enhanceCaption_begin r entryId (fst acc) with
               | Finished st' => (st', snd acc)
               | Awaiting req st' => (st', snd acc ++ [(entryId, req)])
               end
             else acc) acc entries in
  (forall x, x ∈ snd acc -> x ∈ snd loop) /\
  (forall e found,
     e ∈ entries ->
     existsb (String.eqb (entryIdOf e)) (r_nimProcessingQueue r) = false ->
     List.find (fun x => String.eqb (entryIdOf x) (entryIdOf e)) (r_enhancedTranscript r)
       = Some found ->
     exists req, (entryIdOf e, req) ∈ snd loop).
Proof.
  intros Hon. induction entries as [|e0 entries IH]; intros acc; simpl.
  - split; [auto|]. intros e found He. inversion He.
  - rewrite Hon.
    set (acc' := match enhanceCaption_begin r (entryIdOf e0) (fst acc) with
                 | Finished st' => (st', snd acc)
                 | Awaiting req st' => (st', snd acc ++ [(entryIdOf e0, req)])
                 end).
    destruct (IH acc') as [Hmono Hall]. rewrite Hon in Hmono, Hall.
    assert (Hacc : forall x, x ∈ snd acc -> x ∈ snd acc').
    { intros x Hx. subst acc'. destruct (enhanceCaption_begin _ _ _); simpl; [assumption|].
      apply elem_of_app. left. assumption. }
    split; [intros x Hx; apply Hmono, Hacc, Hx|].
    intros e found He Hq Hfind. apply elem_of_cons in He as [-> | He].
    + assert (Hreq : exists req, (entryIdOf e0, req) ∈ snd acc').
      { subst acc'. unfold enhanceCaption_begin. rewrite Hq, Hfind. simpl.
        eexists. apply elem_of_app. right. apply list_elem_of_here. }
      destruct Hreq as (req & Hreq). exists req. apply Hmono, Hreq.
    + apply (Hall e found); assumption.
Qed.

(** C6, as stated, fails.  One final entry of confidence 0.9 is found
    by the effect, which posts a request for it.  The call fails: the
    entry is marked as an error, but its id is not in the processed
    set, and the next run of the effect posts the same request
    again. *)
Lemma failed_enhancement_is_requested_again :
  let e := sampleEntry "hello world" 1000 true in
  let id := entryIdOf (convertToEnhanced e) in
  let st0 := sampleNimState [convertToEnhanced e] in
  let first := autoEnhanceEffect (render st0) [e] st0 in
  let st1 := enhanceCaption_resume (render st0) id (Rejects "API call failed: 500") (fst first) in
  let second := autoEnhanceEffect (render st1) [e] st1 in
  id = "1000_hello world" /\
  snd first = [(id, {| rawText := "hello world";
                       context := "Meeting context: Meeting 1";
                       previousCaptions := [] |})] /\
  map processingStatus (enhancedTranscript st1) = [error] /\
  (id ∉ processedEntries st1) /\
  snd second = snd first.
Proof.
  split; [reflexivity|]. split; [reflexivity|]. split; [reflexivity|].
  split; [|reflexivity]. simpl. set_solver.
Qed.

Lemma effect_loop_off (r : Render) (entries : list EnhancedTranscriptEntry) :
  enhanceOnlyFinalCaptions (r_nimSettings r) = false ->
  forall acc : State * list (string * EnhanceRequest),
  foldl (fun acc e =>
           let entryId := entryIdOf e in
           if enhanceOnlyFinalCaptions (r_nimSettings r) then
             match enhanceCaption_begin r entryId (fst acc) with
             | Finished st' => (st', snd acc)
             | Awaiting req st' => (st', snd acc ++ [(entryId, req)])
             end
           else acc) acc entries = acc.
Proof.
  intros Hoff. rewrite Hoff.
  induction entries as [|e entries IH]; intros acc; [reflexivity|].
  simpl. apply IH.
Qed.

(** C6, amended.  When the remote call for an entry fails, every entry
    with that id is marked as an error and the other entries are kept;
    the processed set and the context cache are left as they were, so
    that the entry is as eligible for the effect as it was before.
    When enhancement is enabled and limited to final captions, the
    next run of the effect over a transcript that holds the entry,
    final and with a confidence at or above the threshold, posts a
    request for it again, unless its id was in the processed set before
    the call.  When either setting is off, the effect posts no
    request. *)
Theorem failed_enhancement (r : Render) (entryId message : string) (st : State) :
  let st' := enhanceCaption_resume r entryId (Rejects message) st in
  (forall e, e ∈ enhancedTranscript st' -> entryIdOf e = entryId ->
             processingStatus e = error) /\
  (forall e, e ∈ enhancedTranscript st -> entryIdOf e <> entryId ->
             e ∈ enhancedTranscript st') /\
  length (enhancedTranscript st') = length (enhancedTranscript st) /\
  processedEntries st' = processedEntries st /\
  contextCache st' = contextCache st /\
  (forall r' e, eligible r' st' e = eligible r' st e) /\
  (forall (original : list TranscriptEntry) (e0 : TranscriptEntry) (c : float),
     enableNvidiaEnhancement (nimSettings st) = true ->
     enhanceOnlyFinalCaptions (nimSettings st) = true ->
     (exists e, e ∈ enhancedTranscript st /\ entryIdOf e = entryId) ->
     entryId ∉ processedEntries st ->
     e0 ∈ original ->
     entryIdOf (convertToEnhanced e0) = entryId ->
     isFinal e0 = true ->
     confidence e0 = Some c ->
     (confidenceThreshold (nimSettings st) <=? c)%float = true ->
     exists req, (entryId, req) ∈ snd (autoEnhanceEffect (render st') original st')) /\
  (forall original : list TranscriptEntry,
     enableNvidiaEnhancement (nimSettings st) = false \/
     enhanceOnlyFinalCaptions (nimSettings st) = false ->
     snd (autoEnhanceEffect (render st') original st') = []).
Proof.
  simpl. split; [|split; [|split; [|split; [|split; [|split; [|split]]]]]].
  - apply setStatus_matching.
  - intros e. apply setStatus_other.
  - unfold setStatus. apply length_map.
  - reflexivity.
  - reflexivity.
  - reflexivity.
  - intros original e0 c Hen Honly Hex Hnp Hin Hid Hfin Hconf Hthr. subst entryId.
    set (entryId := entryIdOf (convertToEnhanced e0)) in *.
    unfold autoEnhanceEffect. simpl. rewrite Hen.
    match goal with
    | |- context [foldl _ ?a ?l] =>
        pose proof (effect_loop_requests
                      (render (enhanceCaption_catch r entryId st)) l Honly a) as [_ Hall]
    end.
    destruct (find_setStatus entryId error (enhancedTranscript st) Hex) as (found & Hfind).
    apply (Hall (convertToEnhanced e0) found).
    + apply list_elem_of_In, List.filter_In. split.
      * apply list_elem_of_In, list_elem_of_fmap. exists e0. split; [reflexivity | assumption].
      * unfold eligible. simpl. rewrite Hfin, Hconf, Hthr.
        rewrite bool_decide_eq_false_2; [reflexivity | exact Hnp].
    + simpl. apply not_true_is_false. intros Hq.
      apply existsb_exists in Hq as (x & Hx & Heq).
      apply List.filter_In in Hx as [_ Hx]. apply String.eqb_eq in Heq.
      fold entryId in Heq. subst x.
      rewrite String.eqb_refl in Hx. discriminate.
    + exact Hfind.
  - intros original Hoff. unfold autoEnhanceEffect. simpl.
    destruct (enableNvidiaEnhancement (nimSettings st)) eqn:Hen; [|reflexivity].
    destruct Hoff as [Hoff | Hoff]; [discriminate|].
    match goal with
    | |- snd (foldl ?f ?a ?l) = [] =>
        replace (foldl f a l) with a; [reflexivity|];
        symmetry;
        exact (effect_loop_off (render (enhanceCaption_catch r entryId st)) l Hoff a)
    end.
Qed.

Lemma failed_enhancement_witness :
  let first := sampleEntry "hello world" 1000 true in
  let e := convertToEnhanced first in
  let other := convertToEnhanced (sampleEntry "and more" 2000 true) in
  let st := sampleNimState [e; other] in
  let st' := enhanceCaption_resume (render st) "1000_hello world" (Rejects "failed") st in
  processingStatus (withStatus error e) = error /\
  other ∈ enhancedTranscript st' /\
  exists req,
    ("1000_hello world", req)
      ∈ snd (autoEnhanceEffect (render st') [first; sampleEntry "and more" 2000 true] st').
Proof.
  intros first e other st st'.
  pose proof (failed_enhancement (render st) "1000_hello world" "failed" st)
    as (H1 & H2 & _ & _ & _ & _ & H3 & _).
  split; [|split].
  - apply H1; [|reflexivity]. apply list_elem_of_here.
  - apply H2; [|discriminate]. apply list_elem_of_further, list_elem_of_here.
  - apply (H3 _ first 0.9%float); try reflexivity.
    + exists e. split; [apply list_elem_of_here | reflexivity].
    + simpl. set_solver.
    + apply list_elem_of_here.
Defined.

End FailedEnhancement.

(** ** Starting a session *)

Section StartListening.

Import Captions Spec.

(** C4, as stated, fails.  A session runs, a final and then an interim
    result arrive, recognition ends and the user starts again within
    the 120 ms of the timeout: the new session is made and the live
    view is cleared, but the last-final ref, the interim buffer and the
    timer are as they were.  And when [start()] throws, the new session
    stays in place. *)
Lemma startListening_keeps_stabilizer_state :
  let h := run initialHook
             [EffectRuns secureBrowser;
              StartListening (startEnvAt 1000 Started);
              OnStart 1001;
              OnResult 1100 1100 (oneSlot (finalResult "hello"));
              OnResult 1200 1200 (oneSlot (interimResult "wor"));
              OnEnd;
              StartListening (startEnvAt 1250 Started)] in
  let failed := startListening (startEnvAt 1000 ThrowsOther)
                  (initEffect secureBrowser initialState) in
  s_id <$> currentSession (state h) = Some "session_1250" /\
  transcript (state h) = [] /\
  text <$> lastFinalRef (state h) = Some "hello" /\
  text <$> pendingInterimRef (state h) = Some "wor" /\
  interimTimerRef (state h) = Some 1320 /\
  s_id <$> currentSession failed = Some "session_1000" /\
  error failed = Some "Failed to start speech recognition. Please check your browser settings and permissions.".
Proof. repeat split. Qed.

(** C4, amended.  [startListening] fails, with an error message and
    with the active session and the live view unchanged, when no
    recogniser is held (after an initialisation without a secure
    context or without recognition capability none is held), and, when
    not yet listening, when the context is not secure or the
    permission query reports a denial.  When it gets past these checks
    it makes a new session whose id and name are derived from the
    current time and whose transcript is empty, and clears the live
    view, also when [start()] then throws; the interim buffer, the
    timer and the last-final ref are left as they were. *)
Theorem startListening_outcomes (env : StartEnv) (st : State) :
  let st' := startListening env st in
  (recognitionRef st = false \/
   isListening st = false /\
   (isSecureContext (env_location env) = false \/
    permissionDenied (env_permission env) = true) ->
   currentSession st' = currentSession st /\
   transcript st' = transcript st /\
   error st' <> None) /\
  (recognitionRef st = true -> isListening st = false ->
   isSecureContext (env_location env) = true ->
   permissionDenied (env_permission env) = false ->
   currentSession st' =
     Some {| s_id := "session_" +:+ pretty (env_now env);
             s_name := "Meeting " +:+ env_toLocaleString env (env_now env);
             s_startTime := env_now env; s_endTime := env_now env;
             s_transcript := []; s_language := env_language env |} /\
   transcript st' = [] /\
   pendingInterimRef st' = pendingInterimRef st /\
   interimTimerRef st' = interimTimerRef st /\
   lastFinalRef st' = lastFinalRef st) /\
  (forall b : Browser,
     isSecureContext (b_location b) = false \/ b_hasSpeechRecognition b = false ->
     let st0 := initEffect b initialState in
     recognitionRef st0 = false /\
     currentSession (startListening env st0) = None /\
     transcript (startListening env st0) = [] /\
     error (startListening env st0) = Some "Speech recognition not initialized").
Proof.
  unfold startListening. split; [|split].
  - intros [Hr | (Hl & [Hs | Hp])].
    + rewrite Hr. simpl. repeat split. discriminate.
    + destruct (recognitionRef st); simpl; [|repeat split; discriminate].
      rewrite Hl, Hs. simpl. repeat split. discriminate.
    + destruct (recognitionRef st); simpl; [|repeat split; discriminate].
      rewrite Hl. destruct (isSecureContext _); simpl; [|repeat split; discriminate].
      rewrite Hp. simpl. repeat split. discriminate.
  - intros Hr Hl Hs Hp. rewrite Hr, Hl, Hs, Hp. simpl.
    destruct (env_start env); repeat split.
  - intros b Hb. unfold initEffect.
    destruct Hb as [Hb | Hb]; rewrite Hb; simpl; [repeat split|].
    destruct (isSecureContext _); simpl; repeat split.
Qed.

Lemma startListening_outcomes_witness :
  let ready := initEffect secureBrowser initialState in
  let env := startEnvAt 1000 Started in
  let insecure :=
    {| b_location := {| protocol := "http:"; hostname := "meet.example.org" |};
       b_hasSpeechRecognition := true; b_constructorThrows := false |} in
  let denied :=
    {| env_location := env_location env; env_permission := PermissionState "denied";
       env_start := Started; env_now := 1000;
       env_toLocaleString := env_toLocaleString env; env_language := "en-US" |} in
  (currentSession (startListening denied ready) = None /\
   transcript (startListening denied ready) = [] /\
   error (startListening denied ready) <> None) /\
  s_id <$> currentSession (startListening env ready) = Some "session_1000" /\
  error (startListening env (initEffect insecure initialState))
    = Some "Speech recognition not initialized".
Proof.
  intros ready env insecure denied. split; [|split].
  - apply (startListening_outcomes denied ready). right. split; [reflexivity|].
    right. reflexivity.
  - pose proof (startListening_outcomes env ready) as (_ & H & _).
    destruct H as (H & _); [reflexivity..|]. rewrite H. reflexivity.
  - pose proof (startListening_outcomes env ready) as (_ & _ & H).
    apply (H insecure). left. reflexivity.
Defined.

End StartListening.

(** ** Interim results and the timeout *)

Section InterimThrottle.

Import Captions Spec.

Lemma onResultSlot_interim (closure : option CaptionSession) (now nowU : Z)
    (r : SpeechResult) (st : State) :
  r_isFinal r = false ->
  onResultSlot closure now nowU r st = onInterim now (baseEntry now st r) st.
Proof.
  intros Hr. unfold onResultSlot, onresult, applyQueued, handleResult. simpl.
  rewrite Hr. reflexivity.
Qed.

(** An interim result that finds a timeout pending replaces the
    buffered entry and nothing else. *)
Lemma onInterim_pending (now d : Z) (e : TranscriptEntry) (st : State) :
  interimTimerRef st = Some d ->
  onInterim now e st = setPendingInterimRef (Some e) st.
Proof. unfold onInterim. simpl. intros ->. reflexivity. Qed.

(** An interim result that finds no timeout schedules one, 120 ms
    ahead. *)
Lemma onInterim_idle (now : Z) (e : TranscriptEntry) (st : State) :
  interimTimerRef st = None ->
  onInterim now e st =
    setInterimTimerRef (Some (now + 120)) (setPendingInterimRef (Some e) st).
Proof. unfold onInterim. simpl. intros ->. reflexivity. Qed.

Lemma last_cons_default {A} (x d : A) (l : list A) :
  List.last (x :: l) d = List.last l x.
Proof.
  revert x d. induction l as [|y l IH]; intros x d; [reflexivity|].
  change (List.last (x :: y :: l) d) with (List.last (y :: l) d).
  rewrite (IH y d), (IH y x). reflexivity.
Qed.

Lemma lastBuffered_text (st : State) (slots : list (Z * SpeechResult)) :
  forall (p : TranscriptEntry) (d : Z * SpeechResult),
  text p = Js.trim (r_transcript (snd d)) ->
  text (lastBuffered st p slots) = Js.trim (r_transcript (snd (List.last slots d))).
Proof.
  induction slots as [|[t r] slots IH]; intros p d Hp; [exact Hp|].
  rewrite last_cons_default. apply (IH (baseEntry t st r) (t, r)). reflexivity.
Qed.

(** While a timeout is pending, interim results that arrive before its
    deadline publish nothing and leave the deadline alone. *)
Lemma runTimed_before_deadline (closure : option CaptionSession) (d : Z)
    (slots : list (Z * SpeechResult)) :
  forall (st : State) (p : TranscriptEntry),
  interimTimerRef st = Some d ->
  pendingInterimRef st = Some p ->
  Forall (fun slot => r_isFinal (snd slot) = false /\ fst slot < d) slots ->
  runTimed closure slots st =
    (setPendingInterimRef (Some (lastBuffered st p slots)) st, []).
Proof.
  induction slots as [|[t r] slots IH]; intros st p Ht Hp Hall.
  - simpl. destruct st; simpl in *. subst. reflexivity.
  - apply Forall_cons in Hall as [[Hr Hlt] Hall]. simpl in Hr, Hlt.
    simpl. unfold advanceTo. rewrite Ht.
    destruct (Z.leb_spec d t); [lia|].
    rewrite onResultSlot_interim by assumption.
    rewrite (onInterim_pending _ d) by assumption.
    rewrite (IH _ (baseEntry t st r)); [|assumption|reflexivity|assumption].
    reflexivity.
Qed.

(** C3, as stated, fails.  Three interim results arrive 100 ms apart,
    each within 120 ms of the one before.  The timeout that the first
    one schedules is not moved by the second: its deadline stays at
    120.  It fires between the second and the third result, and the
    third schedules another: two updates are published, of the second
    and of the third text. *)
Lemma interim_run_publishes_twice :
  let slots := [(0, interimResult "h"); (100, interimResult "he");
                (200, interimResult "hel")] in
  interimTimerRef (fst (runTimed None (take 2 slots) initialState)) = Some 120 /\
  map text (snd (runTimedUntil None 1000 slots initialState)) = ["he"; "hel"].
Proof. split; reflexivity. Qed.

(** C3, amended.  The ref holds at most one timeout.  An interim
    result that finds none schedules one 120 ms ahead; one that finds a
    timeout pending replaces the buffered entry and leaves the deadline
    where it is.  So of a run of interim results that starts with no
    timeout pending and whose results all arrive less than 120 ms after
    the first, exactly one update is published, when the timeout has
    fired: the entry of the last result of the run, placed after the
    final entries of the display. *)
Theorem interim_run_publishes_once (closure : option CaptionSession)
    (t0 tEnd : Z) (r0 : SpeechResult) (rest : list (Z * SpeechResult)) (st : State) :
  interimTimerRef st = None ->
  r_isFinal r0 = false ->
  Forall (fun slot => r_isFinal (snd slot) = false /\ fst slot < t0 + 120) rest ->
  t0 + 120 <= tEnd ->
  let lastEntry := lastBuffered st (baseEntry t0 st r0) rest in
  let '(st', published) := runTimedUntil closure tEnd ((t0, r0) :: rest) st in
  interimTimerRef (fst (runTimed closure ((t0, r0) :: rest) st)) = Some (t0 + 120) /\
  published = [lastEntry] /\
  text lastEntry = Js.trim (r_transcript (snd (List.last rest (t0, r0)))) /\
  transcript st' = List.filter isFinal (transcript st) ++ [lastEntry] /\
  interimTimerRef st' = None.
Proof.
  intros Ht Hr0 Hrest Hend lastEntry.
  assert (E : runTimed closure ((t0, r0) :: rest) st =
              (setPendingInterimRef (Some lastEntry)
                 (setInterimTimerRef (Some (t0 + 120)) st), [])).
  { simpl runTimed. unfold advanceTo. rewrite Ht.
    rewrite onResultSlot_interim by assumption.
    rewrite onInterim_idle by assumption.
    rewrite (runTimed_before_deadline closure (t0 + 120) rest _ (baseEntry t0 st r0));
      [|reflexivity|reflexivity|assumption].
    reflexivity. }
  unfold runTimedUntil. rewrite E. unfold advanceTo. simpl.
  destruct (Z.leb_spec (t0 + 120) tEnd); [|lia].
  simpl. repeat split.
  apply lastBuffered_text. reflexivity.
Qed.

Lemma interim_run_publishes_once_witness :
  let slots := [(0, interimResult "h"); (60, interimResult "he");
                (110, interimResult "hel")] in
  map text (snd (runTimedUntil None 1000 slots initialState)) = ["hel"].
Proof.
  pose proof (interim_run_publishes_once None 0 1000 (interimResult "h")
                [(60, interimResult "he"); (110, interimResult "hel")] initialState) as H.
  cbv zeta in H.
  destruct (runTimedUntil None 1000 _ initialState) as [st' published].
  destruct H as (_ & -> & _).
  - reflexivity.
  - reflexivity.
  - repeat constructor.
  - lia.
  - reflexivity.
Defined.

End InterimThrottle.

(** ** Pieces and words of a trimmed text *)

Section Words.

Import Spec.

Lemma splitFrom_length (s : string) :
  forall (cur : string) (prevWs : bool),
  length (Js.splitFrom cur prevWs s) =
    (countWords (negb prevWs) s + (if prevWs then 0 else 1)
     + (if endsInWhiteSpace prevWs s then 1 else 0))%nat.
Proof.
  induction s as [|c r IH]; intros cur prevWs; simpl.
  - destruct prevWs; reflexivity.
  - destruct (Js.isWhiteSpace c) eqn:Hc; destruct prevWs; simpl; rewrite IH; simpl; lia.
Qed.

Lemma trimStart_head (s : string) :
  match Js.trimStart s with
  | EmptyString => True
  | String c _ => Js.isWhiteSpace c = false
  end.
Proof.
  induction s as [|c r IH]; simpl; [exact I|].
  destruct (Js.isWhiteSpace c) eqn:Hc; [exact IH | exact Hc].
Qed.

Lemma trimEnd_tail (s : string) :
  forall prev : bool,
  endsInWhiteSpace prev (Js.trimEnd s) =
    if Js.isEmpty (Js.trimEnd s) then prev else false.
Proof.
  induction s as [|c r IH]; intros prev; simpl; [reflexivity|].
  destruct (Js.isWhiteSpace c) eqn:Hc; simpl.
  - pose proof (IH true) as IHt.
    destruct (Js.isEmpty (Js.trimEnd r)); simpl; [reflexivity|].
    rewrite Hc. exact IHt.
  - pose proof (IH false) as IHf. rewrite Hc.
    destruct (Js.isEmpty (Js.trimEnd r)); exact IHf.
Qed.

Lemma trimEnd_head (s : string) :
  match s, Js.trimEnd s with
  | String c _, String c' _ => c' = c
  | _, _ => True
  end.
Proof.
  destruct s as [|c r]; simpl; [exact I|].
  destruct (Js.isWhiteSpace c && Js.isEmpty (Js.trimEnd r)); [exact I | reflexivity].
Qed.

(** A trimmed text that is not empty has as many pieces between white
    space as it has words; the empty text has one piece and no word. *)
Lemma trimmed_pieces_are_words (s : string) :
  let t := Js.trim s in
  length (Js.splitWhiteSpace t) = if Js.isEmpty t then 1%nat else wordCount t.
Proof.
  unfold Js.trim, Js.splitWhiteSpace, wordCount.
  pose proof (trimStart_head s) as Hh.
  pose proof (trimEnd_head (Js.trimStart s)) as He.
  pose proof (trimEnd_tail (Js.trimStart s) false) as Ht.
  destruct (Js.trimStart s) as [|c r]; [reflexivity|].
  destruct (Js.trimEnd (String c r)) as [|c' r']; [reflexivity|].
  subst c'. simpl in Ht. rewrite Hh in Ht.
  simpl. rewrite Hh. rewrite splitFrom_length. simpl. rewrite Ht. lia.
Qed.

Lemma trimmed_short_by_words (s : string) :
  (length (Js.splitWhiteSpace (Js.trim s)) <= 2)%nat <-> (wordCount (Js.trim s) <= 2)%nat.
Proof.
  rewrite trimmed_pieces_are_words.
  destruct (Js.trim s) as [|c r]; simpl; [|reflexivity].
  unfold wordCount. simpl. lia.
Qed.

Example word_counts :
  wordCount "" = 0%nat /\ wordCount "yes" = 1%nat /\
  wordCount "thank you" = 2%nat /\ wordCount "see  you later" = 3%nat.
Proof. repeat split. Qed.

End Words.

(** ** The display and the persisted session *)

Section Stabilizer.

Import Captions Spec.

Lemma filter_allFinal (l : list TranscriptEntry) :
  allFinal l -> List.filter isFinal l = l.
Proof.
  induction 1 as [|e l He _ IH]; simpl; [reflexivity|]. rewrite He, IH. reflexivity.
Qed.

Lemma allFinal_filter (l : list TranscriptEntry) : allFinal (List.filter isFinal l).
Proof.
  induction l as [|e l IH]; simpl; [constructor|].
  destruct (isFinal e) eqn:E; [constructor|]; assumption.
Qed.

Lemma filter_snoc_interim (l : list TranscriptEntry) (i : TranscriptEntry) :
  isFinal i = false -> List.filter isFinal (List.filter isFinal l ++ [i]) = List.filter isFinal l.
Proof.
  intros Hi. rewrite List.filter_app. simpl. rewrite Hi, app_nil_r.
  apply filter_allFinal, allFinal_filter.
Qed.

Lemma filter_snoc_final (l : list TranscriptEntry) (e : TranscriptEntry) :
  allFinal l -> isFinal e = true -> List.filter isFinal (l ++ [e]) = l ++ [e].
Proof.
  intros Hl He. apply filter_allFinal, Forall_app. split; [assumption|].
  constructor; [assumption | constructor].
Qed.

Lemma interimOnlyAtTail_snoc (l : list TranscriptEntry) (x : TranscriptEntry) :
  allFinal l -> interimOnlyAtTail (l ++ [x]) = true.
Proof.
  intros Hl. unfold interimOnlyAtTail. rewrite removelast_last.
  apply forallb_forall. intros e He. apply list_elem_of_In in He.
  revert e He. apply Forall_forall. assumption.
Qed.

Lemma interimOnlyAtTail_allFinal (l : list TranscriptEntry) :
  allFinal l -> interimOnlyAtTail l = true.
Proof.
  intros Hl. destruct (decide (l = [])) as [-> | Hne]; [reflexivity|].
  destruct (exists_last Hne) as (l' & x & ->).
  apply interimOnlyAtTail_snoc. apply Forall_app in Hl. tauto.
Qed.

Lemma lastFinal_snoc_final (l : list TranscriptEntry) (e : TranscriptEntry) :
  allFinal l -> isFinal e = true -> lastFinal (l ++ [e]) = Some e.
Proof.
  intros Hl He. unfold lastFinal. rewrite filter_snoc_final by assumption.
  apply last_snoc.
Qed.

Lemma filter_reverse (l : list TranscriptEntry) :
  List.filter isFinal (reverse l) = reverse (List.filter isFinal l).
Proof.
  induction l as [|x l IH]; [reflexivity|].
  rewrite reverse_cons, List.filter_app, IH. simpl.
  destruct (isFinal x); [rewrite reverse_cons | rewrite app_nil_r]; reflexivity.
Qed.

Lemma findIndex_reverse_None (l : list TranscriptEntry) :
  Js.findIndex isFinal (reverse l) = None <-> List.filter isFinal l = [].
Proof.
  rewrite findIndex_None, filter_reverse. split; intros H.
  - apply (f_equal reverse) in H. rewrite reverse_involutive in H. exact H.
  - rewrite H. reflexivity.
Qed.

Lemma insert_last_snoc (pre : list TranscriptEntry) (x y : TranscriptEntry) :
  <[(length (pre ++ [x]) - 1)%nat := y]> (pre ++ [x]) = pre ++ [y].
Proof.
  rewrite length_app. simpl.
  replace (length pre + 1 - 1)%nat with (length pre + 0)%nat by lia.
  rewrite insert_app_r. reflexivity.
Qed.

(** The session updates of a final result do not touch the display or
    the refs. *)
Lemma saveSession_display (s : CaptionSession) (st : State) :
  transcript (saveSession s st) = transcript st /\
  lastFinalRef (saveSession s st) = lastFinalRef st /\
  pendingInterimRef (saveSession s st) = pendingInterimRef st /\
  interimTimerRef (saveSession s st) = interimTimerRef st /\
  beginTimeRef (saveSession s st) = beginTimeRef st.
Proof. repeat split. Qed.

Lemma mergeIntoSession_display (nowU : Z) (e : TranscriptEntry) (st : State) :
  transcript (mergeIntoSession nowU e st) = transcript st /\
  lastFinalRef (mergeIntoSession nowU e st) = lastFinalRef st /\
  pendingInterimRef (mergeIntoSession nowU e st) = pendingInterimRef st /\
  interimTimerRef (mergeIntoSession nowU e st) = interimTimerRef st /\
  beginTimeRef (mergeIntoSession nowU e st) = beginTimeRef st.
Proof. unfold mergeIntoSession. destruct (currentSession st); repeat split. Qed.

(** What a queued update of the display leaves alone. *)
Lemma runTranscriptUpdate_frame (u : TranscriptUpdate) (st : State) :
  let st' := runTranscriptUpdate u st in
  pendingInterimRef st' = pendingInterimRef st /\
  interimTimerRef st' = interimTimerRef st /\
  currentSession st' = currentSession st /\
  storage st' = storage st.
Proof.
  destruct u as [nowU e | nowU e]; simpl; [|repeat split].
  unfold mergeIntoTranscript.
  destruct (Js.findIndex _ _); [|repeat split].
  destruct (_ !! _); repeat split.
Qed.

(** The display and the last-final ref after a queued update of the
    display, by the kind of the update. *)
Lemma runTranscriptUpdate_display (u : TranscriptUpdate) (st : State) :
  let st' := runTranscriptUpdate u st in
  let finals := List.filter isFinal (transcript st) in
  match u with
  | QueuedMerge nowU e =>
      beginTimeRef st' = Some nowU /\
      ((exists pre last, finals = pre ++ [last] /\
          transcript st' = pre ++ [mergeEntry nowU last e] /\
          lastFinalRef st' = Some (mergeEntry nowU last e))
       \/ (finals = [] /\ transcript st' = finals ++ [e] /\ lastFinalRef st' = Some e))
  | QueuedAppend nowU e =>
      beginTimeRef st' = Some nowU /\
      transcript st' = finals ++ [e] /\ lastFinalRef st' = Some e
  end.
Proof.
  intros st' finals. subst st'. destruct u as [nowU e | nowU e]; simpl; [|repeat split].
  unfold mergeIntoTranscript. fold finals.
  destruct (Js.findIndex isFinal (reverse (transcript st))) as [idx|] eqn:Hidx.
  - assert (Hne : finals <> []).
    { intros Hnil. apply findIndex_reverse_None in Hnil. congruence. }
    destruct (exists_last Hne) as (pre & last & Hf). rewrite Hf.
    rewrite lookup_last_snoc, insert_last_snoc. simpl.
    split; [reflexivity|]. left. exists pre, last. repeat split.
  - apply findIndex_reverse_None in Hidx. fold finals in Hidx.
    simpl. split; [reflexivity|]. right. repeat split. assumption.
Qed.

(** After a queued update that brings a final entry the display holds
    final entries only, and the last of them is the last-final ref. *)
Lemma runTranscriptUpdate_tail (u : TranscriptUpdate) (st : State) :
  isFinal (queuedEntry u) = true ->
  exists pre x,
    transcript (runTranscriptUpdate u st) = pre ++ [x] /\
    allFinal pre /\ isFinal x = true /\
    lastFinalRef (runTranscriptUpdate u st) = Some x.
Proof.
  intros He.
  pose proof (runTranscriptUpdate_display u st) as H.
  pose proof (allFinal_filter (transcript st)) as Hfin.
  destruct u as [nowU e | nowU e]; simpl in He; cbv zeta in H.
  - destruct H as (_ & [(pre & last & Hf & Ht & Hl) | (Hnil & Ht & Hl)]).
    + exists pre, (mergeEntry nowU last e). rewrite Hf in Hfin.
      apply Forall_app in Hfin as [Hpre _]. repeat split; assumption.
    + exists (List.filter isFinal (transcript st)), e. repeat split; assumption.
  - destruct H as (_ & Ht & Hl).
    exists (List.filter isFinal (transcript st)), e. repeat split; assumption.
Qed.

Lemma transcriptQueue_frame (queue : list TranscriptUpdate) :
  forall st : State,
  let st' := foldl (fun st u => runTranscriptUpdate u st) st queue in
  pendingInterimRef st' = pendingInterimRef st /\
  interimTimerRef st' = interimTimerRef st /\
  currentSession st' = currentSession st /\
  storage st' = storage st.
Proof.
  induction queue as [|u queue IH]; intros st; [repeat split|].
  simpl. destruct (IH (runTranscriptUpdate u st)) as (-> & -> & -> & ->).
  apply runTranscriptUpdate_frame.
Qed.

Lemma transcriptQueue_tail (queue : list TranscriptUpdate) (st : State) :
  Forall (fun u => isFinal (queuedEntry u) = true) queue ->
  queue <> [] ->
  let st' := foldl (fun st u => runTranscriptUpdate u st) st queue in
  exists pre x,
    transcript st' = pre ++ [x] /\ allFinal pre /\ isFinal x = true /\
    lastFinalRef st' = Some x.
Proof.
  intros Hall Hne. destruct (exists_last Hne) as (queue' & u & ->).
  rewrite foldl_app. simpl. apply runTranscriptUpdate_tail.
  apply Forall_app in Hall as [_ Hu]. inversion Hu. assumption.
Qed.

Lemma runSessionUpdate_frame (u : SessionUpdate) (st : State) :
  let st' := runSessionUpdate u st in
  transcript st' = transcript st /\
  lastFinalRef st' = lastFinalRef st /\
  pendingInterimRef st' = pendingInterimRef st /\
  interimTimerRef st' = interimTimerRef st /\
  beginTimeRef st' = beginTimeRef st.
Proof.
  destruct u as [nowU e | s]; simpl; [apply mergeIntoSession_display | repeat split].
Qed.

Lemma sessionQueue_frame (queue : list SessionUpdate) :
  forall st : State,
  let st' := foldl (fun st u => runSessionUpdate u st) st queue in
  transcript st' = transcript st /\
  lastFinalRef st' = lastFinalRef st /\
  pendingInterimRef st' = pendingInterimRef st /\
  interimTimerRef st' = interimTimerRef st /\
  beginTimeRef st' = beginTimeRef st.
Proof.
  induction queue as [|u queue IH]; intros st; [repeat split|].
  simpl. destruct (IH (runSessionUpdate u st)) as (-> & -> & -> & -> & ->).
  apply runSessionUpdate_frame.
Qed.

Lemma mergeIntoSession_persisted (nowU : Z) (e : TranscriptEntry) (st : State) :
  isFinal e = true ->
  (forall s, currentSession st = Some s -> allFinal (s_transcript s)) ->
  map_Forall (fun _ s => allFinal (s_transcript s)) (storage st) ->
  (forall s, currentSession (mergeIntoSession nowU e st) = Some s ->
             allFinal (s_transcript s)) /\
  map_Forall (fun _ s => allFinal (s_transcript s))
             (storage (mergeIntoSession nowU e st)).
Proof.
  intros He Hs Hm. unfold mergeIntoSession.
  destruct (currentSession st) as [prev|] eqn:Hc; [|rewrite Hc; split; assumption].
  specialize (Hs prev eq_refl).
  set (t := match s_transcript prev !! _ with Some _ => _ | None => _ end).
  assert (Ht : allFinal t).
  { subst t. destruct (s_transcript prev !! _) as [last|] eqn:Hl.
    - apply Forall_insert; [assumption|]. simpl.
      apply (Forall_lookup_1 _ _ _ _ Hs Hl).
    - apply Forall_app. split; [assumption|]. constructor; [assumption | constructor]. }
  simpl. split.
  - intros s [= <-]. exact Ht.
  - apply map_Forall_insert_2; assumption.
Qed.

(** The queued updates of the session keep the session, and the stored
    sessions, free of entries that are not final. *)
Lemma sessionQueue_persisted (queue : list SessionUpdate) :
  Forall finalUpdate queue ->
  forall st : State,
  Persisted st -> Persisted (foldl (fun st u => runSessionUpdate u st) st queue).
Proof.
  induction 1 as [|u queue Hu _ IH]; intros st Hp; [exact Hp|].
  simpl. apply IH. destruct Hp as [Hs Hm].
  destruct u as [nowU e | s]; simpl in *.
  - apply mergeIntoSession_persisted; assumption.
  - split; [intros s' [= <-]; exact Hu | exact Hm].
Qed.

(** What the handler writes at once while it runs over the slots: the
    display, the last-final ref, the utterance start and the session
    are as before; the store stays free of entries that are not final,
    and so do the queued updates. *)
Lemma handleResult_sync (c : option CaptionSession) (now nowU : Z)
    (r : SpeechResult) (h : Handling) :
  let h' := handleResult c now nowU r h in
  transcript (h_state h') = transcript (h_state h) /\
  lastFinalRef (h_state h') = lastFinalRef (h_state h) /\
  beginTimeRef (h_state h') = beginTimeRef (h_state h) /\
  currentSession (h_state h') = currentSession (h_state h).
Proof.
  unfold handleResult. destruct (r_isFinal r).
  - unfold onFinal. destruct (shouldMerge _ _); [repeat split|].
    destruct c; repeat split.
  - unfold onInterim. simpl. destruct (interimTimerRef (h_state h)); repeat split.
Qed.

Lemma handleResult_final (c : option CaptionSession) (now nowU : Z)
    (r : SpeechResult) (h : Handling) :
  (forall s, c = Some s -> allFinal (s_transcript s)) ->
  let h' := handleResult c now nowU r h in
  (map_Forall (fun _ s => allFinal (s_transcript s)) (storage (h_state h)) ->
   map_Forall (fun _ s => allFinal (s_transcript s)) (storage (h_state h'))) /\
  (Forall (fun u => isFinal (queuedEntry u) = true) (h_transcriptQueue h) ->
   Forall (fun u => isFinal (queuedEntry u) = true) (h_transcriptQueue h')) /\
  (Forall finalUpdate (h_sessionQueue h) -> Forall finalUpdate (h_sessionQueue h')) /\
  ((forall p, pendingInterimRef (h_state h) = Some p -> isFinal p = false) ->
   forall p, pendingInterimRef (h_state h') = Some p -> isFinal p = false).
Proof.
  intros Hc. unfold handleResult. destruct (r_isFinal r) eqn:Hr.
  - unfold onFinal. destruct (shouldMerge _ _).
    + simpl. split; [tauto|]. split.
      { intros H. apply Forall_app. split; [exact H|]. repeat constructor. exact Hr. }
      split; [|discriminate].
      destruct c; [|tauto]. intros H. apply Forall_app. split; [exact H|].
      repeat constructor. exact Hr.
    + destruct c as [cs|]; simpl.
      * assert (Ht : allFinal (s_transcript cs ++ [baseEntry now (h_state h) r])).
        { apply Forall_app. split; [apply (Hc cs eq_refl)|]. repeat constructor. exact Hr. }
        split; [intros Hm; apply map_Forall_insert_2; assumption|]. split.
        { intros H. apply Forall_app. split; [exact H|]. repeat constructor. exact Hr. }
        split; [|discriminate].
        intros H. apply Forall_app. split; [exact H|]. repeat constructor. exact Ht.
      * split; [tauto|]. split; [|split; [tauto | discriminate]].
        intros H. apply Forall_app. split; [exact H|]. repeat constructor. exact Hr.
  - simpl. split; [|split; [tauto|split; [tauto|]]].
    + unfold onInterim. simpl. destruct (interimTimerRef (h_state h)); tauto.
    + intros _ p. unfold onInterim. simpl.
      destruct (interimTimerRef (h_state h)); simpl; intros [= <-]; exact Hr.
Qed.

Lemma handleResults_sync (c : option CaptionSession) (now nowU : Z)
    (slots : list SpeechResult) :
  forall h : Handling,
  let h' := foldl (fun h r => handleResult c now nowU r h) h slots in
  transcript (h_state h') = transcript (h_state h) /\
  lastFinalRef (h_state h') = lastFinalRef (h_state h) /\
  beginTimeRef (h_state h') = beginTimeRef (h_state h) /\
  currentSession (h_state h') = currentSession (h_state h).
Proof.
  induction slots as [|r slots IH]; intros h; [repeat split|].
  simpl. destruct (IH (handleResult c now nowU r h)) as (-> & -> & -> & ->).
  apply handleResult_sync.
Qed.

Lemma handleResults_final (c : option CaptionSession) (now nowU : Z)
    (slots : list SpeechResult) :
  (forall s, c = Some s -> allFinal (s_transcript s)) ->
  forall h : Handling,
  map_Forall (fun _ s => allFinal (s_transcript s)) (storage (h_state h)) ->
  Forall (fun u => isFinal (queuedEntry u) = true) (h_transcriptQueue h) ->
  Forall finalUpdate (h_sessionQueue h) ->
  (forall p, pendingInterimRef (h_state h) = Some p -> isFinal p = false) ->
  let h' := foldl (fun h r => handleResult c now nowU r h) h slots in
  map_Forall (fun _ s => allFinal (s_transcript s)) (storage (h_state h')) /\
  Forall (fun u => isFinal (queuedEntry u) = true) (h_transcriptQueue h') /\
  Forall finalUpdate (h_sessionQueue h') /\
  (forall p, pendingInterimRef (h_state h') = Some p -> isFinal p = false).
Proof.
  intros Hc. induction slots as [|r slots IH]; intros h Hm Ht Hs Hb; [repeat split; assumption|].
  simpl. destruct (handleResult_final c now nowU r h Hc) as (H1 & H2 & H3 & H4).
  apply IH; auto.
Qed.

(** The handler queues an update of the display exactly for the final
    slots. *)
Lemma handleResults_queue (c : option CaptionSession) (now nowU : Z)
    (slots : list SpeechResult) :
  forall h : Handling,
  let h' := foldl (fun h r => handleResult c now nowU r h) h slots in
  h_transcriptQueue h' = [] <->
  h_transcriptQueue h = [] /\ forallb (fun r => negb (r_isFinal r)) slots = true.
Proof.
  induction slots as [|r slots IH]; intros h; [simpl; tauto|].
  cbv zeta. simpl foldl. simpl forallb.
  rewrite (IH (handleResult c now nowU r h)), andb_true_iff.
  assert (Hstep : h_transcriptQueue (handleResult c now nowU r h) = [] <->
                  h_transcriptQueue h = [] /\ negb (r_isFinal r) = true).
  { unfold handleResult. destruct (r_isFinal r) eqn:Hr; simpl; [|tauto].
    unfold onFinal.
    destruct (shouldMerge _ _); [|destruct c]; simpl;
      (split; [intros H; destruct (h_transcriptQueue h); discriminate
              |intros [_ H]; discriminate]). }
  rewrite Hstep. tauto.
Qed.

(** The display and the last-final ref after a result event: as before
    when no slot was final, and otherwise final entries only, the last
    of which is the last-final ref. *)
Lemma onresult_display (c : option CaptionSession) (now nowU : Z)
    (event : SpeechEvent) (st : State) :
  let st' := onresult c now nowU event st in
  (forallb (fun r => negb (r_isFinal r)) (drop (resultIndex event) (results event)) = true /\
   transcript st' = transcript st /\ lastFinalRef st' = lastFinalRef st)
  \/
  (exists pre x,
     transcript st' = pre ++ [x] /\ allFinal pre /\ isFinal x = true /\
     lastFinalRef st' = Some x).
Proof.
  intros st'. subst st'. unfold onresult, applyQueued.
  generalize (drop (resultIndex event) (results event)). intros slots.
  set (h' := foldl _ (handling st) slots).
  destruct (sessionQueue_frame (h_sessionQueue h')
              (foldl (fun st u => runTranscriptUpdate u st) (h_state h')
                     (h_transcriptQueue h'))) as (-> & -> & _).
  destruct (handleResults_sync c now nowU slots (handling st)) as (Et & El & _).
  fold h' in Et, El. simpl in Et, El.
  pose proof (handleResults_queue c now nowU slots (handling st)) as Hq.
  fold h' in Hq. simpl in Hq.
  destruct (h_transcriptQueue h') as [|u queue] eqn:Eq.
  - left. simpl. split; [apply Hq; reflexivity|]. split; assumption.
  - right. rewrite <- Eq. apply transcriptQueue_tail; [|rewrite Eq; discriminate].
    assert (G : forall slots h,
               Forall (fun u => isFinal (queuedEntry u) = true) (h_transcriptQueue h) ->
               Forall (fun u => isFinal (queuedEntry u) = true)
                      (h_transcriptQueue
                         (foldl (fun h r => handleResult c now nowU r h) h slots))).
    { clear. induction slots as [|r slots IH]; intros h Hall; [exact Hall|].
      simpl. apply IH. unfold handleResult.
      destruct (r_isFinal r) eqn:Hr; [|exact Hall].
      unfold onFinal. destruct (shouldMerge _ _); [|destruct c]; simpl;
        (apply Forall_app; split; [exact Hall | repeat constructor; exact Hr]). }
    apply G. constructor.
Qed.

Lemma allFinal_app_l (l1 l2 : list TranscriptEntry) : allFinal (l1 ++ l2) -> allFinal l1.
Proof. intros H. apply Forall_app in H. tauto. Qed.

(** A result event keeps a hook instance stable. *)
Lemma onresult_stable (c : option CaptionSession) (now nowU : Z)
    (event : SpeechEvent) (st : State) :
  Stable {| state := st; closure := c |} ->
  Stable {| state := onresult c now nowU event st; closure := c |}.
Proof.
  intros [Hd Hb Hs Hc Hm]. simpl in *.
  pose proof (onresult_display c now nowU event st) as Hdis.
  unfold onresult, applyQueued in *.
  generalize dependent (drop (resultIndex event) (results event)). intros slots Hdis.
  set (h' := foldl _ (handling st) slots) in *.
  destruct (handleResults_sync c now nowU slots (handling st)) as (_ & _ & _ & Ecs).
  destruct (handleResults_final c now nowU slots Hc (handling st) Hm
              (List.Forall_nil _) (List.Forall_nil _) Hb) as (Hm' & _ & Hq & Hb').
  fold h' in Ecs, Hm', Hq, Hb'. simpl in Ecs.
  set (st1 := foldl (fun st u => runTranscriptUpdate u st) (h_state h')
                    (h_transcriptQueue h')) in *.
  destruct (transcriptQueue_frame (h_transcriptQueue h') (h_state h'))
    as (Ep & _ & Ec1 & Es1).
  fold st1 in Ep, Ec1, Es1.
  assert (Hp1 : Persisted st1).
  { split; [rewrite Ec1, Ecs; exact Hs | rewrite Es1; exact Hm']. }
  destruct (sessionQueue_persisted _ Hq st1 Hp1) as (Hs2 & Hm2).
  destruct (sessionQueue_frame (h_sessionQueue h') st1) as (_ & _ & Ep2 & _).
  constructor; simpl.
  - destruct Hdis as [(_ & -> & _) | (pre & x & -> & Hpre & _)];
      [exact Hd | apply interimOnlyAtTail_snoc; exact Hpre].
  - intros p. rewrite Ep2, Ep. apply Hb'.
  - exact Hs2.
  - exact Hc.
  - exact Hm2.
Qed.

(** After a result event the last-final ref is the most recent final
    entry of the display whenever it was before. *)
Lemma onresult_tracked (c : option CaptionSession) (now nowU : Z)
    (event : SpeechEvent) (st : State) :
  Tracked st -> Tracked (onresult c now nowU event st).
Proof.
  intros Ht.
  destruct (onresult_display c now nowU event st) as [(_ & E1 & E2) | (pre & x & E1 & Hpre & Hx & E2)];
    unfold Tracked; rewrite E1, E2; [exact Ht|].
  right. symmetry. apply lastFinal_snoc_final; assumption.
Qed.

Lemma onResultSlot_stable (c : option CaptionSession) (now nowU : Z)
    (r : SpeechResult) (st : State) :
  Stable {| state := st; closure := c |} ->
  Stable {| state := onResultSlot c now nowU r st; closure := c |}.
Proof. apply onresult_stable. Qed.

Lemma onResultSlot_tracked (c : option CaptionSession) (now nowU : Z)
    (r : SpeechResult) (st : State) :
  Tracked st -> Tracked (onResultSlot c now nowU r st).
Proof. apply onresult_tracked. Qed.

(** A result event that brings one final result: the handler clears
    the interim buffer and the timer and decides, the append branch
    saves the session of the closure, and the render runs the one
    queued update of the display and then that of the session. *)
Lemma onResultSlot_final (c : option CaptionSession) (now nowU : Z)
    (r : SpeechResult) (st : State) :
  r_isFinal r = true ->
  let e := baseEntry now st r in
  let st0 := setInterimTimerRef None (setPendingInterimRef None st) in
  onResultSlot c now nowU r st =
    if shouldMerge st e then
      match c with
      | Some _ => mergeIntoSession nowU e (mergeIntoTranscript nowU e st0)
      | None => mergeIntoTranscript nowU e st0
      end
    else
      match c with
      | Some cs =>
          let updated :=
            {| s_id := s_id cs; s_name := s_name cs; s_startTime := s_startTime cs;
               s_endTime := now; s_transcript := s_transcript cs ++ [e];
               s_language := s_language cs |} in
          setCurrentSession (Some updated)
            (appendToTranscript nowU e (saveSession updated st0))
      | None => appendToTranscript nowU e st0
      end.
Proof.
  intros Hr e st0. unfold onResultSlot, onresult, applyQueued, handleResult. simpl.
  rewrite Hr. unfold onFinal. simpl h_state. fold e.
  change (shouldMerge (setInterimTimerRef None (setPendingInterimRef None st)) e)
    with (shouldMerge st e).
  destruct (shouldMerge st e); destruct c; reflexivity.
Qed.

(** The display and the refs after a result event that brings one
    final result, by the two branches of the handler. *)
Lemma onResultSlot_display (c : option CaptionSession) (now nowU : Z)
    (r : SpeechResult) (st : State) :
  r_isFinal r = true ->
  let e := baseEntry now st r in
  let st' := onResultSlot c now nowU r st in
  let finals := List.filter isFinal (transcript st) in
  pendingInterimRef st' = None /\
  interimTimerRef st' = None /\
  beginTimeRef st' = Some nowU /\
  ((shouldMerge st e = true /\
    exists pre last, finals = pre ++ [last] /\
      transcript st' = pre ++ [mergeEntry nowU last e] /\
      lastFinalRef st' = Some (mergeEntry nowU last e))
   \/
   ((shouldMerge st e = false \/ finals = []) /\
    transcript st' = finals ++ [e] /\ lastFinalRef st' = Some e)).
Proof.
  intros Hr e st' finals. subst st'. rewrite (onResultSlot_final c now nowU r st Hr).
  fold e. cbv zeta.
  set (st0 := setInterimTimerRef None (setPendingInterimRef None st)).
  destruct (shouldMerge st e) eqn:Hm.
  - pose proof (runTranscriptUpdate_display (QueuedMerge nowU e) st0) as (Hb & Hd).
    pose proof (runTranscriptUpdate_frame (QueuedMerge nowU e) st0) as (Hp & Ht & _).
    simpl in Hb, Hd, Hp, Ht. fold finals in Hd.
    assert (H2 : forall s2,
               (s2 = mergeIntoTranscript nowU e st0 \/
                s2 = mergeIntoSession nowU e (mergeIntoTranscript nowU e st0)) ->
               pendingInterimRef s2 = None /\ interimTimerRef s2 = None /\
               beginTimeRef s2 = Some nowU /\
               transcript s2 = transcript (mergeIntoTranscript nowU e st0) /\
               lastFinalRef s2 = lastFinalRef (mergeIntoTranscript nowU e st0)).
    { intros s2 [-> | ->]; [repeat split; assumption|].
      destruct (mergeIntoSession_display nowU e (mergeIntoTranscript nowU e st0))
        as (-> & -> & -> & -> & ->).
      repeat split; assumption. }
    destruct (H2 (match c with
                  | Some _ => mergeIntoSession nowU e (mergeIntoTranscript nowU e st0)
                  | None => mergeIntoTranscript nowU e st0
                  end)) as (-> & -> & -> & -> & ->).
    { destruct c; [right | left]; reflexivity. }
    repeat split. destruct Hd as [Hd | (Hnil & Hd)]; [left | right].
    + split; [reflexivity | assumption].
    + split; [right; assumption | assumption].
  - destruct c; simpl; repeat split; right; repeat split; left; reflexivity.
Qed.

Lemma initialHook_stable : Stable initialHook.
Proof.
  constructor; simpl;
    first [discriminate | reflexivity | apply map_Forall_empty].
Qed.

Lemma initEffect_frame (b : Browser) (st : State) :
  transcript (initEffect b st) = transcript st /\
  pendingInterimRef (initEffect b st) = pendingInterimRef st /\
  lastFinalRef (initEffect b st) = lastFinalRef st /\
  currentSession (initEffect b st) = currentSession st /\
  storage (initEffect b st) = storage st.
Proof.
  unfold initEffect. destruct (isSecureContext _); simpl; [|repeat split].
  destruct (b_hasSpeechRecognition b); simpl; [|repeat split].
  destruct (b_constructorThrows b); repeat split.
Qed.

(** Every event keeps a hook instance stable. *)
Lemma step_stable (h : Hook) (ev : Event) : Stable h -> Stable (step h ev).
Proof.
  intros H. destruct h as [st c].
  destruct ev as [b|env| |now|now nowU event| | |code|sessionId|sessionId].
  - destruct H as [Hd Hb Hs Hc Hm]. simpl in *.
    destruct (initEffect_frame b st) as (E1 & E2 & E3 & E4 & E5).
    constructor; simpl; rewrite ?E1, ?E2, ?E3, ?E4, ?E5; try assumption.
    destruct (installsHandlers b); assumption.
  - destruct H as [Hd Hb Hs Hc Hm]. simpl in *.
    unfold startListening.
    destruct (recognitionRef st); simpl; [|constructor; assumption].
    destruct (isListening st); simpl; [constructor; assumption|].
    destruct (isSecureContext _); simpl; [|constructor; assumption].
    destruct (permissionDenied _); simpl; [constructor; assumption|].
    destruct (env_start env); constructor; simpl; try assumption;
      try reflexivity; intros s [= <-]; constructor.
  - destruct H as [Hd Hb Hs Hc Hm]. simpl in *.
    unfold clearTranscript. simpl.
    destruct (currentSession st) as [cs|] eqn:E; constructor; simpl;
      try assumption; try reflexivity.
    + intros s [= <-]. constructor.
    + apply map_Forall_insert_2; [constructor | assumption].
    + rewrite E. discriminate.
  - destruct H as [Hd Hb Hs Hc Hm]. constructor; assumption.
  - apply (onresult_stable c now nowU event st H).
  - destruct H as [Hd Hb Hs Hc Hm]. simpl in *.
    destruct (interimTimerRef st); [|constructor; assumption].
    unfold interimTimerCallback.
    destruct (pendingInterimRef st) as [i|] eqn:E; [|constructor; simpl; rewrite ?E; assumption].
    constructor; simpl; try assumption.
    + apply interimOnlyAtTail_snoc, allFinal_filter.
    + rewrite E. assumption.
  - destruct H as [Hd Hb Hs Hc Hm]. simpl in *. unfold onend.
    destruct c as [cs|]; constructor; simpl; try assumption.
    apply map_Forall_insert_2; [apply (Hc cs eq_refl) | assumption].
  - destruct H as [Hd Hb Hs Hc Hm]. simpl in *. unfold onerror.
    repeat (match goal with |- context [if ?b then _ else _] => destruct b end);
      constructor; assumption.
  - destruct H as [Hd Hb Hs Hc Hm]. simpl in *. unfold loadSession, getSession.
    destruct (storage st !! sessionId) as [s|] eqn:E; [|constructor; assumption].
    pose proof (Hm sessionId s E) as Hfin. simpl in Hfin.
    constructor; simpl; try assumption.
    + apply interimOnlyAtTail_allFinal. assumption.
    + intros s' [= <-]. assumption.
  - destruct H as [Hd Hb Hs Hc Hm]. simpl in *. unfold deleteSession.
    assert (Hm' : map_Forall (fun _ s => allFinal (s_transcript s))
                             (delete sessionId (storage st))).
    { apply map_Forall_delete. assumption. }
    destruct (currentSession st) as [cs|] eqn:E.
    + destruct (String.eqb (s_id cs) sessionId); constructor; simpl;
        rewrite ?E; try assumption; try reflexivity; discriminate.
    + constructor; simpl; rewrite ?E; try assumption.
Qed.

Lemma run_stable (evs : list Event) : forall h, Stable h -> Stable (run h evs).
Proof.
  induction evs as [|ev evs IH]; intros h H; [exact H|].
  simpl. apply IH, step_stable, H.
Qed.

(** Every event but the loading of a stored session keeps the
    last-final ref on the display. *)
Lemma step_tracked (h : Hook) (ev : Event) :
  Stable h -> loadsSession ev = false ->
  Tracked (state h) -> Tracked (state (step h ev)).
Proof.
  intros [_ Hb _ _ _] Hev Ht. destruct h as [st c]. simpl in *.
  destruct ev as [b|env| |now|now nowU event| | |code|sessionId|sessionId];
    simpl; try discriminate.
  - destruct (initEffect_frame b st) as (E1 & _ & E3 & _).
    unfold Tracked. rewrite E1, E3. exact Ht.
  - unfold startListening.
    destruct (recognitionRef st); simpl; [|exact Ht].
    destruct (isListening st); simpl; [exact Ht|].
    destruct (isSecureContext _); simpl; [|exact Ht].
    destruct (permissionDenied _); simpl; [exact Ht|].
    destruct (env_start env); left; reflexivity.
  - unfold clearTranscript. simpl. destruct (currentSession st); left; reflexivity.
  - exact Ht.
  - apply onresult_tracked. exact Ht.
  - destruct (interimTimerRef st); [|exact Ht].
    unfold interimTimerCallback.
    destruct (pendingInterimRef st) as [i|] eqn:E; [|exact Ht].
    unfold Tracked, lastFinal in *. simpl.
    rewrite filter_snoc_interim by (apply Hb; reflexivity). exact Ht.
  - unfold onend. destruct c; exact Ht.
  - unfold onerror.
    repeat (match goal with |- context [if ?b then _ else _] => destruct b end);
      exact Ht.
  - unfold deleteSession. destruct (currentSession st) as [cs|]; [|exact Ht].
    destruct (String.eqb (s_id cs) sessionId); [left; reflexivity | exact Ht].
Qed.

Lemma run_tracked (evs : list Event) :
  forall h, forallb (fun ev => negb (loadsSession ev)) evs = true ->
  Stable h -> Tracked (state h) -> Tracked (state (run h evs)).
Proof.
  induction evs as [|ev evs IH]; intros h Hev Hs Ht; [exact Ht|].
  simpl in Hev. apply andb_true_iff in Hev as [Hev Hevs]. apply negb_true_iff in Hev.
  simpl. apply IH; [assumption | apply step_stable; assumption|].
  apply step_tracked; assumption.
Qed.

Lemma interimOnlyAtTail_split (l : list TranscriptEntry) :
  interimOnlyAtTail l = true ->
  exists finals tail, l = finals ++ tail /\ allFinal finals /\ (length tail <= 1)%nat.
Proof.
  intros H. destruct (decide (l = [])) as [-> | Hne].
  - exists [], []. repeat split; [constructor | simpl; lia].
  - destruct (exists_last Hne) as (l' & x & ->).
    unfold interimOnlyAtTail in H. rewrite removelast_last in H.
    exists l', [x]. repeat split; [|simpl; lia].
    apply Forall_forall. intros e He. apply list_elem_of_In in He.
    revert e He. apply forallb_forall. assumption.
Qed.

Lemma handleResults_interim (c : option CaptionSession) (now nowU : Z)
    (slots : list SpeechResult) :
  forallb (fun r => negb (r_isFinal r)) slots = true ->
  forall h : Handling,
  let h' := foldl (fun h r => handleResult c now nowU r h) h slots in
  h_transcriptQueue h' = h_transcriptQueue h /\
  h_sessionQueue h' = h_sessionQueue h /\
  currentSession (h_state h') = currentSession (h_state h) /\
  storage (h_state h') = storage (h_state h).
Proof.
  induction slots as [|r slots IH]; intros H h; [repeat split|].
  simpl in H. apply andb_true_iff in H as [Hr H]. apply negb_true_iff in Hr.
  simpl. destruct (IH H (handleResult c now nowU r h)) as (-> & -> & -> & ->).
  unfold handleResult. rewrite Hr. unfold onInterim. simpl.
  destruct (interimTimerRef (h_state h)); repeat split.
Qed.

Lemma interim_slots_persisted (c : option CaptionSession) (now nowU : Z)
    (event : SpeechEvent) (st : State) :
  forallb (fun r => negb (r_isFinal r)) (drop (resultIndex event) (results event)) = true ->
  currentSession (onresult c now nowU event st) = currentSession st /\
  storage (onresult c now nowU event st) = storage st.
Proof.
  intros H. unfold onresult, applyQueued.
  destruct (handleResults_interim c now nowU _ H (handling st)) as (-> & -> & Hc & Hs).
  simpl. exact (conj Hc Hs).
Qed.

Lemma interimOnly_step_persisted (h : Hook) (ev : Event) :
  interimOnly ev = true ->
  currentSession (state (step h ev)) = currentSession (state h) /\
  storage (state (step h ev)) = storage (state h).
Proof.
  destruct ev as [b|env| |now|now nowU event| | |code|sessionId|sessionId];
    simpl; try discriminate.
  - intros H. apply interim_slots_persisted. assumption.
  - intros _. destruct (interimTimerRef (state h)); [|split; reflexivity].
    unfold interimTimerCallback. destruct (pendingInterimRef (state h)); split; reflexivity.
Qed.

(** C2.  From the initial state of the hook, after any sequence of
    events, the display is a sequence of final entries followed by at
    most one more entry, and the session and every stored session hold
    final entries only.  And events that carry interim results only
    (result events without a final slot, and firings of the timeout)
    leave the session and the store as they were, from any state: an
    empty session transcript stays empty. *)
Theorem interim_never_persisted :
  (forall evs : list Event,
     let st := state (run initialHook evs) in
     (exists finals tail,
        transcript st = finals ++ tail /\ allFinal finals /\ (length tail <= 1)%nat) /\
     (forall s, currentSession st = Some s -> allFinal (s_transcript s)) /\
     map_Forall (fun _ s => allFinal (s_transcript s)) (storage st)) /\
  (forall (h : Hook) (evs : list Event),
     forallb interimOnly evs = true ->
     currentSession (state (run h evs)) = currentSession (state h) /\
     storage (state (run h evs)) = storage (state h)).
Proof.
  split.
  - intros evs st. subst st.
    destruct (run_stable evs initialHook initialHook_stable) as [Hd _ Hs _ Hm].
    split; [apply interimOnlyAtTail_split; assumption|]. split; assumption.
  - intros h evs. revert h. induction evs as [|ev evs IH]; intros h H; [split; reflexivity|].
    simpl in H. apply andb_true_iff in H as [Hev H].
    simpl. destruct (IH (step h ev) H) as [-> ->].
    apply interimOnly_step_persisted. assumption.
Qed.

Lemma interim_never_persisted_witness :
  let h := run initialHook [EffectRuns secureBrowser;
                            StartListening (startEnvAt 1000 Started);
                            OnStart 1001] in
  let evs := [OnResult 1100 1100 (oneSlot (interimResult "h"));
              OnResult 1150 1150 (oneSlot (interimResult "he"));
              TimerFires;
              OnResult 1300 1300 (oneSlot (interimResult "hel"))] in
  s_transcript <$> currentSession (state (run h evs)) = Some [] /\
  storage (state (run h evs)) = ∅.
Proof.
  intros h evs.
  destruct interim_never_persisted as [_ H].
  destruct (H h evs) as [-> ->]; [reflexivity|]. split; reflexivity.
Defined.

Lemma shouldMerge_true (st : State) (now : Z) (r : SpeechResult) (last : TranscriptEntry) :
  let e := baseEntry now st r in
  lastFinalRef st = Some last ->
  shouldMerge st e = true <->
  ((String.length (text e) <= 8)%nat \/ (wordCount (text e) <= 2)%nat) /\
  startTime e - endTime last <= 1500.
Proof.
  intros e Hl. unfold shouldMerge. rewrite Hl.
  rewrite andb_true_iff, orb_true_iff, !Nat.leb_le, Z.leb_le.
  subst e. simpl text. rewrite trimmed_short_by_words. reflexivity.
Qed.

End Stabilizer.

(** * Further properties *)

(** ** Further properties: slices *)

Section Slices.

Context {A : Type}.

Lemma sliceLast_all (n : nat) (l : list A) :
  (length l <= n)%nat -> Js.sliceLast n l = l.
Proof.
  intros H. unfold Js.sliceLast.
  replace (length l - n)%nat with 0%nat by lia. reflexivity.
Qed.

Lemma sliceLast_app_slice (n : nat) (l r : list A) :
  Js.sliceLast n (Js.sliceLast n l ++ r) = Js.sliceLast n (l ++ r).
Proof.
  destruct (Nat.le_gt_cases (length l) n) as [Hle | Hgt].
  - rewrite (sliceLast_all n l) by assumption. reflexivity.
  - unfold Js.sliceLast. rewrite !length_app, length_drop.
    replace (length l - (length l - n))%nat with n by lia.
    destruct (Nat.le_gt_cases (length r) n) as [Hr | Hr].
    + rewrite drop_app_le by (rewrite length_drop; lia).
      rewrite drop_app_le by lia. rewrite drop_drop.
      f_equal. f_equal. lia.
    + rewrite drop_app_ge by (rewrite length_drop; lia).
      rewrite drop_app_ge by lia. rewrite length_drop.
      f_equal. lia.
Qed.

Lemma sliceLast_sliceLast (n m : nat) (l : list A) :
  (n <= m)%nat -> Js.sliceLast n (Js.sliceLast m l) = Js.sliceLast n l.
Proof.
  intros H. unfold Js.sliceLast. rewrite length_drop, drop_drop.
  f_equal. lia.
Qed.

Lemma sliceLast_snoc_slice (n : nat) (l : list A) (x : A) :
  Js.sliceLast n l ++ [x] = Js.sliceLast (S n) (l ++ [x]).
Proof. symmetry. apply sliceLast_snoc. Qed.

End Slices.

(** ** Further properties: caption enhancement *)

Section Enhancement.

Import Captions NimCaptions NimEffects Spec.

Lemma enhanceCaption_begin_processed (r : Render) (entryId : string) (st : State) :
  match enhanceCaption_begin r entryId st with
  | Finished st' | Awaiting _ st' => processedEntries st' = processedEntries st
  end.
Proof.
  unfold enhanceCaption_begin.
  destruct (existsb _ _); [reflexivity|].
  destruct (List.find _ _); reflexivity.
Qed.

(** What was requested by the loop of the effect was requested before
    it, or is the id of one of the entries it ran over. *)
Lemma effect_loop_origin (r : Render) (entries : list EnhancedTranscriptEntry) :
  forall (acc : State * list (string * EnhanceRequest)) (x : string * EnhanceRequest),
  x ∈ snd (foldl (fun acc e =>
                    let entryId := entryIdOf e in
                    if enhanceOnlyFinalCaptions (r_nimSettings r) then
                      match enhanceCaption_begin r entryId (fst acc) with
                      | Finished st' => (st', snd acc)
                      | Awaiting req st' => (st', snd acc ++ [(entryId, req)])
                      end
                    else acc) acc entries) ->
  x ∈ snd acc \/
  (enhanceOnlyFinalCaptions (r_nimSettings r) = true /\
   exists e, e ∈ entries /\ fst x = entryIdOf e).
Proof.
  induction entries as [|e entries IH]; intros acc x Hx; simpl in Hx; [left; exact Hx|].
  apply IH in Hx as [Hx | (Hon & e' & He' & Hid)].
  - destruct (enhanceOnlyFinalCaptions (r_nimSettings r)) eqn:Hon; [|left; exact Hx].
    destruct (enhanceCaption_begin r (entryIdOf e) (fst acc)); simpl in Hx; [left; exact Hx|].
    apply elem_of_app in Hx as [Hx | Hx]; [left; exact Hx|].
    apply list_elem_of_singleton in Hx. subst x.
    right. split; [reflexivity|]. exists e. split; [apply list_elem_of_here | reflexivity].
  - right. split; [assumption|]. exists e'. split; [apply list_elem_of_further|]; assumption.
Qed.

(** A request of the effect is for an eligible entry of the original
    transcript. *)
Lemma effect_request_is_eligible (r : Render) (original : list TranscriptEntry)
    (st : State) (entryId : string) (req : EnhanceRequest) :
  (entryId, req) ∈ snd (autoEnhanceEffect r original st) ->
  enableNvidiaEnhancement (r_nimSettings r) = true /\
  enhanceOnlyFinalCaptions (r_nimSettings r) = true /\
  exists e : TranscriptEntry,
    e ∈ original /\
    entryId = entryIdOf (convertToEnhanced e) /\
    eligible r (setEnhancedTranscript (map convertToEnhanced original) st)
             (convertToEnhanced e) = true.
Proof.
  unfold autoEnhanceEffect. intros Hx.
  destruct (enableNvidiaEnhancement (r_nimSettings r)) eqn:Hen; [|inversion Hx].
  apply effect_loop_origin in Hx as [Hx | (Hon & e & He & Hid)]; [inversion Hx|].
  simpl in Hid. subst entryId.
  apply list_elem_of_In, List.filter_In in He as [He Hel].
  apply list_elem_of_In, list_elem_of_fmap in He as (e0 & -> & He0).
  split; [reflexivity|]. split; [assumption|].
  exists e0. split; [assumption|]. split; [reflexivity | exact Hel].
Qed.

(** X1.  The effect posts a request only for an entry of the original
    transcript that is final, whose confidence is present and at or
    above the threshold, and whose id is not in the processed set, and
    only when enhancement is enabled and limited to final captions. *)
Theorem effect_requests_are_gated (r : Render) (original : list TranscriptEntry)
    (st : State) (entryId : string) (req : EnhanceRequest) :
  (entryId, req) ∈ snd (autoEnhanceEffect r original st) ->
  enableNvidiaEnhancement (r_nimSettings r) = true /\
  enhanceOnlyFinalCaptions (r_nimSettings r) = true /\
  (entryId ∉ processedEntries st) /\
  exists (e : TranscriptEntry) (c : float),
    e ∈ original /\
    entryId = pretty (timestamp e) +:+ "_" +:+ Js.substring0 20 (text e) /\
    isFinal e = true /\
    confidence e = Some c /\
    (confidenceThreshold (r_nimSettings r) <=? c)%float = true.
Proof.
  intros Hx.
  apply effect_request_is_eligible in Hx as (Hen & Hon & e0 & He0 & -> & Hel).
  unfold eligible in Hel. simpl in Hel.
  apply andb_true_iff in Hel as [Hel Hc]. apply andb_true_iff in Hel as [Hf Hp].
  apply negb_true_iff, bool_decide_eq_false in Hp.
  split; [assumption|]. split; [assumption|]. split; [exact Hp|].
  destruct (confidence e0) as [c|] eqn:Hconf; [|discriminate].
  exists e0, c. repeat split; assumption.
Qed.

Lemma effect_requests_are_gated_witness :
  let e := sampleEntry "hello world" 1000 true in
  let st := sampleNimState [] in
  isFinal e = true /\ ("1000_hello world" ∉ processedEntries st).
Proof.
  intros e st.
  assert (Hin : ("1000_hello world",
                 {| rawText := "hello world"; context := "Meeting context: Meeting 1";
                    previousCaptions := [] |})
                ∈ snd (autoEnhanceEffect (render (sampleNimState [convertToEnhanced e])) [e] st)).
  { vm_compute. apply list_elem_of_here. }
  destruct (effect_requests_are_gated _ _ _ _ _ Hin)
    as (_ & _ & Hp & e' & c & He' & _ & Hf & _).
  apply list_elem_of_singleton in He'. subst e'.
  split; assumption.
Defined.

(** X2.  When the remote call for an entry succeeds, every entry with
    that id carries the enhanced text, the status enhanced and the
    confidence 0.95, the other entries are kept, and the id is in the
    processed set: no later run of the effect posts a request for that
    id, whatever the render and the transcript. *)
Theorem successful_enhancement (r : Render) (entryId text : string) (st : State) :
  let st' := enhanceCaption_resume r entryId (Resolves text) st in
  (forall e, e ∈ enhancedTranscript st' -> entryIdOf e = entryId ->
             enhancedText e = Some text /\ processingStatus e = enhanced /\
             nimConfidence e = Some 0.95%float) /\
  (forall e, e ∈ enhancedTranscript st -> entryIdOf e <> entryId ->
             e ∈ enhancedTranscript st') /\
  entryId ∈ processedEntries st' /\
  (forall (r' : Render) (original : list TranscriptEntry) (req : EnhanceRequest),
     (entryId, req) ∉ snd (autoEnhanceEffect r' original st')).
Proof.
  intros st'.
  assert (Hp : entryId ∈ processedEntries st').
  { subst st'. simpl. destruct (useContextAwareness (r_nimSettings r)); simpl;
      apply elem_of_union_l, elem_of_singleton; reflexivity. }
  assert (Ht : enhancedTranscript st' =
               map (fun e => if String.eqb (entryIdOf e) entryId
                             then {| entry := entry e; enhancedText := Some text;
                                     nimConfidence := Some 0.95%float;
                                     processingStatus := enhanced;
                                     originalText := originalText e |}
                             else e) (enhancedTranscript st)).
  { subst st'. simpl. destruct (useContextAwareness (r_nimSettings r)); reflexivity. }
  split; [|split; [|split]].
  - intros e He Hid. rewrite Ht in He.
    apply list_elem_of_fmap in He as (e0 & -> & _).
    destruct (String.eqb (entryIdOf e0) entryId) eqn:E; [repeat split|].
    apply String.eqb_neq in E. contradiction.
  - intros e He Hid. rewrite Ht. apply list_elem_of_fmap. exists e. split; [|assumption].
    apply String.eqb_neq in Hid. rewrite Hid. reflexivity.
  - exact Hp.
  - intros r' original req Hin.
    apply effect_request_is_eligible in Hin as (_ & _ & e0 & _ & -> & Hel).
    unfold eligible in Hel. simpl in Hel.
    apply andb_true_iff in Hel as [Hel _]. apply andb_true_iff in Hel as [_ Hn].
    apply negb_true_iff, bool_decide_eq_false in Hn. contradiction.
Qed.

Lemma successful_enhancement_witness :
  let e := convertToEnhanced (sampleEntry "hello world" 1000 true) in
  let other := convertToEnhanced (sampleEntry "and more" 2000 true) in
  let st := sampleNimState [e; other] in
  let st' := enhanceCaption_resume (render st) "1000_hello world" (Resolves "Hello, world.") st in
  enhancedText (enhancedTo "Hello, world." (sampleEntry "hello world" 1000 true))
    = Some "Hello, world." /\
  other ∈ enhancedTranscript st'.
Proof.
  intros e other st st'.
  pose proof (successful_enhancement (render st) "1000_hello world" "Hello, world." st)
    as (H1 & H2 & _).
  split.
  - apply H1; [|reflexivity]. apply list_elem_of_here.
  - apply H2; [|discriminate]. apply list_elem_of_further, list_elem_of_here.
Defined.

Lemma completeAll_cache (r : Render) (done : list (string * ApiOutcome string)) :
  useContextAwareness (r_nimSettings r) = true ->
  forall st : State,
  (length (contextCache st) <= 10)%nat ->
  contextCache (completeAll r done st)
    = Js.sliceLast 10 (contextCache st ++ resolvedTexts done).
Proof.
  intros Hctx. induction done as [|[id out] done IH]; intros st Hlen.
  - simpl. rewrite app_nil_r. symmetry. apply sliceLast_all. assumption.
  - unfold completeAll in *. simpl foldl. destruct out as [t | m].
    + rewrite IH.
      * simpl. rewrite Hctx. simpl. rewrite sliceLast_app_slice, <- app_assoc. reflexivity.
      * simpl. rewrite Hctx. simpl. rewrite sliceLast_length. lia.
    + rewrite IH by exact Hlen. reflexivity.
Qed.

Lemma completeAll_cache_off (r : Render) (done : list (string * ApiOutcome string)) :
  useContextAwareness (r_nimSettings r) = false ->
  forall st : State, contextCache (completeAll r done st) = contextCache st.
Proof.
  intros Hctx. induction done as [|[id out] done IH]; intros st; [reflexivity|].
  unfold completeAll in *. simpl foldl. rewrite IH.
  destruct out; simpl; rewrite ?Hctx; reflexivity.
Qed.

(** X3.  With context awareness on and a cache of at most ten texts,
    after any series of completed calls the context cache is the last
    ten of the cache followed by the texts of the calls that succeeded,
    in the order of completion, and a request that [enhanceCaption]
    then posts carries the last three of them as previous captions.
    With context awareness off the cache is left alone and a request
    carries no previous caption. *)
Theorem context_cache_is_recent (r : Render) (done : list (string * ApiOutcome string))
    (st : State) (entryId : string) :
  let st' := completeAll r done st in
  (useContextAwareness (r_nimSettings r) = true ->
   (length (contextCache st) <= 10)%nat ->
   contextCache st' = Js.sliceLast 10 (contextCache st ++ resolvedTexts done) /\
   (length (contextCache st') <= 10)%nat /\
   forall req st'',
     enhanceCaption_begin r entryId st' = Awaiting req st'' ->
     previousCaptions req = Js.sliceLast 3 (contextCache st ++ resolvedTexts done)) /\
  (useContextAwareness (r_nimSettings r) = false ->
   contextCache st' = contextCache st /\
   forall req st'',
     enhanceCaption_begin r entryId st' = Awaiting req st'' ->
     previousCaptions req = [] /\ context req = "").
Proof.
  intros st'. split.
  - intros Hctx Hlen.
    pose proof (completeAll_cache r done Hctx st Hlen) as Hc. fold st' in Hc.
    split; [exact Hc|]. split; [rewrite Hc, sliceLast_length; lia|].
    intros req st'' Hb. unfold enhanceCaption_begin in Hb.
    destruct (existsb _ _); [discriminate|].
    destruct (List.find _ _); [|discriminate].
    injection Hb as <- _. simpl. rewrite Hctx. simpl.
    rewrite Hc. apply sliceLast_sliceLast. lia.
  - intros Hctx. split; [apply completeAll_cache_off; assumption|].
    intros req st'' Hb. unfold enhanceCaption_begin in Hb.
    destruct (existsb _ _); [discriminate|].
    destruct (List.find _ _); [|discriminate].
    injection Hb as <- _. simpl. rewrite Hctx. split; reflexivity.
Qed.

Lemma context_cache_is_recent_witness :
  let e := convertToEnhanced (sampleEntry "next one" 5000 true) in
  let st := sampleNimState [e] in
  let done := [("1_a", Resolves "One."); ("2_b", Rejects "failed");
               ("3_c", Resolves "Three."); ("4_d", Resolves "Four.");
               ("5_e", Resolves "Five.")] in
  contextCache (completeAll (render st) done st) = ["One."; "Three."; "Four."; "Five."] /\
  forall req st'',
    enhanceCaption_begin (render st) "5000_next one" (completeAll (render st) done st)
      = Awaiting req st'' ->
    previousCaptions req = ["Three."; "Four."; "Five."].
Proof.
  intros e st done.
  pose proof (context_cache_is_recent (render st) done st "5000_next one") as [H _].
  destruct H as (Hc & _ & Hreq); [reflexivity | simpl; lia |].
  split; [exact Hc | exact Hreq].
Defined.

End Enhancement.

(** ** Further properties: the effect and the bookkeeping of a call *)

Section EnhancementBookkeeping.

Import Captions NimCaptions NimEffects Spec.

Lemma withStatus_setStatus (entryId : string) (s : ProcessingStatus)
    (l : list EnhancedTranscriptEntry) :
  map (withStatus pending) (setStatus entryId s l) = map (withStatus pending) l.
Proof.
  unfold setStatus. rewrite map_map. apply map_ext. intros e.
  destruct (String.eqb _ _); reflexivity.
Qed.

Lemma enhanceCaption_begin_entries (r : Render) (entryId : string) (st : State) :
  match enhanceCaption_begin r entryId st with
  | Finished st' | Awaiting _ st' =>
      map (withStatus pending) (enhancedTranscript st')
        = map (withStatus pending) (enhancedTranscript st)
  end.
Proof.
  unfold enhanceCaption_begin.
  destruct (existsb _ _); [reflexivity|].
  destruct (List.find _ _); simpl; apply withStatus_setStatus.
Qed.

Lemma effect_loop_entries (r : Render) (entries : list EnhancedTranscriptEntry) :
  forall acc : State * list (string * EnhanceRequest),
  map (withStatus pending)
      (enhancedTranscript
         (fst (foldl (fun acc e =>
                        let entryId := entryIdOf e in
                        if enhanceOnlyFinalCaptions (r_nimSettings r) then
                          match enhanceCaption_begin r entryId (fst acc) with
                          | Finished st' => (st', snd acc)
                          | Awaiting req st' => (st', snd acc ++ [(entryId, req)])
                          end
                        else acc) acc entries)))
  = map (withStatus pending) (enhancedTranscript (fst acc)).
Proof.
  induction entries as [|e entries IH]; intros acc; [reflexivity|].
  simpl. rewrite IH.
  destruct (enhanceOnlyFinalCaptions (r_nimSettings r)); [|reflexivity].
  pose proof (enhanceCaption_begin_entries r (entryIdOf e) (fst acc)) as H.
  destruct (enhanceCaption_begin r (entryIdOf e) (fst acc)); exact H.
Qed.

(** X4.  Whenever the effect runs, the enhanced transcript is rebuilt
    from the original transcript: it has one entry for each original
    entry, in order, with that entry's text as original text and with
    no enhanced text and no enhancement confidence, whatever had been
    enhanced before; only the status may differ from pending. *)
Theorem effect_rebuilds_transcript (r : Render) (original : list TranscriptEntry) (st : State) :
  let st' := fst (autoEnhanceEffect r original st) in
  map (withStatus pending) (enhancedTranscript st') = map convertToEnhanced original /\
  map entry (enhancedTranscript st') = original /\
  Forall (fun e => enhancedText e = None /\ nimConfidence e = None /\
                   originalText e = text (entry e)) (enhancedTranscript st').
Proof.
  intros st'.
  assert (H : map (withStatus pending) (enhancedTranscript st') = map convertToEnhanced original).
  { subst st'. unfold autoEnhanceEffect.
    destruct (enableNvidiaEnhancement (r_nimSettings r)).
    - rewrite effect_loop_entries. simpl. rewrite map_map. apply map_ext. reflexivity.
    - simpl. rewrite map_map. apply map_ext. reflexivity. }
  split; [exact H|]. split.
  - apply (f_equal (map entry)) in H. rewrite !map_map in H. simpl in H.
    rewrite map_id in H. exact H.
  - apply Forall_forall. intros e He.
    assert (Hs : withStatus pending e ∈ map convertToEnhanced original).
    { rewrite <- H. apply list_elem_of_fmap. exists e. split; [reflexivity | assumption]. }
    apply list_elem_of_fmap in Hs as (e0 & Heq & _).
    apply (f_equal enhancedText) in Heq as H1.
    apply (f_equal nimConfidence) in Heq as H2.
    apply (f_equal originalText) in Heq as H3.
    apply (f_equal entry) in Heq as H4.
    simpl in *. subst. repeat split; assumption.
Qed.

Lemma not_in_filter_out (entryId : string) (l : list string) :
  entryId ∉ List.filter (fun id => negb (String.eqb id entryId)) l.
Proof.
  intros H. apply list_elem_of_In, List.filter_In in H as [_ H].
  rewrite String.eqb_refl in H. discriminate.
Qed.

(** X5.  A call of [enhanceCaption] for an id that the render shows in
    the processing queue does nothing.  A call for an id that the
    render's transcript does not hold posts no request and marks the
    entries with that id as errors.  And however a call ends, by an
    entry that is not found or by either outcome of its request, its id
    is not in the processing queue afterwards. *)
Theorem enhanceCaption_bookkeeping (r : Render) (entryId : string) (st : State) :
  (entryId ∈ r_nimProcessingQueue r -> enhanceCaption_begin r entryId st = Finished st) /\
  (entryId ∉ r_nimProcessingQueue r ->
   (forall e, e ∈ r_enhancedTranscript r -> entryIdOf e <> entryId) ->
   exists st',
     enhanceCaption_begin r entryId st = Finished st' /\
     enhancedTranscript st' = setStatus entryId error (enhancedTranscript st) /\
     processedEntries st' = processedEntries st /\
     entryId ∉ nimProcessingQueue st') /\
  (forall (outcome : ApiOutcome string) (req : EnhanceRequest) (st1 : State),
     enhanceCaption_begin r entryId st = Awaiting req st1 ->
     (exists found, found ∈ r_enhancedTranscript r /\ entryIdOf found = entryId /\
                    rawText req = originalText found) /\
     entryId ∉ nimProcessingQueue (enhanceCaption_resume r entryId outcome st1)).
Proof.
  split; [|split].
  - intros Hin. unfold enhanceCaption_begin.
    assert (Hq : existsb (String.eqb entryId) (r_nimProcessingQueue r) = true).
    { apply existsb_exists. exists entryId. split; [apply list_elem_of_In; exact Hin|].
      apply String.eqb_refl. }
    rewrite Hq. reflexivity.
  - intros Hq Hnone. unfold enhanceCaption_begin.
    assert (Hq' : existsb (String.eqb entryId) (r_nimProcessingQueue r) = false).
    { apply not_true_is_false. intros H. apply existsb_exists in H as (x & Hx & Heq).
      apply String.eqb_eq in Heq. subst x. apply Hq, list_elem_of_In. exact Hx. }
    rewrite Hq'.
    destruct (List.find _ (r_enhancedTranscript r)) as [found|] eqn:Hf.
    + apply List.find_some in Hf as [Hin Heq]. apply String.eqb_eq in Heq.
      exfalso. apply (Hnone found); [apply list_elem_of_In; exact Hin | exact Heq].
    + eexists. split; [reflexivity|]. simpl. repeat split. apply not_in_filter_out.
  - intros outcome req st1 Hb. unfold enhanceCaption_begin in Hb.
    destruct (existsb _ _); [discriminate|].
    destruct (List.find _ (r_enhancedTranscript r)) as [found|] eqn:Hf; [|discriminate].
    injection Hb as <- <-. split.
    + apply List.find_some in Hf as [Hin Heq]. apply String.eqb_eq in Heq.
      exists found. split; [apply list_elem_of_In; exact Hin|]. split; [exact Heq | reflexivity].
    + destruct outcome; simpl; [destruct (useContextAwareness _); simpl|];
        apply not_in_filter_out.
Qed.

Lemma enhanceCaption_bookkeeping_witness :
  let e := convertToEnhanced (sampleEntry "hello world" 1000 true) in
  let st := sampleNimState [e] in
  let busy := {| r_enhancedTranscript := [e]; r_nimSettings := defaultNimSettings;
                 r_currentNimSession := None;
                 r_nimProcessingQueue := ["1000_hello world"] |} in
  enhanceCaption_begin busy "1000_hello world" st = Finished st /\
  (exists st', enhanceCaption_begin (render (sampleNimState [])) "1000_hello world" st
               = Finished st' /\
               map processingStatus (enhancedTranscript st') = [error]) /\
  "1000_hello world" ∉
    nimProcessingQueue
      (enhanceCaption_resume (render st) "1000_hello world" (Rejects "failed")
         (setEnhancedTranscript (setStatus "1000_hello world" processing [e])
            (setIsProcessingNim true
               (setNimProcessingQueue ["1000_hello world"] st)))).
Proof.
  intros e st busy. split; [|split].
  - apply (enhanceCaption_bookkeeping busy "1000_hello world" st). apply list_elem_of_here.
  - destruct (enhanceCaption_bookkeeping (render (sampleNimState [])) "1000_hello world" st)
      as (_ & H & _).
    destruct H as (st' & Hb & Ht & _).
    + intros H. inversion H.
    + intros x H. inversion H.
    + exists st'. split; [exact Hb|]. rewrite Ht. reflexivity.
  - destruct (enhanceCaption_bookkeeping (render st) "1000_hello world" st) as (_ & _ & H).
    eapply H. reflexivity.
Defined.

(** X6.  The effect that follows the session of [useCaptions] builds the
    enhanced session anew: a summary or a list of action items that a
    successful call had stored is gone after the next run of the
    effect, and the session counts as not processed. *)
Theorem session_effect_drops_summary (text : string) (items : list string)
    (original : CaptionSession) (r : Render) (st : State) :
  let summarized := snd (generateSummary_resume (Resolves text) st) in
  let itemized := snd (extractActionItems_resume (Resolves items) summarized) in
  (currentNimSession st <> None ->
   (summary <$> currentNimSession summarized) = Some (Some text) /\
   (actionItems <$> currentNimSession itemized) = Some (Some items)) /\
  currentNimSession (syncSessionEffect (Some original) r itemized)
    = Some {| session := original; ns_transcript := r_enhancedTranscript r;
              summary := None; actionItems := None; nimProcessed := false |} /\
  currentNimSession (syncSessionEffect None r itemized) = None.
Proof.
  simpl. split; [|split; reflexivity].
  intros H. destruct (currentNimSession st); [split; reflexivity | contradiction].
Qed.

Lemma session_effect_drops_summary_witness :
  let st := sampleNimState [] in
  let summarized := snd (generateSummary_resume (Resolves "All agreed.") st) in
  (summary <$> currentNimSession summarized) = Some (Some "All agreed.").
Proof.
  intros st summarized.
  apply (session_effect_drops_summary "All agreed." [] (session sampleNimSession)
           (render st) st).
  discriminate.
Defined.

End EnhancementBookkeeping.

(** ** Further properties: the routes *)

Section Routes.

Import NimCaptions Api Spec.

(** X7.  Through the summarize route, [callNimApi] resolves exactly
    when the transcript is not empty, the API key is configured, the
    type is "summary" or "action-items" and the call of the client for
    that type resolves, and then with the client's result.  It rejects
    an empty transcript with "Transcript is required" without
    consulting the client, a missing API key with the general failure
    message, any other type with the message about the type, and a
    call of the client that fails, for either type, with the general
    failure message "Failed to process summarization request". *)
Theorem summarize_through_route (server : Server) (req : SummarizeRequest)
    (missing : Summarized) (syntaxError : string) :
  let out := callNimApi missing syntaxError (Delivered (summarizeRoute server (Some req))) in
  (forall v, out = Resolves v <->
     transcriptText req <> "" /\ apiKeyConfigured server = true /\
     ((type req = "summary" /\ exists t,
         generateMeetingSummary server (transcriptText req) = Resolves t /\ v = Summary t) \/
      (type req = "action-items" /\ exists items,
         extractActionItems server (transcriptText req) = Resolves items /\
         v = ActionItems items))) /\
  (transcriptText req = "" -> out = Rejects "Transcript is required") /\
  (transcriptText req <> "" -> apiKeyConfigured server = false ->
   out = Rejects "Failed to process summarization request") /\
  (transcriptText req <> "" -> apiKeyConfigured server = true ->
   type req <> "summary" -> type req <> "action-items" ->
   out = Rejects invalidTypeMessage) /\
  (transcriptText req <> "" -> apiKeyConfigured server = true ->
   (type req = "summary" /\ exists m,
      generateMeetingSummary server (transcriptText req) = Rejects m) \/
   (type req = "action-items" /\ exists m,
      extractActionItems server (transcriptText req) = Rejects m) ->
   out = Rejects "Failed to process summarization request").
Proof.
  intros out. subst out. unfold summarizeRoute.
  destruct (Js.isEmpty (transcriptText req)) eqn:He.
  { assert (Ht : transcriptText req = "") by (destruct (transcriptText req); [reflexivity | discriminate]).
    split; [|split; [|split; [|split]]]; try (intros; congruence); try reflexivity.
    intros v. split; [discriminate|]. intros (H & _). contradiction. }
  assert (Ht : transcriptText req <> "") by (intros H; rewrite H in He; discriminate).
  destruct (apiKeyConfigured server) eqn:Hk; simpl.
  2:{ split; [|split; [|split; [|split]]]; try (intros; congruence); try reflexivity.
      intros v. split; [discriminate|]. intros (_ & H & _). discriminate. }
  destruct (String.eqb (type req) "summary") eqn:E1.
  { apply String.eqb_eq in E1.
    split; [|split; [|split; [|split]]]; try (intros; congruence).
    2:{ intros _ _ [(_ & m & Hm) | (Hty & _)].
        - rewrite Hm. reflexivity.
        - rewrite E1 in Hty. discriminate. }
    intros v. destruct (generateMeetingSummary server (transcriptText req)) as [t|m] eqn:Hg; simpl.
    - split.
      + intros [= <-]. repeat split; try assumption. left. split; [assumption|].
        exists t. split; reflexivity.
      + intros (_ & _ & [(_ & t' & [= ->] & ->) | (Hty & _)]); [reflexivity|].
        rewrite E1 in Hty. discriminate.
    - split; [discriminate|].
      intros (_ & _ & [(_ & t' & Hd & _) | (Hty & _)]); [discriminate|].
      rewrite E1 in Hty. discriminate. }
  apply String.eqb_neq in E1.
  destruct (String.eqb (type req) "action-items") eqn:E2.
  { apply String.eqb_eq in E2.
    split; [|split; [|split; [|split]]]; try (intros; congruence).
    2:{ intros _ _ [(Hty & _) | (_ & m & Hm)]; [contradiction|].
        rewrite Hm. reflexivity. }
    intros v. destruct (extractActionItems server (transcriptText req)) as [t|m] eqn:Hg; simpl.
    - split.
      + intros [= <-]. repeat split; try assumption. right. split; [assumption|].
        exists t. split; reflexivity.
      + intros (_ & _ & [(Hty & _) | (_ & t' & [= ->] & ->)]); [contradiction | reflexivity].
    - split; [discriminate|].
      intros (_ & _ & [(Hty & _) | (_ & t' & Hd & _)]); [contradiction | discriminate]. }
  apply String.eqb_neq in E2.
  split; [|split; [|split; [|split]]]; try (intros; congruence); try reflexivity.
  2:{ intros _ _ [(Hty & _) | (Hty & _)]; contradiction. }
  intros v. split; [discriminate|].
  intros (_ & _ & [(Hty & _) | (Hty & _)]); contradiction.
Qed.

End Routes.

Section RoutesAndHook.

Import Captions NimCaptions Api Samples Spec.

Lemma summarize_through_route_witness :
  callNimApi (Summary "") "Unexpected token"
    (Delivered (summarizeRoute answeringServer
                  (Some {| transcriptText := ""; type := "summary" |})))
    = Rejects "Transcript is required" /\
  callNimApi (Summary "") "Unexpected token"
    (Delivered (summarizeRoute keylessServer
                  (Some {| transcriptText := "hello"; type := "summary" |})))
    = Rejects "Failed to process summarization request" /\
  callNimApi (Summary "") "Unexpected token"
    (Delivered (summarizeRoute answeringServer
                  (Some {| transcriptText := "hello"; type := "minutes" |})))
    = Rejects invalidTypeMessage /\
  callNimApi (Summary "") "Unexpected token"
    (Delivered (summarizeRoute answeringServer
                  (Some {| transcriptText := "hello"; type := "action-items" |})))
    = Rejects "Failed to process summarization request".
Proof.
  split; [|split; [|split]].
  - destruct (summarize_through_route answeringServer
                {| transcriptText := ""; type := "summary" |}
                (Summary "") "Unexpected token") as (_ & H & _).
    apply H. reflexivity.
  - destruct (summarize_through_route keylessServer
                {| transcriptText := "hello"; type := "summary" |}
                (Summary "") "Unexpected token") as (_ & _ & H & _).
    apply H; [discriminate | reflexivity].
  - destruct (summarize_through_route answeringServer
                {| transcriptText := "hello"; type := "minutes" |}
                (Summary "") "Unexpected token") as (_ & _ & _ & H & _).
    apply H; [discriminate | reflexivity | discriminate | discriminate].
  - destruct (summarize_through_route answeringServer
                {| transcriptText := "hello"; type := "action-items" |}
                (Summary "") "Unexpected token") as (_ & _ & _ & _ & H).
    apply H; [discriminate | reflexivity |].
    right. split; [reflexivity|].
    exists "NVIDIA NIM API error: 503". reflexivity.
Defined.

(** X8.  A summary or a list of action items that is requested while
    the enhanced transcript has entries but no final one is posted with
    an empty transcript, which the route refuses whatever the server:
    the call rejects with "Transcript is required", the hook rethrows
    that message, the processing flag is down again, and the session
    is as it was. *)
Theorem summary_without_finals_is_refused (server : Server) (r : Render) (st : State)
    (missing : Summarized) (syntaxError : string) :
  r_currentNimSession r <> None ->
  r_enhancedTranscript r <> [] ->
  Forall (fun e => isFinal (entry e) = false) (r_enhancedTranscript r) ->
  exists req1 req2 st1,
    generateSummary_begin r st = AwaitingSummary req1 st1 /\
    extractActionItems_begin r st = AwaitingSummary req2 st1 /\
    callNimApi missing syntaxError (Delivered (summarizeRoute server (Some req1)))
      = Rejects "Transcript is required" /\
    callNimApi missing syntaxError (Delivered (summarizeRoute server (Some req2)))
      = Rejects "Transcript is required" /\
    generateSummary_resume (Rejects "Transcript is required") st1
      = (Some "Transcript is required", setIsProcessingNim false st) /\
    extractActionItems_resume (Rejects "Transcript is required") st1
      = (Some "Transcript is required", setIsProcessingNim false st).
Proof.
  intros Hs Ht Hall.
  assert (Hf : List.filter (fun e => isFinal (entry e)) (r_enhancedTranscript r) = []).
  { clear Ht. induction Hall as [|e l He _ IH]; [reflexivity|]. simpl. rewrite He. exact IH. }
  unfold generateSummary_begin, extractActionItems_begin.
  destruct (r_currentNimSession r); [|contradiction].
  destruct (r_enhancedTranscript r) as [|e l] eqn:Hl; [contradiction|].
  simpl length. simpl Nat.eqb. cbv iota.
  eexists. eexists. eexists. split; [reflexivity|]. split; [reflexivity|].
  unfold joinedTranscript. rewrite Hf. simpl. repeat split.
Qed.

Lemma summary_without_finals_is_refused_witness :
  let t := [convertToEnhanced (sampleEntry "hel" 1000 false)] in
  let st := sampleNimState t in
  exists req1 req2 st1,
    generateSummary_begin (render st) st = AwaitingSummary req1 st1 /\
    extractActionItems_begin (render st) st = AwaitingSummary req2 st1 /\
    callNimApi (Summary "") "Unexpected token"
      (Delivered (summarizeRoute answeringServer (Some req1)))
      = Rejects "Transcript is required" /\
    callNimApi (Summary "") "Unexpected token"
      (Delivered (summarizeRoute answeringServer (Some req2)))
      = Rejects "Transcript is required" /\
    generateSummary_resume (Rejects "Transcript is required") st1
      = (Some "Transcript is required", setIsProcessingNim false st) /\
    extractActionItems_resume (Rejects "Transcript is required") st1
      = (Some "Transcript is required", setIsProcessingNim false st).
Proof.
  intros t st.
  apply (summary_without_finals_is_refused answeringServer (render st) st).
  - discriminate.
  - discriminate.
  - repeat constructor.
Defined.

Lemma setStatus_twice (entryId : string) (s1 s2 : ProcessingStatus)
    (l : list EnhancedTranscriptEntry) :
  setStatus entryId s2 (setStatus entryId s1 l) = setStatus entryId s2 l.
Proof.
  unfold setStatus. rewrite map_map. apply map_ext. intros e.
  destruct (String.eqb (entryIdOf e) entryId) eqn:E.
  - rewrite entryIdOf_withStatus, E. reflexivity.
  - rewrite E. reflexivity.
Qed.

Lemma enhanceCaption_begin_awaiting (r : Render) (entryId : string) (st : State)
    (req : EnhanceRequest) (st1 : State) :
  enhanceCaption_begin r entryId st = Awaiting req st1 ->
  processedEntries st1 = processedEntries st /\
  contextCache st1 = contextCache st /\
  enhancedTranscript st1 = setStatus entryId processing (enhancedTranscript st).
Proof.
  unfold enhanceCaption_begin.
  destruct (existsb _ _); [discriminate|].
  destruct (List.find _ _); [|discriminate].
  intros [= <- <-]. repeat split.
Qed.

Lemma enhance_route_outcome (server : Server) (req : EnhanceRequest)
    (missing syntaxError : string) :
  callNimApi missing syntaxError (Delivered (enhanceCaptionsRoute server (Some req))) =
    if Js.isEmpty (rawText req) then Rejects "Raw text is required"
    else if apiKeyConfigured server then
      match enhanceCaptions server (rawText req) (context req) (previousCaptions req) with
      | Resolves t => Resolves t
      | Rejects _ => Rejects "Failed to enhance captions"
      end
    else Rejects "Failed to enhance captions".
Proof.
  unfold enhanceCaptionsRoute.
  destruct (Js.isEmpty (rawText req)); [reflexivity|].
  destruct (apiKeyConfigured server); [|reflexivity].
  simpl. destruct (enhanceCaptions _ _ _ _); reflexivity.
Qed.

(** X9.  When the request of [enhanceCaption] is served by the
    enhance-captions route, the entry counts as processed afterwards
    exactly when it did before or the request was served: its raw text
    is not empty, the API key is configured and the model answers.  In
    every other case (an entry with empty text, which the route refuses
    with status 400, a missing key, a failing model) the processed set
    and the context cache are as before and the entries with that id
    are marked as errors. *)
Theorem enhancement_through_route (server : Server) (r : Render) (entryId : string)
    (st : State) (req : EnhanceRequest) (st1 : State) :
  enhanceCaption_begin r entryId st = Awaiting req st1 ->
  let st' := enhanceThroughRoute server r entryId st in
  let served :=
    rawText req <> "" /\ apiKeyConfigured server = true /\
    exists t, enhanceCaptions server (rawText req) (context req) (previousCaptions req)
              = Resolves t in
  (entryId ∈ processedEntries st' <-> entryId ∈ processedEntries st \/ served) /\
  (~ served ->
   processedEntries st' = processedEntries st /\
   contextCache st' = contextCache st /\
   enhancedTranscript st' = setStatus entryId error (enhancedTranscript st)).
Proof.
  intros Hb st' served. subst st'. unfold enhanceThroughRoute. rewrite Hb.
  destruct (enhanceCaption_begin_awaiting _ _ _ _ _ Hb) as (Hp & Hc & Ht).
  assert (Hfail : forall m,
            ~ served ->
            let st' := enhanceCaption_resume r entryId (Rejects m) st1 in
            (entryId ∈ processedEntries st' <-> entryId ∈ processedEntries st \/ served) /\
            (~ served ->
             processedEntries st' = processedEntries st /\
             contextCache st' = contextCache st /\
             enhancedTranscript st' = setStatus entryId error (enhancedTranscript st))).
  { intros m Hn. simpl. rewrite Ht, setStatus_twice, Hp, Hc. split; [tauto|].
    intros _. repeat split. }
  rewrite enhance_route_outcome.
  destruct (Js.isEmpty (rawText req)) eqn:He.
  { apply Hfail. intros (H & _). destruct (rawText req); [contradiction | discriminate]. }
  assert (Hr : rawText req <> "") by (intros H; rewrite H in He; discriminate).
  destruct (apiKeyConfigured server) eqn:Hk.
  2:{ apply Hfail. intros (_ & H & _). discriminate. }
  destruct (enhanceCaptions server (rawText req) (context req) (previousCaptions req))
    as [t|m] eqn:Hg.
  - assert (Hs : served) by (split; [assumption | split; [reflexivity | exists t; reflexivity]]).
    split; [|intros Hn; contradiction].
    split; [intros _; right; exact Hs|]. intros _.
    simpl. destruct (useContextAwareness (r_nimSettings r)); simpl;
      apply elem_of_union_l, elem_of_singleton; reflexivity.
  - apply Hfail. intros (_ & _ & t & H). discriminate.
Qed.

Lemma enhancement_through_route_witness :
  let e := convertToEnhanced (sampleEntry "hello world" 1000 true) in
  let st := sampleNimState [e] in
  "1000_hello world" ∈ processedEntries
     (enhanceThroughRoute answeringServer (render st) "1000_hello world" st) /\
  map processingStatus
    (enhancedTranscript
       (enhanceThroughRoute keylessServer (render st) "1000_hello world" st)) = [error].
Proof.
  intros e st. split.
  - eapply (enhancement_through_route answeringServer (render st) "1000_hello world" st);
      [reflexivity|].
    right. split; [discriminate|]. split; [reflexivity|]. eexists. reflexivity.
  - destruct (enhancement_through_route keylessServer (render st) "1000_hello world" st
                _ _ eq_refl) as (_ & H).
    destruct H as (_ & _ & ->); [|reflexivity].
    intros (_ & H & _). discriminate.
Defined.

End RoutesAndHook.

(** ** Further properties: final results, the display and the store *)

Section FinalResults.

Import Captions CaptionControls Notions Spec.

Lemma handleResults_last_final (c : option CaptionSession) (now nowU : Z)
    (pre : list SpeechResult) (r : SpeechResult) (h : Handling) :
  r_isFinal r = true ->
  let h' := foldl (fun h r => handleResult c now nowU r h) h (pre ++ [r]) in
  pendingInterimRef (h_state h') = None /\ interimTimerRef (h_state h') = None.
Proof.
  intros Hr. rewrite foldl_app. simpl. unfold handleResult. rewrite Hr.
  unfold onFinal. destruct (shouldMerge _ _); [|destruct c]; split; reflexivity.
Qed.

(** X10.  A result event whose last slot is final leaves nothing of an
    interim result behind: no entry is buffered, no timeout is pending,
    every entry on display is final, and a late firing of the timeout
    changes nothing. *)
Theorem final_result_clears_interim (c : option CaptionSession) (now nowU : Z)
    (event : SpeechEvent) (pre : list SpeechResult) (r : SpeechResult) (st : State) :
  drop (resultIndex event) (results event) = pre ++ [r] ->
  r_isFinal r = true ->
  let st' := onresult c now nowU event st in
  pendingInterimRef st' = None /\
  interimTimerRef st' = None /\
  allFinal (transcript st') /\
  step {| state := st'; closure := c |} TimerFires = {| state := st'; closure := c |}.
Proof.
  intros Hd Hr st'.
  assert (Hrefs : pendingInterimRef st' = None /\ interimTimerRef st' = None).
  { subst st'. unfold onresult, applyQueued. rewrite Hd.
    set (h' := foldl _ (handling st) (pre ++ [r])).
    destruct (sessionQueue_frame (h_sessionQueue h')
                (foldl (fun st u => runTranscriptUpdate u st) (h_state h')
                       (h_transcriptQueue h'))) as (_ & _ & -> & -> & _).
    destruct (transcriptQueue_frame (h_transcriptQueue h') (h_state h'))
      as (-> & -> & _).
    apply handleResults_last_final. exact Hr. }
  destruct Hrefs as (Hp & Ht).
  split; [exact Hp|]. split; [exact Ht|]. split.
  - destruct (onresult_display c now nowU event st) as [(Hall & _) | (pre' & x & E & Hpre & Hx & _)].
    + rewrite Hd, forallb_app in Hall. simpl in Hall. rewrite Hr in Hall.
      rewrite andb_false_r in Hall. discriminate.
    + fold st' in E. rewrite E. apply Forall_app. split; [exact Hpre|].
      constructor; [exact Hx | constructor].
  - unfold step. simpl. rewrite Ht. reflexivity.
Qed.

Lemma final_result_clears_interim_witness :
  let st := onresult None 10 10 (oneSlot (interimResult "he")) initialState in
  let st' := onresult None 100 100 (oneSlot (finalResult "hello")) st in
  interimTimerRef st = Some 130 /\
  pendingInterimRef st' = None /\ interimTimerRef st' = None.
Proof.
  intros st st'. split; [reflexivity|].
  destruct (final_result_clears_interim None 100 100 (oneSlot (finalResult "hello"))
              [] (finalResult "hello") st eq_refl eq_refl) as (H1 & H2 & _).
  split; assumption.
Defined.

End FinalResults.

Section MergedText.

Import Captions JsText Spec.

Lemma collapse_onlySpaces (s : string) :
  forall inRun, onlySpaces (Js.collapseFrom inRun s) = true.
Proof.
  induction s as [|c r IH]; intros inRun; [reflexivity|]. simpl.
  destruct (Js.isWhiteSpace c) eqn:E.
  - destruct inRun; [apply IH|]. simpl. rewrite IH. reflexivity.
  - simpl. rewrite E, IH. reflexivity.
Qed.

Lemma collapse_pairs (s : string) :
  forall inRun,
  hasWhiteSpacePair (Js.collapseFrom inRun s) = false /\
  (inRun = true -> startsWithWhiteSpace (Js.collapseFrom inRun s) = false).
Proof.
  induction s as [|c r IH]; intros inRun; [split; reflexivity|]. simpl.
  destruct (Js.isWhiteSpace c) eqn:E.
  - destruct inRun.
    + apply IH.
    + split; [|discriminate].
      destruct (IH true) as (Hp & Hs). specialize (Hs eq_refl).
      simpl. destruct (Js.collapseFrom true r) as [|c' r'] eqn:Hc; [reflexivity|].
      simpl in Hs. rewrite Hs. simpl. exact Hp.
  - split; [|intros _; simpl; exact E].
    destruct (IH false) as (Hp & _).
    simpl. destruct (Js.collapseFrom false r) as [|c' r'] eqn:Hc; [reflexivity|].
    rewrite E. simpl. exact Hp.
Qed.

Lemma trimStart_onlySpaces (s : string) :
  onlySpaces s = true -> onlySpaces (Js.trimStart s) = true.
Proof.
  induction s as [|c r IH]; [reflexivity|]. simpl. intros H.
  apply andb_prop in H as [H1 H2].
  destruct (Js.isWhiteSpace c) eqn:E; [apply IH; exact H2|].
  simpl. rewrite E. simpl. exact H2.
Qed.

Lemma trimEnd_onlySpaces (s : string) :
  onlySpaces s = true -> onlySpaces (Js.trimEnd s) = true.
Proof.
  induction s as [|c r IH]; [reflexivity|]. simpl. intros H.
  apply andb_prop in H as [H1 H2].
  destruct (Js.isWhiteSpace c && Js.isEmpty (Js.trimEnd r)); [reflexivity|].
  simpl. rewrite H1, (IH H2). reflexivity.
Qed.

Lemma hasWhiteSpacePair_tail (c : ascii) (r : string) :
  hasWhiteSpacePair (String c r) = false -> hasWhiteSpacePair r = false.
Proof.
  simpl. destruct r as [|c' r']; [reflexivity|]. intros H.
  apply orb_false_elim in H as [_ H]. exact H.
Qed.

Lemma trimStart_pairs (s : string) :
  hasWhiteSpacePair s = false -> hasWhiteSpacePair (Js.trimStart s) = false.
Proof.
  induction s as [|c r IH]; [reflexivity|]. intros H. simpl Js.trimStart.
  destruct (Js.isWhiteSpace c); [|exact H].
  apply IH. apply (hasWhiteSpacePair_tail c r H).
Qed.

Lemma trimEnd_pairs (s : string) :
  hasWhiteSpacePair s = false -> hasWhiteSpacePair (Js.trimEnd s) = false.
Proof.
  induction s as [|c r IH]; [reflexivity|]. intros H.
  pose proof (IH (hasWhiteSpacePair_tail c r H)) as IH'.
  pose proof (trimEnd_head r) as Hh.
  simpl Js.trimEnd.
  destruct (Js.isWhiteSpace c && Js.isEmpty (Js.trimEnd r)); [reflexivity|].
  simpl. destruct (Js.trimEnd r) as [|c' r'] eqn:Ht; [reflexivity|].
  rewrite IH'. destruct r as [|c0 r0]; [discriminate|].
  rewrite Ht in Hh. subst c'. simpl in H. apply orb_false_elim in H as [H _]. rewrite H. reflexivity.
Qed.

Lemma trim_startsWith (s : string) : startsWithWhiteSpace (Js.trim s) = false.
Proof.
  unfold Js.trim. pose proof (trimStart_head s) as H1.
  pose proof (trimEnd_head (Js.trimStart s)) as H2.
  destruct (Js.trimStart s) as [|c r]; [reflexivity|].
  destruct (Js.trimEnd (String c r)) as [|c' r']; [reflexivity|].
  subst c'. exact H1.
Qed.

Lemma countWords_collapse (s : string) :
  forall inWord inRun,
  (inRun = true -> inWord = false) ->
  countWords inWord (Js.collapseFrom inRun s) = countWords inWord s.
Proof.
  induction s as [|c r IH]; intros inWord inRun H; [reflexivity|]. simpl.
  destruct (Js.isWhiteSpace c) eqn:E.
  - destruct inRun.
    + rewrite (H eq_refl). apply IH. reflexivity.
    + simpl. apply IH. reflexivity.
  - simpl. rewrite E. rewrite IH; [reflexivity | discriminate].
Qed.

Lemma countWords_trimStart (s : string) :
  countWords false (Js.trimStart s) = countWords false s.
Proof.
  induction s as [|c r IH]; [reflexivity|]. simpl.
  destruct (Js.isWhiteSpace c) eqn:E; [exact IH|]. simpl. rewrite E. reflexivity.
Qed.

Lemma countWords_trimEnd (s : string) :
  forall inWord, countWords inWord (Js.trimEnd s) = countWords inWord s.
Proof.
  induction s as [|c r IH]; intros inWord; [reflexivity|]. simpl.
  destruct (Js.isWhiteSpace c) eqn:E; simpl.
  - destruct (Js.isEmpty (Js.trimEnd r)) eqn:Ee.
    + rewrite <- IH. destruct (Js.trimEnd r); [reflexivity | discriminate].
    + simpl. rewrite E. apply IH.
  - rewrite E, IH. reflexivity.
Qed.

Lemma countWords_joined (a b : string) :
  forall inWord,
  countWords inWord (a +:+ " " +:+ b) = (countWords inWord a + countWords false b)%nat.
Proof.
  induction a as [|c r IH]; intros inWord; [reflexivity|].
  change (String c r +:+ " " +:+ b) with (String c (r +:+ " " +:+ b)).
  simpl countWords.
  destruct (Js.isWhiteSpace c); rewrite IH; lia.
Qed.

(** X11.  The text of a merged entry is normalised: it neither begins
    nor ends with white space, no two white space characters are
    neighbours, and every white space character is a space.  Merging
    keeps the words: the merged text has as many words as the two texts
    together. *)
Theorem merged_text_is_normalised (last finalEntry : TranscriptEntry) :
  let t := mergedText last finalEntry in
  startsWithWhiteSpace t = false /\
  endsInWhiteSpace false t = false /\
  hasWhiteSpacePair t = false /\
  onlySpaces t = true /\
  wordCount t = (wordCount (text last) + wordCount (text finalEntry))%nat.
Proof.
  intros t. subst t. unfold mergedText.
  set (joined := text last +:+ " " +:+ text finalEntry).
  split; [apply trim_startsWith|]. split.
  { unfold Js.trim. rewrite trimEnd_tail. destruct (Js.isEmpty _); reflexivity. }
  split.
  { unfold Js.trim. apply trimEnd_pairs, trimStart_pairs.
    apply (collapse_pairs joined false). }
  split.
  { unfold Js.trim. apply trimEnd_onlySpaces, trimStart_onlySpaces, collapse_onlySpaces. }
  unfold wordCount, Js.trim, Js.collapseWhiteSpace.
  rewrite countWords_trimEnd, countWords_trimStart, countWords_collapse by discriminate.
  apply countWords_joined.
Qed.

End MergedText.

(** ** The merge decision of a final result *)

Section MergeDecision.

Import Captions JsText Spec.

Lemma startsWord_words (r : string) : startsWord r = true -> words r <> [].
Proof.
  destruct r as [|c r]; [discriminate|]. simpl. intros H.
  apply negb_true_iff in H. rewrite H.
  destruct (startsWord r); [destruct (words r)|]; discriminate.
Qed.

Lemma startsWord_collapse (r : string) :
  startsWord (Js.collapseFrom false r) = startsWord r.
Proof.
  destruct r as [|c r]; [reflexivity|]. simpl.
  destruct (Js.isWhiteSpace c) eqn:E; simpl; [reflexivity|]. rewrite E. reflexivity.
Qed.

Lemma words_collapse (s : string) :
  forall inRun, words (Js.collapseFrom inRun s) = words s.
Proof.
  induction s as [|c r IH]; intros inRun; [reflexivity|]. simpl.
  destruct (Js.isWhiteSpace c) eqn:E.
  - destruct inRun; [apply IH|]. simpl. apply IH.
  - simpl. rewrite E, startsWord_collapse, IH. reflexivity.
Qed.

Lemma words_trimStart (s : string) : words (Js.trimStart s) = words s.
Proof.
  induction s as [|c r IH]; [reflexivity|]. simpl.
  destruct (Js.isWhiteSpace c) eqn:E; [exact IH|]. simpl. rewrite E. reflexivity.
Qed.

Lemma startsWord_trimEnd (s : string) : startsWord (Js.trimEnd s) = startsWord s.
Proof.
  destruct s as [|c r]; [reflexivity|]. simpl.
  destruct (Js.isWhiteSpace c) eqn:E; simpl.
  - destruct (Js.isEmpty (Js.trimEnd r)); simpl; [reflexivity|]. rewrite E. reflexivity.
  - rewrite E. reflexivity.
Qed.

Lemma words_trimEnd (s : string) : words (Js.trimEnd s) = words s.
Proof.
  induction s as [|c r IH]; [reflexivity|].
  pose proof (startsWord_trimEnd r) as Hs.
  simpl. destruct (Js.isWhiteSpace c) eqn:E; simpl.
  - destruct (Js.isEmpty (Js.trimEnd r)) eqn:Ee.
    + rewrite <- IH. destruct (Js.trimEnd r); [reflexivity | discriminate].
    + simpl. rewrite E. exact IH.
  - rewrite E, Hs, IH. reflexivity.
Qed.

Lemma words_joined (a b : string) :
  words (a +:+ " " +:+ b) = words a ++ words b.
Proof.
  induction a as [|c r IH]; [reflexivity|].
  change (String c r +:+ " " +:+ b) with (String c (r +:+ " " +:+ b)).
  simpl words. rewrite IH.
  destruct (Js.isWhiteSpace c); [reflexivity|].
  destruct r as [|c' r'].
  - reflexivity.
  - change (startsWord (String c' r' +:+ " " +:+ b)) with (startsWord (String c' r')).
    destruct (startsWord (String c' r')) eqn:Es; [|reflexivity].
    pose proof (startsWord_words _ Es) as Hne.
    destruct (words (String c' r')); [contradiction | reflexivity].
Qed.

Lemma unwords_cons_char (c : ascii) (w : string) (ws : list string) :
  unwords (String c w :: ws) = String c (unwords (w :: ws)).
Proof. destruct ws; reflexivity. Qed.

(** A text without white space at its ends, without neighbouring
    white space and with spaces as its only white space is its words
    with one space between them. *)
Lemma unwords_words_normal (t : string) :
  hasWhiteSpacePair t = false ->
  onlySpaces t = true ->
  endsInWhiteSpace false t = false ->
  (startsWithWhiteSpace t = false -> unwords (words t) = t) /\
  (startsWithWhiteSpace t = true -> String " " (unwords (words t)) = t).
Proof.
  induction t as [|c r IH]; intros Hp Ho He; [split; [reflexivity | discriminate]|].
  assert (Hp' : hasWhiteSpacePair r = false) by apply (hasWhiteSpacePair_tail c r Hp).
  assert (Ho' : onlySpaces r = true).
  { simpl in Ho. apply andb_prop in Ho. tauto. }
  assert (He' : endsInWhiteSpace false r = false).
  { destruct r as [|c' r']; [reflexivity|]. exact He. }
  destruct (IH Hp' Ho' He') as (I1 & I2).
  simpl startsWithWhiteSpace. simpl words.
  destruct (Js.isWhiteSpace c) eqn:E.
  - split; [discriminate|]. intros _.
    assert (Hc : c = " "%char).
    { simpl in Ho. rewrite E in Ho. simpl in Ho. apply andb_prop in Ho as [Ho _].
      apply Ascii.eqb_eq in Ho. exact Ho. }
    assert (Hr : startsWithWhiteSpace r = false).
    { destruct r as [|c' r']; [reflexivity|].
      simpl in Hp. rewrite E in Hp. simpl in Hp.
      apply orb_false_elim in Hp as [Hp _]. exact Hp. }
    assert (Hne : r <> "").
    { intros ->. simpl in He. rewrite E in He. discriminate. }
    subst c. f_equal. apply I1. exact Hr.
  - split; [|discriminate]. intros _.
    destruct r as [|c' r']; [reflexivity|].
    simpl startsWord. simpl startsWithWhiteSpace in I1, I2.
    destruct (Js.isWhiteSpace c') eqn:E'; simpl negb; cbv iota.
    + specialize (I2 eq_refl).
      assert (Hne : words (String c' r') <> []).
      { intros Hnil. rewrite Hnil in I2. simpl in I2.
        injection I2 as _ I2. subst r'. simpl in He'. rewrite E' in He'. discriminate. }
      destruct (words (String c' r')) as [|w ws] eqn:Ew; [contradiction|].
      change (unwords (String c "" :: w :: ws))
        with (String c (String " " (unwords (w :: ws)))).
      rewrite I2. reflexivity.
    + specialize (I1 eq_refl).
      assert (Hne : words (String c' r') <> []).
      { apply startsWord_words. simpl. rewrite E'. reflexivity. }
      destruct (words (String c' r')) as [|w ws] eqn:Ew; [contradiction|].
      rewrite unwords_cons_char, I1. reflexivity.
Qed.

(** The merged text is the words of the two texts, in order, with one
    space between neighbours. *)
Lemma mergedText_words (last finalEntry : TranscriptEntry) :
  mergedText last finalEntry = unwords (words (text last) ++ words (text finalEntry)).
Proof.
  unfold mergedText.
  set (joined := text last +:+ " " +:+ text finalEntry).
  set (t := Js.trim (Js.collapseWhiteSpace joined)).
  assert (Hw : words t = words (text last) ++ words (text finalEntry)).
  { subst t. unfold Js.trim, Js.collapseWhiteSpace.
    rewrite words_trimEnd, words_trimStart, words_collapse. apply words_joined. }
  rewrite <- Hw. symmetry.
  apply unwords_words_normal.
  - subst t. unfold Js.trim. apply trimEnd_pairs, trimStart_pairs.
    apply (collapse_pairs joined false).
  - subst t. unfold Js.trim.
    apply trimEnd_onlySpaces, trimStart_onlySpaces, collapse_onlySpaces.
  - subst t. unfold Js.trim. rewrite trimEnd_tail. destruct (Js.isEmpty _); reflexivity.
  - apply trim_startsWith.
Qed.


(** In a state that the hook reaches without loading a stored session,
    the last-final ref is the most recent final entry of the display
    whenever the display has one, and a result event that brings one
    final result follows the merge condition taken against the
    display: it rewrites the most recent final entry when the condition
    holds, and appends otherwise. *)
Lemma merge_decision_follows_display (evs : list Event) (now nowU : Z) (r : SpeechResult) :
  forallb (fun ev => negb (loadsSession ev)) evs = true ->
  r_isFinal r = true ->
  let h := run initialHook evs in
  let st := state h in
  let e := baseEntry now st r in
  let st' := onResultSlot (closure h) now nowU r st in
  let finals := List.filter isFinal (transcript st) in
  (mergeCondition (transcript st) e ->
   (length (transcript st') <= length (transcript st))%nat /\
   exists pre last,
     finals = pre ++ [last] /\
     transcript st' =
       pre ++ [{| text := unwords (words (text last) ++ words (text e));
                  timestamp := nowU;
                  startTime := startTime last;
                  endTime := endTime e;
                  confidence := confidence last;
                  isFinal := true;
                  speaker := speaker last |}]) /\
  (~ mergeCondition (transcript st) e -> transcript st' = finals ++ [e]).
Proof.
  intros Hevs Hr h st e st' finals.
  pose proof (run_tracked evs initialHook Hevs initialHook_stable
                (or_introl eq_refl)) as Hl.
  fold h in Hl. fold st in Hl.
  pose proof (onResultSlot_display (closure h) now nowU r st Hr) as (_ & _ & _ & Hcase).
  fold e st' finals in Hcase.
  destruct Hcase as [(Hm & pre & last & Hf & Ht & _) | (Hm & Ht & _)].
  - assert (Hlast : lastFinal (transcript st) = Some last).
    { unfold lastFinal. fold finals. rewrite Hf. apply last_snoc. }
    split; [|intros Hn; exfalso; apply Hn].
    + intros _. split.
      * rewrite Ht, length_app. simpl.
        pose proof (List.filter_length_le isFinal (transcript st)) as Hle.
        fold finals in Hle. rewrite Hf, length_app in Hle. simpl in Hle. lia.
      * exists pre, last. split; [assumption|]. rewrite Ht.
        unfold mergeEntry. rewrite mergedText_words. reflexivity.
    + exists last. split; [assumption|].
      destruct Hl as [Hl | Hl]; [congruence|].
      rewrite Hlast in Hl. apply (shouldMerge_true st now r last Hl). assumption.
  - split; [|intros _; assumption].
    intros (last & Hlast & Hcond). exfalso.
    destruct Hl as [Hl | Hl]; [congruence|]. rewrite Hlast in Hl.
    destruct Hm as [Hm | Hm].
    + apply (shouldMerge_true st now r last Hl) in Hcond. fold e in Hcond. congruence.
    + unfold lastFinal in Hlast. fold finals in Hlast. rewrite Hm in Hlast. discriminate.
Qed.

(** Within one run of the recogniser the start time of an entry is the
    time at which the previous final result was committed, so a short
    fragment is merged however late it arrives: here "world" arrives
    3 s after "hello". *)
Example late_fragment_is_merged :
  let spoken := [EffectRuns secureBrowser;
                 StartListening (startEnvAt 0 Started);
                 OnStart 0;
                 OnResult 100 100 (oneSlot (finalResult "hello"));
                 OnResult 3100 3100 (oneSlot (finalResult "world"))] in
  map text (transcript (state (run initialHook spoken))) = ["hello world"] /\
  map startTime (transcript (state (run initialHook spoken))) = [0] /\
  map endTime (transcript (state (run initialHook spoken))) = [3100].
Proof. vm_compute. repeat split. Qed.

(** Two final results of one event are both decided against the
    last-final ref of before the event, since the updaters that write
    it run after the handler: "there" is not merged into "hi", though
    it would be as the result of an event of its own. *)
Example finals_of_one_event_are_not_merged :
  let both := {| resultIndex := 0; results := [finalResult "hi"; finalResult "there"] |} in
  map text (transcript (onresult None 100 100 both initialState)) = ["hi"; "there"] /\
  map text (transcript (onresult None 100 100 (oneSlot (finalResult "there"))
                          (onresult None 100 100 (oneSlot (finalResult "hi")) initialState)))
    = ["hi there"].
Proof. vm_compute. split; reflexivity. Qed.



End MergeDecision.

(** ** Further properties: what the handlers persist *)

Section HandlersAndStore.

Import Captions CaptionControls Notions Spec.

Lemma handleResults_without_closure (now nowU : Z) (slots : list SpeechResult) :
  forall h : Handling,
  let h' := foldl (fun h r => handleResult None now nowU r h) h slots in
  h_sessionQueue h' = h_sessionQueue h /\
  storage (h_state h') = storage (h_state h).
Proof.
  induction slots as [|r slots IH]; intros h; [split; reflexivity|].
  simpl. destruct (IH (handleResult None now nowU r h)) as (-> & ->).
  unfold handleResult. destruct (r_isFinal r).
  - unfold onFinal. destruct (shouldMerge _ _); split; reflexivity.
  - unfold onInterim. simpl. destruct (interimTimerRef (h_state h)); split; reflexivity.
Qed.

Lemma onresult_without_closure (now nowU : Z) (event : SpeechEvent) (st : State) :
  currentSession (onresult None now nowU event st) = currentSession st /\
  storage (onresult None now nowU event st) = storage st.
Proof.
  unfold onresult, applyQueued.
  set (h' := foldl _ (handling st) _).
  destruct (handleResults_without_closure now nowU
              (drop (resultIndex event) (results event)) (handling st)) as (Hq & Hs).
  fold h' in Hq, Hs. rewrite Hq. simpl.
  destruct (transcriptQueue_frame (h_transcriptQueue h') (h_state h'))
    as (_ & _ & -> & ->).
  destruct (handleResults_sync None now nowU
              (drop (resultIndex event) (results event)) (handling st)) as (_ & _ & _ & Hc).
  fold h' in Hc. split; [exact Hc | exact Hs].
Qed.

Lemma recognition_step_without_closure (h : Hook) (ev : Event) :
  closure h = None -> recognitionEvent ev = true ->
  closure (step h ev) = None /\
  currentSession (state (step h ev)) = currentSession (state h) /\
  storage (state (step h ev)) = storage (state h).
Proof.
  intros Hc Hev. destruct ev; try discriminate; simpl; rewrite Hc.
  - repeat split.
  - split; [reflexivity|]. apply onresult_without_closure.
  - split; [reflexivity|]. destruct (interimTimerRef (state h)); [|split; reflexivity].
    unfold interimTimerCallback. destruct (pendingInterimRef (state h)); split; reflexivity.
  - repeat split.
  - split; [reflexivity|]. unfold onerror.
    repeat (match goal with |- context [if ?b then _ else _] => destruct b end);
      split; reflexivity.
Qed.

Lemma recognition_run_without_closure (evs : list Event) :
  forall h : Hook,
  closure h = None -> forallb recognitionEvent evs = true ->
  closure (run h evs) = None /\
  currentSession (state (run h evs)) = currentSession (state h) /\
  storage (state (run h evs)) = storage (state h).
Proof.
  induction evs as [|ev evs IH]; intros h Hc Hall; [repeat split; assumption|].
  simpl in Hall. apply andb_prop in Hall as [Hev Hall].
  destruct (recognition_step_without_closure h ev Hc Hev) as (H1 & H2 & H3).
  destruct (IH (step h ev) H1 Hall) as (H4 & H5 & H6).
  unfold run in *. simpl. rewrite H5, H6. repeat split; assumption.
Qed.

(** X12.  The handlers of the recogniser close over the session of the
    render in which the effect installed them.  When they closed over
    no session, nothing that the recogniser then reports reaches the
    session or the store.  So after the effect has run on a new hook
    instance and a session was started, the session has no entry and
    nothing is stored, whatever is recognised, and the export falls
    back on the display. *)
Theorem captions_before_session_are_not_persisted (evs : list Event) :
  forallb recognitionEvent evs = true ->
  (forall h : Hook,
     closure h = None ->
     currentSession (state (run h evs)) = currentSession (state h) /\
     storage (state (run h evs)) = storage (state h)) /\
  (forall (b : Browser) (env : StartEnv),
     let st := state (run initialHook (EffectRuns b :: StartListening env :: evs)) in
     storage st = ∅ /\
     (forall s, currentSession st = Some s -> s_transcript s = []) /\
     effectiveTranscript st = transcript st).
Proof.
  intros Hall. split.
  - intros h Hc. apply (recognition_run_without_closure evs h Hc Hall).
  - intros b env st.
    set (h1 := step (step initialHook (EffectRuns b)) (StartListening env)).
    assert (Hc : closure h1 = None).
    { subst h1. simpl. destruct (installsHandlers b); reflexivity. }
    assert (Hs : storage (state h1) = ∅).
    { subst h1. simpl. unfold startListening.
      destruct (initEffect_frame b initialState) as (_ & _ & _ & _ & Hst).
      repeat (match goal with |- context [if ?b then _ else _] => destruct b end);
        try destruct (env_start env); simpl; exact Hst. }
    assert (Hn : forall s, currentSession (state h1) = Some s -> s_transcript s = []).
    { subst h1. simpl. unfold startListening.
      destruct (initEffect_frame b initialState) as (_ & _ & _ & Hcs & _).
      intros s.
      repeat (match goal with |- context [if ?b then _ else _] => destruct b end);
        try destruct (env_start env); simpl; try rewrite Hcs; simpl;
        intros [= <-] || discriminate; reflexivity. }
    destruct (recognition_run_without_closure evs h1 Hc Hall) as (_ & H2 & H3).
    assert (Hst : st = state (run h1 evs)) by reflexivity.
    rewrite Hst, H3. split; [exact Hs|]. split.
    + rewrite H2. exact Hn.
    + unfold effectiveTranscript. rewrite H2.
      destruct (currentSession (state h1)) as [s|] eqn:E; [|reflexivity].
      rewrite (Hn s eq_refl). reflexivity.
Qed.

Lemma captions_before_session_are_not_persisted_witness :
  let evs := [OnStart 1001;
              OnResult 1100 1100 (oneSlot (finalResult "hello everyone"));
              OnEnd] in
  let st := state (run initialHook
                     (EffectRuns secureBrowser :: StartListening (startEnvAt 1000 Started)
                      :: evs)) in
  storage st = ∅ /\ effectiveTranscript st = transcript st.
Proof.
  intros evs st.
  destruct (captions_before_session_are_not_persisted evs eq_refl) as (_ & H).
  destruct (H secureBrowser (startEnvAt 1000 Started)) as (H1 & _ & H3).
  split; assumption.
Defined.

(** X13.  With handlers that closed over a session [c], a final result
    followed by the end of recognition leaves in the store, under the
    id of [c], the session [c] as the handlers closed over it: loading
    that session then puts the transcript of [c] on display, without
    the entry of the final result. *)
Theorem end_of_recognition_stores_closure (c : CaptionSession) (now nowU : Z)
    (r : SpeechResult) (st : State) :
  let st1 := onResultSlot (Some c) now nowU r st in
  let st2 := onend (Some c) st1 in
  let st3 := loadSession (s_id c) st2 in
  getSession (s_id c) st2 = Some c /\
  currentSession st2 = currentSession st1 /\
  currentSession st3 = Some c /\
  transcript st3 = s_transcript c.
Proof.
  intros st1 st2 st3.
  assert (H : getSession (s_id c) st2 = Some c).
  { subst st2. unfold onend, getSession, saveSession. simpl. apply lookup_insert_eq. }
  split; [exact H|]. split; [reflexivity|].
  subst st3. unfold loadSession. rewrite H. split; reflexivity.
Qed.

Lemma lookup_saveSession (s : CaptionSession) (st : State) :
  getSession (s_id s) (saveSession s st) = Some s.
Proof. unfold getSession, saveSession. simpl. apply lookup_insert_eq. Qed.

(** X14.  A final result that is handled with a session in the closure
    stores the session that it sets: afterwards the current session,
    if there is one, is the session that the store holds under its
    id. *)
Theorem final_result_persists_session (c : CaptionSession) (now nowU : Z)
    (r : SpeechResult) (st : State) :
  r_isFinal r = true ->
  let st' := onResultSlot (Some c) now nowU r st in
  forall s, currentSession st' = Some s -> getSession (s_id s) st' = Some s.
Proof.
  intros Hr st' s. subst st'. rewrite (onResultSlot_final (Some c) now nowU r st Hr).
  cbv zeta. destruct (shouldMerge _ _).
  - unfold mergeIntoSession.
    destruct (currentSession (mergeIntoTranscript nowU _ _)) as [prev|] eqn:E.
    + simpl. intros [= <-]. unfold getSession. simpl. apply lookup_insert_eq.
    + rewrite E. discriminate.
  - simpl. intros [= <-]. unfold getSession. simpl. apply lookup_insert_eq.
Qed.

Lemma final_result_persists_session_witness :
  let c := {| s_id := "session_1"; s_name := "Meeting 1"; s_startTime := 1;
              s_endTime := 1; s_transcript := []; s_language := "en-US" |} in
  let st := setCurrentSession (Some c) initialState in
  let st' := onResultSlot (Some c) 100 100 (finalResult "hello") st in
  exists s, currentSession st' = Some s /\ getSession (s_id s) st' = Some s.
Proof.
  intros c st st'. eexists. split; [reflexivity|].
  apply (final_result_persists_session c 100 100 (finalResult "hello") st eq_refl).
  reflexivity.
Defined.

End HandlersAndStore.

(** ** Further properties: the controls of [useCaptions] *)

Section Controls.

Import Captions CaptionControls JsText Notions Spec.

(** X15.  Stopping saves the current session, so that loading it by
    its id afterwards restores it as the current session and puts its
    transcript on display, whether or not [stop()] throws; stopping
    does not change the display or the session.  Pausing saves
    nothing: the store is as before. *)
Theorem stop_then_load (stopThrows : bool) (s : CaptionSession) (st : State) :
  currentSession st = Some s ->
  let stopped := stopListening stopThrows st in
  let loaded := loadSession (s_id s) stopped in
  transcript stopped = transcript st /\
  currentSession stopped = Some s /\
  currentSession loaded = Some s /\
  transcript loaded = s_transcript s /\
  storage (pauseListening st) = storage st.
Proof.
  intros Hs stopped loaded.
  assert (Hc : currentSession
                 (if recognitionRef st && isListening st
                  then if stopThrows then setIsListening false st else st
                  else st) = Some s).
  { destruct (recognitionRef st && isListening st), stopThrows; exact Hs. }
  assert (Hg : getSession (s_id s) stopped = Some s).
  { subst stopped. unfold stopListening. rewrite Hc.
    unfold getSession, saveSession. simpl. apply lookup_insert_eq. }
  split; [|split; [|split; [|split]]].
  - subst stopped. unfold stopListening. rewrite Hc.
    destruct (recognitionRef st && isListening st), stopThrows; reflexivity.
  - subst stopped. unfold stopListening. rewrite Hc. simpl. exact Hc.
  - subst loaded. unfold loadSession. rewrite Hg. reflexivity.
  - subst loaded. unfold loadSession. rewrite Hg. reflexivity.
  - unfold pauseListening. destruct (recognitionRef st && isListening st); reflexivity.
Qed.

Lemma stop_then_load_witness :
  let st := state (run initialHook
                     [EffectRuns secureBrowser; StartListening (startEnvAt 1000 Started);
                      OnStart 1001;
                      OnResult 1100 1100 (oneSlot (finalResult "hello everyone"))]) in
  map text (transcript st) = ["hello everyone"] /\
  transcript (loadSession "session_1000" (stopListening false st)) = [].
Proof.
  intros st. split; [vm_compute; reflexivity|].
  destruct (stop_then_load false (newSession (startEnvAt 1000 Started)) st)
    as (_ & _ & _ & H & _); [vm_compute; reflexivity|].
  exact H.
Defined.

(** X16.  A deleted session cannot be loaded: after [deleteSession],
    [loadSession] with the same id changes nothing.  Deleting the
    current session empties the display and leaves no current session;
    deleting another one leaves both as they are; the other stored
    sessions stay. *)
Theorem deleted_session_is_gone (sessionId : string) (st : State) :
  let st' := deleteSession sessionId st in
  loadSession sessionId st' = st' /\
  (forall other, other <> sessionId -> getSession other st' = getSession other st) /\
  (forall s, currentSession st = Some s -> s_id s = sessionId ->
             currentSession st' = None /\ transcript st' = []) /\
  (forall s, currentSession st = Some s -> s_id s <> sessionId ->
             currentSession st' = Some s /\ transcript st' = transcript st).
Proof.
  intros st'.
  assert (Hg : getSession sessionId st' = None).
  { subst st'. unfold deleteSession, getSession.
    destruct (currentSession st) as [s|]; [destruct (String.eqb _ _)|];
      simpl; apply lookup_delete_eq. }
  split; [unfold loadSession; rewrite Hg; reflexivity|]. split.
  - intros other Hne. subst st'. unfold deleteSession, getSession.
    destruct (currentSession st) as [s|]; [destruct (String.eqb _ _)|];
      simpl; apply lookup_delete_ne; congruence.
  - split.
    + intros s Hs Hid. subst st'. unfold deleteSession. rewrite Hs.
      apply String.eqb_eq in Hid. rewrite Hid. split; reflexivity.
    + intros s Hs Hid. subst st'. unfold deleteSession. rewrite Hs.
      apply String.eqb_neq in Hid. rewrite Hid. split; [exact Hs | reflexivity].
Qed.

Lemma deleted_session_is_gone_witness :
  let st := stopListening false
              (state (run initialHook
                        [EffectRuns secureBrowser;
                         StartListening (startEnvAt 1000 Started)])) in
  (s_id <$> currentSession (loadSession "session_1000" st)) = Some "session_1000" /\
  currentSession (deleteSession "session_1000" st) = None /\
  transcript (deleteSession "session_1000" st) = [].
Proof.
  intros st. split; [vm_compute; reflexivity|].
  destruct (deleted_session_is_gone "session_1000" st) as (_ & _ & H & _).
  apply (H (newSession (startEnvAt 1000 Started))); vm_compute; reflexivity.
Defined.

Lemma replaceRuns_no_white_space (s : string) :
  forall inRun, hasWhiteSpace (replaceRunsFrom "_" inRun s) = false.
Proof.
  induction s as [|c r IH]; intros inRun; [reflexivity|]. simpl.
  destruct (Js.isWhiteSpace c) eqn:E.
  - destruct inRun; [apply IH|]. simpl. apply IH.
  - simpl. rewrite E. apply IH.
Qed.

Lemma fileStem_no_white_space (st : State) : hasWhiteSpace (fileStem st) = false.
Proof.
  unfold fileStem. destruct (currentSession st) as [s|]; [|reflexivity].
  destruct (Js.isEmpty _) eqn:E; [reflexivity|].
  apply replaceRuns_no_white_space.
Qed.

(** X17.  In every state that the hook reaches, [downloadTranscript]
    either finds nothing to export, when both the session and the
    display are empty, and then only sets the error message; or it
    leaves the state as it is and makes a file whose content is the
    formatted transcript of the session when the session has entries,
    and of the display otherwise.  The exported entries are final
    except possibly the last one, the file begins with the byte order
    mark, and the stem of its name has no white space. *)
Theorem download_of_reachable_state
    (formatTranscript : list TranscriptEntry -> Format -> Z -> string)
    (toISOString : Z -> string) (now : Z) (format : Format) (evs : list Event) :
  let st := state (run initialHook evs) in
  let out := downloadTranscript formatTranscript toISOString now format st in
  match snd out with
  | None =>
      transcript st = [] /\
      (forall s, currentSession st = Some s -> s_transcript s = []) /\
      fst out =
        setError (Some "Nothing to download yet. Say something or wait for a final caption.") st
  | Some file =>
      fst out = st /\
      (exists exported sessionStart,
         exported <> [] /\
         interimOnlyAtTail exported = true /\
         (forall s, currentSession st = Some s -> s_transcript s <> [] ->
                    exported = s_transcript s /\ sessionStart = s_startTime s) /\
         ((forall s, currentSession st = Some s -> s_transcript s = []) ->
          exported = transcript st) /\
         content file = formatTranscript exported format sessionStart) /\
      bom file = [239; 187; 191] /\
      mime file = mimeOf format /\
      filename file = fileStem st +:+ "_" +:+ toISOString now +:+ "." +:+ extensionOf format /\
      hasWhiteSpace (fileStem st) = false
  end.
Proof.
  intros st out.
  pose proof (run_stable evs initialHook initialHook_stable) as Hst.
  fold st in Hst.
  assert (Hd : interimOnlyAtTail (transcript st) = true) by apply (stable_display _ Hst).
  assert (Hs : forall s, currentSession st = Some s -> allFinal (s_transcript s))
    by apply (stable_session _ Hst).
  subst out. unfold downloadTranscript.
  destruct (effectiveTranscript st) as [|first rest] eqn:He; simpl.
  - unfold effectiveTranscript in He.
    destruct (currentSession st) as [s|] eqn:Ec.
    + destruct (s_transcript s) as [|x l] eqn:Et; simpl in He; [|discriminate].
      split; [exact He|]. split; [|reflexivity]. intros s' [= <-]. exact Et.
    + split; [exact He|]. split; [discriminate | reflexivity].
  - split; [reflexivity|]. split; [|repeat split; apply fileStem_no_white_space].
    unfold effectiveTranscript in He.
    destruct (currentSession st) as [s|] eqn:Ec.
    + destruct (s_transcript s) as [|x l] eqn:Et; simpl in He.
      * exists (first :: rest), (s_startTime s). rewrite <- He.
        split; [rewrite He; discriminate|]. split; [exact Hd|].
        split; [intros s' [= <-] Hne; rewrite Et in Hne; contradiction|].
        split; reflexivity.
      * exists (first :: rest), (s_startTime s).
        split; [discriminate|]. split.
        { rewrite <- He, <- Et. apply interimOnlyAtTail_allFinal, Hs. reflexivity. }
        split; [intros s' [= <-] _; rewrite Et; split; [symmetry; exact He | reflexivity]|].
        split; [|reflexivity].
        intros Hn. specialize (Hn s eq_refl). rewrite Et in Hn. discriminate.
    + exists (first :: rest), (startTime first). rewrite <- He.
      split; [rewrite He; discriminate|]. split; [exact Hd|].
      split; [discriminate|]. split; reflexivity.
Qed.

(** X18.  A recognition error stops listening and changes neither the
    display, the session and the store nor the buffered interim entry
    and its timeout; it shows a message for every error code except
    "aborted", for which it clears the message. *)
Theorem recognition_error (code : string) (st : State) :
  let st' := onerror code st in
  isListening st' = false /\
  (error st' = None <-> code = "aborted") /\
  transcript st' = transcript st /\
  currentSession st' = currentSession st /\
  storage st' = storage st /\
  pendingInterimRef st' = pendingInterimRef st /\
  interimTimerRef st' = interimTimerRef st /\
  lastFinalRef st' = lastFinalRef st.
Proof.
  intros st'. subst st'. unfold onerror.
  destruct (String.eqb code "not-allowed") eqn:E1;
    [apply String.eqb_eq in E1; subst code; repeat split; discriminate|].
  destruct (String.eqb code "service-not-allowed") eqn:E2;
    [apply String.eqb_eq in E2; subst code; repeat split; discriminate|].
  destruct (String.eqb code "no-speech") eqn:E3;
    [apply String.eqb_eq in E3; subst code; repeat split; discriminate|].
  destruct (String.eqb code "audio-capture") eqn:E4;
    [apply String.eqb_eq in E4; subst code; repeat split; discriminate|].
  destruct (String.eqb code "network") eqn:E5;
    [apply String.eqb_eq in E5; subst code; repeat split; discriminate|].
  destruct (String.eqb code "aborted") eqn:E6.
  - apply String.eqb_eq in E6. subst code. repeat split.
  - apply String.eqb_neq in E6. repeat split; simpl; [discriminate | contradiction].
Qed.

End Controls.

(** ** Further properties: several final results under one closure *)

Section StaleClosure.

Import Captions Spec.

Lemma long_text_is_appended (st : State) (e : TranscriptEntry) :
  (8 < String.length (text e))%nat ->
  (2 < length (Js.splitWhiteSpace (text e)))%nat ->
  shouldMerge st e = false.
Proof.
  intros H1 H2. unfold shouldMerge. destruct (lastFinalRef st); [|reflexivity].
  assert (E1 : (String.length (text e) <=? 8)%nat = false) by (apply Nat.leb_gt; lia).
  assert (E2 : (length (Js.splitWhiteSpace (text e)) <=? 2)%nat = false)
    by (apply Nat.leb_gt; lia).
  rewrite E1, E2. reflexivity.
Qed.

(** X19.  The handlers append a final entry to the session that they
    closed over, not to the current one.  So when one result event
    brings two final results and the second is too long to be merged
    (more than 8 characters and more than 2 pieces), the display ends
    with the entries of both, but the session holds the transcript of
    the closure followed by the second entry only: the first result is
    not in the session.  The store under the id of the closure holds
    that same session when the first result was appended.  When the
    first result was merged, its merge of the session is saved last,
    by the render: if the session of before the event has the id of
    the closure, the store holds that merged session, without the
    second entry. *)
Theorem second_final_replaces_first (c : CaptionSession) (now nowU : Z)
    (r1 r2 : SpeechResult) (st : State) :
  r_isFinal r1 = true ->
  r_isFinal r2 = true ->
  (8 < String.length (Js.trim (r_transcript r2)))%nat ->
  (2 < length (Js.splitWhiteSpace (Js.trim (r_transcript r2))))%nat ->
  let st' := onresult (Some c) now nowU {| resultIndex := 0; results := [r1; r2] |} st in
  let e1 := baseEntry now st r1 in
  exists pre x e2,
    text e2 = Js.trim (r_transcript r2) /\
    transcript st' = pre ++ [x; e2] /\
    (s_transcript <$> currentSession st') = Some (s_transcript c ++ [e2]) /\
    (shouldMerge st e1 = false ->
     (s_transcript <$> getSession (s_id c) st') = Some (s_transcript c ++ [e2])) /\
    (shouldMerge st e1 = true ->
     forall prev, currentSession st = Some prev -> s_id prev = s_id c ->
     getSession (s_id c) st' = currentSession (mergeIntoSession nowU e1 st)).
Proof.
  intros Hf1 Hf2 Hlen Hwords st' e1. subst st'.
  set (e2 := baseEntry now st r2).
  set (u1 := if shouldMerge st e1 then QueuedMerge nowU e1 else QueuedAppend nowU e1).
  assert (Hu1 : isFinal (queuedEntry u1) = true).
  { subst u1. destruct (shouldMerge st e1); exact Hf1. }
  destruct (runTranscriptUpdate_tail u1 st Hu1) as (pre & x & Ht1 & Hpre & Hx & _).
  assert (Hall1 : allFinal (transcript (runTranscriptUpdate u1 st))).
  { rewrite Ht1. apply Forall_app. split; [exact Hpre | repeat constructor; exact Hx]. }
  exists pre, x, e2. split; [reflexivity|].
  assert (Hm2 : forall s0, shouldMerge s0 e2 = false).
  { intros s0. apply long_text_is_appended; assumption. }
  set (st0 := setInterimTimerRef None (setPendingInterimRef None st)).
  set (upd1 := {| s_id := s_id c; s_name := s_name c; s_startTime := s_startTime c;
                  s_endTime := now; s_transcript := s_transcript c ++ [e1];
                  s_language := s_language c |}).
  set (upd2 := {| s_id := s_id c; s_name := s_name c; s_startTime := s_startTime c;
                  s_endTime := now; s_transcript := s_transcript c ++ [e2];
                  s_language := s_language c |}).
  assert (Hh1 : handleResult (Some c) now nowU r1 (handling st) =
                if shouldMerge st e1 then
                  {| h_state := st0;
                     h_transcriptQueue := [QueuedMerge nowU e1];
                     h_sessionQueue := [QueuedSessionMerge nowU e1] |}
                else
                  {| h_state := saveSession upd1 st0;
                     h_transcriptQueue := [QueuedAppend nowU e1];
                     h_sessionQueue := [QueuedSessionValue upd1] |}).
  { unfold handleResult. rewrite Hf1. unfold onFinal.
    change (baseEntry now (h_state (handling st)) r1) with e1.
    change (shouldMerge (setInterimTimerRef None
                           (setPendingInterimRef None (h_state (handling st)))) e1)
      with (shouldMerge st e1).
    destruct (shouldMerge st e1); reflexivity. }
  assert (Hh2 : forall h,
            beginTimeRef (h_state h) = beginTimeRef st ->
            handleResult (Some c) now nowU r2 h =
              {| h_state := saveSession upd2
                              (setInterimTimerRef None
                                 (setPendingInterimRef None (h_state h)));
                 h_transcriptQueue := h_transcriptQueue h ++ [QueuedAppend nowU e2];
                 h_sessionQueue := h_sessionQueue h ++ [QueuedSessionValue upd2] |}).
  { intros h Hb. unfold handleResult. rewrite Hf2. unfold onFinal.
    assert (He : baseEntry now (h_state h) r2 = e2).
    { subst e2. unfold baseEntry. rewrite Hb. reflexivity. }
    rewrite He, Hm2. reflexivity. }
  unfold onresult, applyQueued. simpl drop. simpl foldl. rewrite Hh1.
  destruct (shouldMerge st e1) eqn:Hm1; rewrite Hh2 by reflexivity;
    cbn [h_state h_transcriptQueue h_sessionQueue app foldl
         runTranscriptUpdate runSessionUpdate].
  - set (sts := saveSession upd2 (setInterimTimerRef None (setPendingInterimRef None st0))).
    assert (Ed : transcript (mergeIntoTranscript nowU e1 sts)
                 = transcript (runTranscriptUpdate u1 st)).
    { subst u1. simpl. unfold mergeIntoTranscript. simpl.
      destruct (Js.findIndex _ _); [|reflexivity].
      destruct (_ !! _); reflexivity. }
    set (std := appendToTranscript nowU e2 (mergeIntoTranscript nowU e1 sts)).
    assert (Etd : transcript std = pre ++ [x; e2]).
    { subst std. simpl. rewrite Ed, (filter_allFinal _ Hall1), Ht1, <- app_assoc.
      reflexivity. }
    destruct (mergeIntoSession_display nowU e1 std) as (Etr & _).
    split; [simpl; rewrite Etr; exact Etd|].
    split; [reflexivity|]. split; [discriminate|].
    intros _ prev Hprev Hid. unfold getSession. simpl.
    assert (Ec : currentSession std = Some prev).
    { subst std. simpl.
      destruct (runTranscriptUpdate_frame (QueuedMerge nowU e1) sts) as (_ & _ & Hc & _).
      simpl in Hc. rewrite Hc. exact Hprev. }
    unfold mergeIntoSession at 1. rewrite Ec. simpl.
    unfold mergeIntoSession. rewrite Hprev. simpl.
    rewrite <- Hid. apply lookup_insert_eq.
  - assert (Ed : List.filter isFinal (transcript st) ++ [e1]
                 = transcript (runTranscriptUpdate u1 st)).
    { subst u1. reflexivity. }
    simpl. rewrite Ed, (filter_allFinal _ Hall1), Ht1, <- app_assoc.
    split; [reflexivity|]. split; [reflexivity|]. split; [|discriminate].
    intros _. unfold getSession. simpl. rewrite lookup_insert_eq. reflexivity.
Qed.

Lemma second_final_replaces_first_witness :
  let c := {| s_id := "session_1"; s_name := "Meeting 1"; s_startTime := 1;
              s_endTime := 1; s_transcript := []; s_language := "en-US" |} in
  let st' := onresult (Some c) 100 100
               {| resultIndex := 0;
                  results := [finalResult "good morning to all of you";
                              finalResult "let us begin with the agenda"] |}
               (setCurrentSession (Some c) initialState) in
  let st1 := onresult (Some c) 100 100 (oneSlot (finalResult "hello"))
               (setCurrentSession (Some c) initialState) in
  let st2 := onresult (Some c) 200 200
               {| resultIndex := 0;
                  results := [finalResult "ok";
                              finalResult "let us begin with the agenda"] |} st1 in
  (exists pre e1 e2,
     text e2 = "let us begin with the agenda" /\
     transcript st' = pre ++ [e1; e2] /\
     (s_transcript <$> currentSession st') = Some [e2] /\
     (s_transcript <$> getSession "session_1" st') = Some [e2]) /\
  (exists e2,
     text e2 = "let us begin with the agenda" /\
     map text (transcript st2) = ["hello ok"; "let us begin with the agenda"] /\
     (s_transcript <$> currentSession st2) = Some [e2] /\
     (map text <$> (s_transcript <$> getSession "session_1" st2)) = Some ["hello ok"]).
Proof.
  intros c st' st1 st2. split.
  - destruct (second_final_replaces_first c 100 100
                (finalResult "good morning to all of you")
                (finalResult "let us begin with the agenda")
                (setCurrentSession (Some c) initialState))
      as (pre & e1 & e2 & H1 & H2 & H3 & H4 & _);
      [reflexivity | reflexivity | vm_compute; lia | vm_compute; lia |].
    exists pre, e1, e2. split; [exact H1|]. split; [exact H2|]. split; [exact H3|].
    apply H4. vm_compute. reflexivity.
  - destruct (second_final_replaces_first c 200 200
                (finalResult "ok")
                (finalResult "let us begin with the agenda") st1)
      as (pre & e1 & e2 & H1 & H2 & H3 & _ & H5);
      [reflexivity | reflexivity | vm_compute; lia | vm_compute; lia |].
    exists e2. split; [exact H1|]. split; [vm_compute; reflexivity|].
    split; [exact H3|].
    assert (Hcur : exists prev, currentSession st1 = Some prev /\ s_id prev = s_id c).
    { vm_compute. eexists. split; reflexivity. }
    destruct Hcur as (prev & Hc1 & Hc2).
    pose proof (H5 ltac:(vm_compute; reflexivity) prev Hc1 Hc2) as Hstore.
    match type of Hstore with
    | _ = ?merged =>
        change (getSession "session_1" st2 = merged) in Hstore
    end.
    rewrite Hstore. vm_compute. reflexivity.
Defined.

End StaleClosure.

(** ** Further properties: hooks/useSpeechRecognition.ts *)

Section SimpleRecognition.

Import SpeechRecognition Notions.

Lemma append_empty_r (s : string) : s +:+ "" = s.
Proof.
  induction s as [|c r IH]; [reflexivity|].
  change (String c r +:+ "") with (String c (r +:+ "")). rewrite IH. reflexivity.
Qed.

Lemma append_assoc (a b c : string) : (a +:+ b) +:+ c = a +:+ (b +:+ c).
Proof.
  induction a as [|x r IH]; [reflexivity|].
  change ((String x r +:+ b) +:+ c) with (String x ((r +:+ b) +:+ c)).
  rewrite IH. reflexivity.
Qed.

Lemma accumulate_from (slots : list Result) :
  forall f i : string,
  foldl (fun acc result =>
           if r_isFinal result
           then (fst acc +:+ r_transcript result, snd acc)
           else (fst acc, snd acc +:+ r_transcript result))
        (f, i) slots
  = (f +:+ transcriptsOf true slots, i +:+ transcriptsOf false slots).
Proof.
  induction slots as [|r slots IH]; intros f i.
  - simpl. unfold transcriptsOf. simpl. rewrite !append_empty_r. reflexivity.
  - simpl. unfold transcriptsOf in *. simpl.
    destruct (r_isFinal r); simpl; rewrite IH, append_assoc; reflexivity.
Qed.

(** X20.  [onresult] of [useSpeechRecognition] reports the transcripts
    of the final slots from [resultIndex] on, put together in order,
    when that text is not empty, and marks the report as final; only
    when it is empty does it report the transcripts of the slots that
    are not final, marked as not final.  The reported text is also the
    new [transcript], and the listening flag and the error are as
    before. *)
Theorem simple_onresult_prefers_finals (resultIndex : nat) (results : list Result)
    (st : State) :
  let slots := drop resultIndex results in
  let finals := transcriptsOf true slots in
  let interims := transcriptsOf false slots in
  let out := onresult resultIndex results st in
  snd out = (if Js.isEmpty finals then interims else finals, negb (Js.isEmpty finals)) /\
  transcript (fst out) = fst (snd out) /\
  isListening (fst out) = isListening st /\
  error (fst out) = error st /\
  (forallb (fun r => negb (r_isFinal r)) slots = true -> snd out = (interims, false)).
Proof.
  intros slots finals interims out. subst out. unfold onresult, accumulate.
  fold slots. rewrite accumulate_from. simpl. fold finals interims.
  repeat split.
  intros Hall.
  assert (Hf : finals = "").
  { subst finals. unfold transcriptsOf. clear -Hall.
    induction slots as [|r l IH]; [reflexivity|]. simpl in Hall.
    apply andb_prop in Hall as [Hr Hl]. simpl.
    destruct (r_isFinal r); [discriminate|]. simpl. apply IH. exact Hl. }
  rewrite Hf. reflexivity.
Qed.

Lemma simple_onresult_prefers_finals_witness :
  let st := {| isListening := true; isSupported := true; transcript := "";
               error := None |} in
  snd (onresult 1 [{| r_transcript := "earlier"; r_isFinal := true |};
                   {| r_transcript := "hel"; r_isFinal := false |};
                   {| r_transcript := "lo"; r_isFinal := false |}] st)
  = ("hello", false).
Proof.
  intros st.
  apply (simple_onresult_prefers_finals 1
           [{| r_transcript := "earlier"; r_isFinal := true |};
            {| r_transcript := "hel"; r_isFinal := false |};
            {| r_transcript := "lo"; r_isFinal := false |}] st).
  reflexivity.
Defined.

End SimpleRecognition.

(** ** Further properties: sentiment analysis *)

Section SentimentResults.

Import Sentiment SentimentHook Notions Spec.

Lemma shift_reported_type (cur : SentimentAnalysis) (history : list SentimentAnalysis) :
  hasShift (detectEmotionalShifts cur history) = true ->
  shiftType (detectEmotionalShifts cur history) = overall cur.
Proof.
  unfold detectEmotionalShifts.
  destruct (length history =? 0)%nat; [discriminate|].
  destruct (overall <$> _) as [prevOverall|]; [|discriminate].
  destruct (overall_eqb prevOverall (overall cur)) eqn:E; [discriminate|].
  intros _. simpl.
  destruct (overall cur), prevOverall; simpl in *; try reflexivity; discriminate.
Qed.

(** X21.  When [detectEmotionalShifts] reports a shift, the type of the
    shift is the current overall sentiment, and the most recent history
    item has another overall sentiment; when it reports none, the type
    is neutral and the intensity subtle.  Against an empty history it
    reports none. *)
Theorem shift_type_is_current_overall (cur : SentimentAnalysis)
    (history : list SentimentAnalysis) :
  let r := detectEmotionalShifts cur history in
  (hasShift r = true ->
   shiftType r = overall cur /\
   exists older prev, history = older ++ [prev] /\ overall prev <> overall cur) /\
  (hasShift r = false -> shiftType r = neutral /\ shiftIntensity r = subtle) /\
  (history = [] -> hasShift r = false).
Proof.
  intros r. subst r. split; [|split].
  - intros Hs. split; [apply shift_reported_type; exact Hs|].
    unfold detectEmotionalShifts in Hs.
    destruct history as [|h0 t] using rev_ind; [discriminate|]. clear IHt.
    assert (Hlen : (length (t ++ [h0]) =? 0)%nat = false).
    { apply Nat.eqb_neq. rewrite length_app. simpl. lia. }
    rewrite Hlen, (sliceLast_snoc 2 t h0), lookup_last_snoc in Hs. simpl in Hs.
    exists t, h0. split; [reflexivity|]. apply overall_eqb_neq.
    destruct (overall_eqb (overall h0) (overall cur)); [discriminate | reflexivity].
  - unfold detectEmotionalShifts.
    destruct (length history =? 0)%nat; [split; reflexivity|].
    destruct (overall <$> _) as [prevOverall|]; [|split; reflexivity].
    destruct (overall_eqb prevOverall (overall cur)); [split; reflexivity | discriminate].
  - intros ->. reflexivity.
Qed.

Lemma shift_type_is_current_overall_witness :
  shiftType (detectEmotionalShifts (sentimentOf neutral 0.9)
                                   [sentimentOf negative 0.5])%float = neutral.
Proof.
  destruct (shift_type_is_current_overall (sentimentOf neutral 0.9)
              [sentimentOf negative 0.5])%float as (H & _).
  destruct (H eq_refl) as (Ht & _). exact Ht.
Defined.

Lemma numberOrMissing_match (v : JsValue) :
  numberOrMissing v = true ->
  match v with JsUndefined | JsNull | JsNumber _ => True | _ => False end.
Proof. destruct v; simpl; intros H; try exact I; discriminate. Qed.

Lemma zero_in_unit_interval : inUnitInterval 0 = true.
Proof. reflexivity. Qed.

Lemma half_in_unit_interval : inUnitInterval 0.5 = true.
Proof. reflexivity. Qed.

(** X22.  Whenever the numeric fields of the parsed response are
    numbers, or are missing or null, and on every failure path, the
    confidence and the six emotions that [analyzeSentiment] returns lie
    in the closed unit interval. *)
Theorem analyzeSentiment_numbers_in_unit (numeral : string -> float) (text : string)
    (outcome : RemoteOutcome) :
  match outcome with
  | Content (JsonParsed parsed) => numericFields parsed = true
  | _ => True
  end ->
  Forall (fun x => inUnitInterval x = true)
         (numbersOf (analyzeSentiment numeral text outcome)).
Proof.
  intros H.
  assert (Hfb : Forall (fun x => inUnitInterval x = true)
                       (numbersOf (createFallbackSentiment text))).
  { destruct (fallback_in_unit_interval text) as (Hc & He).
    unfold numbersOf. constructor; [exact Hc | exact He]. }
  destruct outcome as [| | | |content]; try exact Hfb.
  destruct content as [| |parsed]; try exact Hfb.
  unfold numericFields in H. simpl in H.
  repeat (apply andb_prop in H as [? H]).
  repeat match goal with
         | Hn : numberOrMissing _ = true |- _ => apply numberOrMissing_match in Hn
         end.
  destruct (clampOr_number_in_unit numeral 0.5 (p_confidence parsed)
              half_in_unit_interval) as (c & Hc & Hcu); [assumption|].
  destruct (clampOr_number_in_unit numeral 0 (f_joy (p_emotions parsed))
              zero_in_unit_interval) as (j & Hj & Hju); [assumption|].
  destruct (clampOr_number_in_unit numeral 0 (f_sadness (p_emotions parsed))
              zero_in_unit_interval) as (s & Hs & Hsu); [assumption|].
  destruct (clampOr_number_in_unit numeral 0 (f_anger (p_emotions parsed))
              zero_in_unit_interval) as (a & Ha & Hau); [assumption|].
  destruct (clampOr_number_in_unit numeral 0 (f_fear (p_emotions parsed))
              zero_in_unit_interval) as (f & Hf & Hfu); [assumption|].
  destruct (clampOr_number_in_unit numeral 0 (f_surprise (p_emotions parsed))
              zero_in_unit_interval) as (u & Hu & Huu); [assumption|].
  destruct (clampOr_number_in_unit numeral 0 (f_disgust (p_emotions parsed))
              zero_in_unit_interval) as (d & Hd & Hdu); [assumption|].
  unfold analyzeSentiment, parseSentimentResponse, parseSentimentResponse_try.
  rewrite Hc, Hj, Hs, Ha, Hf, Hu, Hd. simpl. unfold numbersOf. simpl.
  repeat constructor; assumption.
Qed.

Lemma analyzeSentiment_numbers_in_unit_witness :
  Forall (fun x => inUnitInterval x = true)
         (numbersOf (analyzeSentiment (fun _ => nan) "fine"
                       (Content (JsonParsed (parsedWithConfidence (JsNumber 7)))))).
Proof.
  apply (analyzeSentiment_numbers_in_unit (fun _ => nan) "fine"
           (Content (JsonParsed (parsedWithConfidence (JsNumber 7))))).
  reflexivity.
Defined.

(** X23.  When the request of an analysis fails, or its answer has no
    content or no JSON that parses, the contextual mood of the text is
    collaborative when more positive than negative words occur in it,
    and focused otherwise; it is never tense, excited, confused or
    calm. *)
Theorem mood_of_failed_analysis (numeral : string -> float) (text : string)
    (outcome : RemoteOutcome) :
  match outcome with
  | Content (JsonParsed _) => False
  | _ => True
  end ->
  determineContextualMood (analyzeSentiment numeral text outcome) =
    if (negativeCount text <? positiveCount text)%nat then collaborative else focused.
Proof.
  intros H. rewrite (analyzeSentiment_failure_is_fallback numeral text outcome H).
  unfold createFallbackSentiment.
  destruct (negativeCount text <? positiveCount text)%nat; [reflexivity|].
  destruct (positiveCount text <? negativeCount text)%nat; reflexivity.
Qed.

Lemma mood_of_failed_analysis_witness :
  determineContextualMood (analyzeSentiment (fun _ => nan) "a great idea" (StatusNotOk 500))
  = collaborative.
Proof.
  apply (mood_of_failed_analysis (fun _ => nan) "a great idea" (StatusNotOk 500)). exact I.
Defined.

End SentimentResults.

(** ** Further properties: alerts, batches and the queue *)

Section SentimentQueue.

Import Sentiment SentimentHook SentimentControls Notions Samples Spec.

Lemma no_shift_without_history (cur : SentimentAnalysis) :
  hasShift (detectEmotionalShifts cur []) = false.
Proof. reflexivity. Qed.

(** X24.  An analysis that runs raises an alert exactly when alerts
    are switched on and a shift of an intensity that is not subtle is
    detected against the sentiment history.  The alert goes after the
    last four alerts; it is a positive shift exactly when the analysed
    sentiment is positive, and a negative shift for a shift to negative
    and to neutral alike; its severity is high exactly for a dramatic
    shift.  Otherwise the alerts are as before. *)
Theorem alert_of_analysis (numeral : string -> float) (settings : SentimentSettings)
    (text : string) (speaker : option string)
    (timestamp now : Z) (outcome : RemoteOutcome) (st : State) :
  sentimentClient st = true ->
  enableRealTimeAnalysis settings = true ->
  let s := analyzeSentiment numeral text outcome in
  let shift := detectEmotionalShifts s (sentimentHistory st) in
  let st' := snd (analyzeText numeral settings text speaker timestamp now outcome st) in
  (emotionalShiftAlerts settings && notable shift = false ->
   emotionalAlerts st' = emotionalAlerts st) /\
  (emotionalShiftAlerts settings && notable shift = true ->
   exists alert,
     emotionalAlerts st' = Js.sliceLast 4 (emotionalAlerts st) ++ [alert] /\
     (length (emotionalAlerts st') <= 5)%nat /\
     alert_id alert = "alert_" +:+ pretty now /\
     message alert = description shift /\
     (alert_type alert = positive_shift <-> overall s = positive) /\
     (alert_type alert = negative_shift <-> overall s <> positive) /\
     (severity alert = severity_high <-> shiftIntensity shift = dramatic) /\
     (severity alert = severity_medium <-> shiftIntensity shift = moderate)).
Proof.
  intros Hc He s shift st'. subst st'. unfold analyzeText. rewrite Hc, He. simpl.
  fold s. fold shift.
  destruct (emotionalShiftAlerts settings) eqn:Ea; simpl.
  2:{ split; [reflexivity | discriminate]. }
  destruct (sentimentHistory st) as [|h0 t] eqn:Eh.
  { simpl. split; [reflexivity|]. intros H. exfalso.
    unfold notable in H. subst shift. rewrite no_shift_without_history in H. discriminate. }
  simpl Nat.ltb. cbv iota. unfold notable.
  destruct (hasShift shift) eqn:Es; simpl; [|split; [reflexivity | discriminate]].
  pose proof (shift_reported_type s (h0 :: t)) as Hty.
  fold shift in Hty. specialize (Hty Es).
  destruct (shiftIntensity shift) eqn:Ei; simpl.
  - split; [reflexivity | discriminate].
  - split; [discriminate|]. intros _. eexists. split; [reflexivity|].
    split; [rewrite length_app, sliceLast_length; simpl length; lia|].
    simpl. rewrite Hty.
    repeat split; try discriminate; try congruence;
      destruct (overall s); simpl; congruence.
  - split; [discriminate|]. intros _. eexists. split; [reflexivity|].
    split; [rewrite length_app, sliceLast_length; simpl length; lia|].
    simpl. rewrite Hty.
    repeat split; try discriminate; try congruence;
      destruct (overall s); simpl; congruence.
Qed.


Lemma alert_of_analysis_witness :
  let st := snd (analyzeText (fun _ => nan) alertingSettings "this is bad" None 0 0
                   FetchRejects (initialState true)) in
  let st' := snd (analyzeText (fun _ => nan) alertingSettings "fine" None 10 10
                    (Content (JsonParsed (parsedWithConfidence (JsNumber 1)))) st) in
  map alert_type (emotionalAlerts st') = [negative_shift] /\
  map severity (emotionalAlerts st') = [severity_high].
Proof.
  intros st st'.
  destruct (alert_of_analysis (fun _ => nan) alertingSettings "fine" None 10 10
              (Content (JsonParsed (parsedWithConfidence (JsNumber 1)))) st
              eq_refl eq_refl) as (_ & H).
  destruct (H eq_refl) as (alert & Ha & _ & _ & _ & _ & Hn & Hs & _).
  fold st' in Ha. rewrite Ha. simpl.
  assert (Hty : alert_type alert = negative_shift) by (apply Hn; discriminate).
  assert (Hsv : severity alert = severity_high) by (apply Hs; reflexivity).
  rewrite Hty, Hsv. split; reflexivity.
Defined.

Lemma window_fold {A} (n : nat) (xs : list A) :
  forall w, xs <> [] ->
  foldl (fun w x => Js.sliceLast n w ++ [x]) w xs = Js.sliceLast (S n) (w ++ xs).
Proof.
  induction xs as [|x rest IH]; intros w Hne; [contradiction|]. simpl.
  destruct rest as [|y rest'].
  - simpl. symmetry. apply sliceLast_snoc.
  - rewrite IH by discriminate.
    rewrite <- (sliceLast_snoc n w x), sliceLast_app_slice, <- app_assoc. reflexivity.
Qed.

Lemma map_sliceLast {A B} (f : A -> B) (n : nat) (l : list A) :
  map f (Js.sliceLast n l) = Js.sliceLast n (map f l).
Proof. unfold Js.sliceLast. rewrite length_map. symmetry. apply List.skipn_map. Qed.

Lemma analyzeBatch_folds (numeral : string -> float) (settings : SentimentSettings)
    (meets : Meets) (batch : list Queued) :
  enableRealTimeAnalysis settings = true ->
  forall st : State,
  sentimentClient st = true ->
  let resultOf := fun item => analyzeSentiment numeral (q_text item) (outcomeOf meets item) in
  let st' := analyzeBatch numeral settings meets batch st in
  sentimentHistory st' =
    foldl (fun w x => Js.sliceLast 10 w ++ [x]) (sentimentHistory st) (map resultOf batch) /\
  map sentiment (conversationHistory st') =
    foldl (fun w x => Js.sliceLast 50 w ++ [x]) (map sentiment (conversationHistory st))
          (map resultOf batch) /\
  map cs_text (conversationHistory st') =
    foldl (fun w x => Js.sliceLast 50 w ++ [x]) (map cs_text (conversationHistory st))
          (map q_text batch) /\
  (batch <> [] -> currentSentiment st' = last (map resultOf batch)).
Proof.
  intros He. induction batch as [|item rest IH]; intros st Hc resultOf st'.
  - repeat split. intros H. contradiction.
  - subst st'. unfold analyzeBatch. simpl foldl.
    set (st1 := snd (analyzeText numeral settings (q_text item) (q_speaker item)
                       (q_timestamp item) (clockOf meets item) (outcomeOf meets item) st)).
    assert (H1 : sentimentClient st1 = true /\
                 sentimentHistory st1 = Js.sliceLast 10 (sentimentHistory st) ++ [resultOf item] /\
                 map sentiment (conversationHistory st1) =
                   Js.sliceLast 50 (map sentiment (conversationHistory st)) ++ [resultOf item] /\
                 map cs_text (conversationHistory st1) =
                   Js.sliceLast 50 (map cs_text (conversationHistory st)) ++ [q_text item] /\
                 currentSentiment st1 = Some (resultOf item)).
    { subst st1. unfold analyzeText. rewrite Hc, He. simpl.
      rewrite !map_app, !map_sliceLast. repeat split. }
    destruct H1 as (Hc1 & Hh & Hs & Ht & Hcur).
    destruct (IH st1 Hc1) as (I1 & I2 & I3 & I4).
    fold (analyzeBatch numeral settings meets rest st1).
    simpl map. simpl foldl. rewrite <- Hh, <- Hs, <- Ht.
    split; [exact I1|]. split; [exact I2|]. split; [exact I3|].
    intros _. destruct rest as [|item' rest'].
    + simpl. exact Hcur.
    + rewrite I4 by discriminate. reflexivity.
Qed.

(** X25.  The analyses of a batch keep windows over what they append:
    after a batch that is not empty, the sentiment history is the last
    11 of the previous history followed by the results of the batch,
    and the conversation history is the last 51 of the previous
    conversation followed by the items of the batch, in their order;
    the current sentiment is the result of the last item.  So however
    many texts are analysed, the sentiment history holds at most 11 and
    the conversation history at most 51 entries. *)
Theorem batch_is_a_window (numeral : string -> float) (settings : SentimentSettings)
    (meets : Meets) (batch : list Queued) (st : State) :
  sentimentClient st = true ->
  enableRealTimeAnalysis settings = true ->
  batch <> [] ->
  let results :=
    map (fun item => analyzeSentiment numeral (q_text item) (outcomeOf meets item)) batch in
  let st' := analyzeBatch numeral settings meets batch st in
  sentimentHistory st' = Js.sliceLast 11 (sentimentHistory st ++ results) /\
  map sentiment (conversationHistory st') =
    Js.sliceLast 51 (map sentiment (conversationHistory st) ++ results) /\
  map cs_text (conversationHistory st') =
    Js.sliceLast 51 (map cs_text (conversationHistory st) ++ map q_text batch) /\
  currentSentiment st' = last results /\
  (length (sentimentHistory st') <= 11)%nat /\
  (length (conversationHistory st') <= 51)%nat.
Proof.
  intros Hc He Hne results st'.
  destruct (analyzeBatch_folds numeral settings meets batch He st Hc) as (H1 & H2 & H3 & H4).
  fold st' in H1, H2, H3, H4. fold results in H1, H2, H4.
  assert (Hr : results <> []) by (subst results; destruct batch; [contradiction | discriminate]).
  assert (Hq : map q_text batch <> []) by (destruct batch; [contradiction | discriminate]).
  rewrite window_fold in H1 by exact Hr.
  rewrite window_fold in H2 by exact Hr.
  rewrite window_fold in H3 by exact Hq.
  split; [exact H1|]. split; [exact H2|]. split; [exact H3|]. split; [exact (H4 Hne)|].
  split.
  - rewrite H1, sliceLast_length. lia.
  - rewrite <- (length_map cs_text), H3, sliceLast_length. lia.
Qed.

Lemma batch_is_a_window_witness :
  let batch := map (fun n => said "good" (Z.of_nat n)) (seq 0 60) in
  let st' := analyzeBatch (fun _ => nan) alertingSettings offline batch (initialState true) in
  length (sentimentHistory st') = 11%nat /\
  (length (conversationHistory st') <= 51)%nat.
Proof.
  intros batch st'.
  destruct (batch_is_a_window (fun _ => nan) alertingSettings offline batch
              (initialState true) eq_refl eq_refl) as (H1 & _ & _ & _ & _ & H6);
    [discriminate|].
  fold st' in H1, H6. split; [|exact H6].
  rewrite H1. vm_compute. reflexivity.
Defined.

Lemma processAnalysisQueue_batch (numeral : string -> float)
    (settings : SentimentSettings) (meets : Meets) (now : Z) (q : Queue) :
  analysisQueue q <> [] ->
  processAnalysisQueue numeral settings meets now q =
    {| hook := analyzeBatch numeral settings meets (take 5 (analysisQueue q)) (hook q);
       analysisQueue := drop 5 (analysisQueue q);
       lastAnalysisTime := now |}.
Proof.
  intros H. unfold processAnalysisQueue.
  destruct (analysisQueue q); [contradiction | reflexivity].
Qed.

(** X26.  [queueAnalysis] does nothing when real-time analysis is
    switched off.  Otherwise it puts the item at the end of the queue
    and analyses a batch of at most five items from the front of the
    queue, in their order, or none: the batch followed by what stays
    queued is the previous queue followed by the new item, so that no
    item is dropped, repeated or overtaken.  The time of the last
    analysis moves to the clock reading exactly when a batch was
    taken. *)
Theorem queue_is_fifo (numeral : string -> float) (settings : SentimentSettings)
    (meets : Meets) (now nowP : Z) (text : string) (speaker : option string) (q : Queue) :
  let item := {| q_text := text; q_speaker := speaker; q_timestamp := now |} in
  let q' := queueAnalysis numeral settings meets now nowP text speaker q in
  (enableRealTimeAnalysis settings = false -> q' = q) /\
  (enableRealTimeAnalysis settings = true ->
   exists batch,
     (length batch <= 5)%nat /\
     batch ++ analysisQueue q' = analysisQueue q ++ [item] /\
     hook q' = analyzeBatch numeral settings meets batch (hook q) /\
     (batch = [] -> lastAnalysisTime q' = lastAnalysisTime q) /\
     (batch <> [] -> lastAnalysisTime q' = nowP)).
Proof.
  intros item q'. subst q'. unfold queueAnalysis.
  destruct (enableRealTimeAnalysis settings); simpl; split; try discriminate;
    [|reflexivity]. intros _.
  destruct (analysisFrequency settings <=? _)%float.
  - rewrite processAnalysisQueue_batch
      by (cbn [analysisQueue]; destruct (analysisQueue q); discriminate).
    cbn [analysisQueue hook lastAnalysisTime]. fold item.
    exists (take 5 (analysisQueue q ++ [item])).
    split; [rewrite length_take; lia|]. split; [apply take_drop|].
    split; [reflexivity|]. split; [|reflexivity].
    intros H. destruct (analysisQueue q); discriminate.
  - exists []. cbn [analysisQueue hook lastAnalysisTime].
    split; [simpl; lia|]. split; [reflexivity|]. split; [reflexivity|].
    split; [reflexivity|]. intros H. contradiction.
Qed.

Lemma queue_is_fifo_witness :
  let q := waiting [said "one" 1; said "two" 2; said "three" 3; said "four" 4;
                    said "five" 5; said "six" 6] in
  let q' := queueAnalysis (fun _ => nan) alertingSettings offline 9000 9001 "seven" None q in
  exists batch,
    batch ++ analysisQueue q' = analysisQueue q ++ [said "seven" 9000] /\
    map q_text (analysisQueue q') = ["six"; "seven"].
Proof.
  intros q q'.
  destruct (queue_is_fifo (fun _ => nan) alertingSettings offline 9000 9001 "seven" None q)
    as (_ & H).
  destruct (H eq_refl) as (batch & _ & Hb & _).
  exists batch. split; [exact Hb|]. vm_compute. reflexivity.
Defined.

(** X27.  After [clearSentimentData] the queue is empty and the hook
    is as new, apart from its client and the time of the last analysis,
    which stay.  The first analysis after it raises no alert, whatever
    its result, and leaves one result in the sentiment history and one
    entry in the conversation history. *)
Theorem first_analysis_after_clear (numeral : string -> float)
    (settings : SentimentSettings) (text : string) (speaker : option string)
    (timestamp now : Z) (outcome : RemoteOutcome) (q : Queue) :
  sentimentClient (hook q) = true ->
  enableRealTimeAnalysis settings = true ->
  let cleared := clearSentimentData q in
  let st' := snd (analyzeText numeral settings text speaker timestamp now outcome
                    (hook cleared)) in
  hook cleared = initialState true /\
  analysisQueue cleared = [] /\
  lastAnalysisTime cleared = lastAnalysisTime q /\
  emotionalAlerts st' = [] /\
  sentimentHistory st' = [analyzeSentiment numeral text outcome] /\
  map cs_text (conversationHistory st') = [text].
Proof.
  intros Hc He cleared st'. subst st' cleared. unfold clearSentimentData, analyzeText.
  simpl. rewrite Hc, He. simpl. rewrite andb_false_r. repeat split.
Qed.

Lemma first_analysis_after_clear_witness :
  let q := queueAnalysis (fun _ => nan) alertingSettings offline 9000 9001 "this is bad"
             None (waiting []) in
  let st' := snd (analyzeText (fun _ => nan) alertingSettings "very good" None 9500 9500
                    FetchRejects (hook (clearSentimentData q))) in
  length (sentimentHistory (hook q)) = 1%nat /\ emotionalAlerts st' = [].
Proof.
  intros q st'. split; [vm_compute; reflexivity|].
  apply (first_analysis_after_clear (fun _ => nan) alertingSettings "very good" None
           9500 9500 FetchRejects q); reflexivity.
Defined.

End SentimentQueue.
